(** * Alpenhorn client: persistence and PKG error codes

    A shallow embedding of the persistence layer of the Alpenhorn client
    (LoadClient, loadStateLocked, persistLocked, persistClientLocked,
    persistKeywheelLocked) and of the generated [ErrorCode.String] method of
    the [pkg] package, together with the properties the specification states
    about them. *)

From Stdlib Require Import ZArith String Ascii List Lia DecimalString.
From Stdlib.Strings Require Import Byte.
From stdpp Require Import base option strings list gmap sorting.
From Stdlib Require Import DecimalZ.

Local Open Scope Z_scope.

(** ** Go runtime conventions shared by both packages *)

(** A Go function either returns or panics (a run-time error such as an index
    out of range or a nil-pointer dereference). *)
Inductive outcome (A : Type) : Type :=
| Done (a : A)
| Panic (msg : string).
Arguments Done {A} a.
Arguments Panic {A} msg.

Definition outcome_bind {A B} (o : outcome A) (k : A -> outcome B) : outcome B :=
  match o with
  | Done a => k a
  | Panic msg => Panic msg
  end.

Definition returns {A} (o : outcome A) : Prop := exists a, o = Done a.

Module GoInt.
(** Go's [int] on the 64-bit platforms the client targets: a signed machine
    integer, arithmetic wraps around in two's complement. *)
Definition int_min : Z := - 2 ^ 63.
Definition int_max : Z := 2 ^ 63 - 1.
Definition is_int (z : Z) : Prop := int_min <= z <= int_max.
Definition wrap (z : Z) : Z := (z + 2 ^ 63) mod 2 ^ 64 - 2 ^ 63.

(** [len] of a string or of an array, as an [int]. *)
Definition len_string (s : string) : Z := Z.of_nat (String.length s).
Definition len_array {A} (a : list A) : Z := Z.of_nat (length a).

(** The index expression [a[i]]: panics unless [0 <= i < len(a)]. *)
Definition index_array (a : list Z) (i : Z) : outcome Z :=
  if (0 <=? i) && (i <? len_array a) then
    match a !! Z.to_nat i with
    | Some x => Done x
    | None => Panic "index out of range"
    end
  else Panic "index out of range".

(** The slice expression [s[lo:hi]] on a string: panics unless
    [0 <= lo <= hi <= len(s)]. *)
Definition slice_string (s : string) (lo hi : Z) : outcome string :=
  if (0 <=? lo) && (lo <=? hi) && (hi <=? len_string s) then
    Done (substring (Z.to_nat lo) (Z.to_nat (hi - lo)) s)
  else Panic "slice bounds out of range".

(** The verb [%d] of [fmt.Sprintf]: signed decimal. *)
Definition format_d (z : Z) : string := NilZero.string_of_int (Z.to_int z).
End GoInt.

(** ** Package pkg: [ErrorCode.String] (src/pkg/errorcode_string.go) *)

Module Pkg.
Import GoInt.

Definition _ErrorCode_name : string :=
  "ErrBadRequestJSONErrDatabaseErrorErrInvalidUsernameErrNotRegisteredErrNotVerifiedErrAlreadyRegisteredErrRegistrationInProgressErrSendingEmailErrRoundNotFoundErrInvalidUserLongTermKeyErrInvalidSignatureErrInvalidTokenErrExpiredTokenErrUnauthorizedErrBadCommitmentErrUnknown".

Definition _ErrorCode_index : list Z :=
  [0; 17; 33; 51; 67; 81; 101; 126; 141; 157; 182; 201; 216; 231; 246; 262; 272].

(** [func (i ErrorCode) String() string]; [ErrorCode] is an [int]. *)
Definition String (i : Z) : outcome string :=
  let i := wrap (i - 1) in
  if (i <? 0) || (i >=? wrap (len_array _ErrorCode_index - 1)) then
    Done ("ErrorCode(" +:+ format_d (wrap (i + 1)) +:+ ")")
  else
    outcome_bind (index_array _ErrorCode_index i) (fun lo =>
    outcome_bind (index_array _ErrorCode_index (wrap (i + 1))) (fun hi =>
    slice_string _ErrorCode_name lo hi)).
End Pkg.

(** ** Package pkg: [ErrorCode.String], the copy of the generated file that
    has the seventeen kinds (src/unnamed/part_000, lines 194-210) *)

Module PkgLoginKey.
Import GoInt.

Definition _ErrorCode_name : string :=
  "ErrBadRequestJSONErrDatabaseErrorErrInvalidUsernameErrInvalidLoginKeyErrNotRegisteredErrNotVerifiedErrAlreadyRegisteredErrRegistrationInProgressErrSendingEmailErrRoundNotFoundErrInvalidUserLongTermKeyErrInvalidSignatureErrInvalidTokenErrExpiredTokenErrUnauthorizedErrBadCommitmentErrUnknown".

Definition _ErrorCode_index : list Z :=
  [0; 17; 33; 51; 69; 85; 99; 119; 144; 159; 175; 200; 219; 234; 249; 264; 280; 290].

Definition String (i : Z) : outcome string :=
  let i := wrap (i - 1) in
  if (i <? 0) || (i >=? wrap (len_array _ErrorCode_index - 1)) then
    Done ("ErrorCode(" +:+ format_d (wrap (i + 1)) +:+ ")")
  else
    outcome_bind (index_array _ErrorCode_index i) (fun lo =>
    outcome_bind (index_array _ErrorCode_index (wrap (i + 1))) (fun hi =>
    slice_string _ErrorCode_name lo hi)).

(** Modelled from the spec: the [ErrorCode] constants.  Their declaration
    (pkg/errors.go) is not under src; the specification lists the seventeen
    kinds in this order, and the generated method ([i -= 1], one contiguous
    run) shows that they are numbered consecutively from 1. *)
Inductive ErrorKind : Set :=
| BadRequestJSON | DatabaseError | InvalidUsername | InvalidLoginKey
| NotRegistered | NotVerified | AlreadyRegistered | RegistrationInProgress
| SendingEmail | RoundNotFound | InvalidUserLongTermKey | InvalidSignature
| InvalidToken | ExpiredToken | Unauthorized | BadCommitment | Unknown.

Definition kind_name (k : ErrorKind) : string :=
  match k with
  | BadRequestJSON => "BadRequestJSON"
  | DatabaseError => "DatabaseError"
  | InvalidUsername => "InvalidUsername"
  | InvalidLoginKey => "InvalidLoginKey"
  | NotRegistered => "NotRegistered"
  | NotVerified => "NotVerified"
  | AlreadyRegistered => "AlreadyRegistered"
  | RegistrationInProgress => "RegistrationInProgress"
  | SendingEmail => "SendingEmail"
  | RoundNotFound => "RoundNotFound"
  | InvalidUserLongTermKey => "InvalidUserLongTermKey"
  | InvalidSignature => "InvalidSignature"
  | InvalidToken => "InvalidToken"
  | ExpiredToken => "ExpiredToken"
  | Unauthorized => "Unauthorized"
  | BadCommitment => "BadCommitment"
  | Unknown => "Unknown"
  end.

Definition kind_code (k : ErrorKind) : Z :=
  match k with
  | BadRequestJSON => 1
  | DatabaseError => 2
  | InvalidUsername => 3
  | InvalidLoginKey => 4
  | NotRegistered => 5
  | NotVerified => 6
  | AlreadyRegistered => 7
  | RegistrationInProgress => 8
  | SendingEmail => 9
  | RoundNotFound => 10
  | InvalidUserLongTermKey => 11
  | InvalidSignature => 12
  | InvalidToken => 13
  | ExpiredToken => 14
  | Unauthorized => 15
  | BadCommitment => 16
  | Unknown => 17
  end.
End PkgLoginKey.

(** What the method does for a defined code [v]: both table lookups hit,
    the bounds are ordered and inside the name string, and the result is
    that slice. *)
Definition slices_within (name : string) (index : list Z)
    (String : Z -> outcome string) (v : Z) : Prop :=
  exists lo hi,
    index !! Z.to_nat (v - 1) = Some lo /\
    index !! Z.to_nat v = Some hi /\
    0 <= lo <= hi /\ hi <= GoInt.len_string name /\
    String v = Done (substring (Z.to_nat lo) (Z.to_nat (hi - lo)) name).

(** ** Go values: pointers, slices, errors *)

Module Go.
(** A pointer is nil or holds its pointee; the pointee is kept by value
    (the persistence code never relies on two pointers sharing one
    object). *)
Abbreviation ptr := option (only parsing).

(** A slice is nil or a sequence of elements; [range] over a nil slice
    runs no iteration. *)
Abbreviation slice A := (option (list A)) (only parsing).
Definition elems {A} (s : slice A) : list A := default [] s.

(** The [error] interface: nil or an error value, kept as its message. *)
Abbreviation error := (option string) (only parsing).

(** A call that returns [(value, error)] with exactly one of them set. *)
Inductive result (A : Type) : Type :=
| Ok (a : A)
| Err (e : string).
Arguments Ok {A} a.
Arguments Err {A} e.

Definition result_bind {A B} (r : result A) (k : A -> result B) : result B :=
  match r with
  | Ok a => k a
  | Err e => Err e
  end.

Definition result_map {A B} (f : A -> B) (r : result A) : result B :=
  result_bind r (fun a => Ok (f a)).

Fixpoint result_mapM {A B} (f : A -> result B) (l : list A) : result (list B) :=
  match l with
  | [] => Ok []
  | x :: l' =>
      result_bind (f x) (fun y =>
      result_bind (result_mapM f l') (fun ys => Ok (y :: ys)))
  end.
End Go.
Import Go.

(** ** encoding/json and encoding/base64, as far as the client blob uses them *)

Module Base64.
(** [base64.StdEncoding]: the standard alphabet, with padding. *)
Definition alphabet : string :=
  "ABCDEFGHIJKLMNOPQRSTUVWXYZabcdefghijklmnopqrstuvwxyz0123456789+/".

Definition pad : ascii := "="%char.

Definition sextet_char (n : N) : ascii :=
  default pad (String.get (N.to_nat (N.land n 63)) alphabet).

Fixpoint index_of (c : ascii) (s : string) : option N :=
  match s with
  | EmptyString => None
  | String c' s' =>
      if Ascii.eqb c c' then Some 0%N else N.succ <$> index_of c s'
  end.

Definition char_sextet (c : ascii) : option N := index_of c alphabet.

Definition byte_of (n : N) : byte :=
  default Byte.x00 (Byte.of_N (N.land n 255)).

Fixpoint encode (l : list byte) : string :=
  match l with
  | [] => EmptyString
  | [a] =>
      let n := N.shiftl (Byte.to_N a) 4 in
      String (sextet_char (N.shiftr n 6)) (String (sextet_char n)
        (String pad (String pad EmptyString)))
  | [a; b] =>
      let n := N.shiftl (N.lor (N.shiftl (Byte.to_N a) 8) (Byte.to_N b)) 2 in
      String (sextet_char (N.shiftr n 12)) (String (sextet_char (N.shiftr n 6))
        (String (sextet_char n) (String pad EmptyString)))
  | a :: b :: c :: l' =>
      let n := N.lor (N.shiftl (Byte.to_N a) 16)
                 (N.lor (N.shiftl (Byte.to_N b) 8) (Byte.to_N c)) in
      String (sextet_char (N.shiftr n 18)) (String (sextet_char (N.shiftr n 12))
        (String (sextet_char (N.shiftr n 6)) (String (sextet_char n) (encode l'))))
  end.

Fixpoint decode (s : string) : result (list byte) :=
  match s with
  | EmptyString => Ok []
  | String c1 (String c2 (String c3 (String c4 s'))) =>
      match char_sextet c1, char_sextet c2 with
      | Some n1, Some n2 =>
          let hi := N.lor (N.shiftl n1 6) n2 in
          if Ascii.eqb c3 pad then
            if Ascii.eqb c4 pad && String.eqb s' EmptyString then
              Ok [byte_of (N.shiftr hi 4)]
            else Err "illegal base64 data"
          else
            match char_sextet c3 with
            | Some n3 =>
                let mid := N.lor (N.shiftl hi 6) n3 in
                if Ascii.eqb c4 pad then
                  if String.eqb s' EmptyString then
                    Ok [byte_of (N.shiftr mid 10); byte_of (N.shiftr mid 2)]
                  else Err "illegal base64 data"
                else
                  match char_sextet c4 with
                  | Some n4 =>
                      let n := N.lor (N.shiftl mid 6) n4 in
                      result_map
                        (fun l => byte_of (N.shiftr n 16)
                                  :: byte_of (N.shiftr n 8) :: byte_of n :: l)
                        (decode s')
                  | None => Err "illegal base64 data"
                  end
            | None => Err "illegal base64 data"
            end
      | _, _ => Err "illegal base64 data"
      end
  | _ => Err "illegal base64 data"
  end.
(** The sixty-four characters of the alphabet are distinct, none is the
    padding character, and all are below 0x80. *)
Definition sextet_check (k : nat) : bool :=
  let c := default pad (String.get k alphabet) in
  match index_of c alphabet with
  | Some m => (m =? N.of_nat k)%N && negb (Ascii.eqb c pad) && (N_of_ascii c <? 128)%N
  | None => false
  end.
End Base64.

Module JSON.
(** A JSON document.  A number keeps its literal. *)
#[warnings="-register-all"]
Inductive json : Type :=
| JNull
| JBool (b : bool)
| JNumber (lit : string)
| JString (s : string)
| JArray (l : list json)
| JObject (kvs : list (string * json)).

(** The interfaces [json.Marshaler] and [json.Unmarshaler]. *)
Class Codec (A : Type) : Type := {
  toJSON : A -> result json;
  fromJSON : json -> result A
}.

(** *** Text: [json.MarshalIndent] and the scanner of [json.Unmarshal] *)

Definition quote : ascii := ascii_of_nat 34.
Definition backslash : ascii := ascii_of_nat 92.
Definition newline : ascii := ascii_of_nat 10.
Definition carriage_return : ascii := ascii_of_nat 13.
Definition tab : ascii := ascii_of_nat 9.

Definition hex_digit (n : N) : ascii :=
  default "0"%char (String.get (N.to_nat (N.land n 15)) "0123456789abcdef").

Definition hex_value (c : ascii) : option N :=
  let n := N_of_ascii c in
  if (48 <=? n)%N && (n <=? 57)%N then Some (n - 48)%N
  else if (97 <=? n)%N && (n <=? 102)%N then Some (n - 87)%N
  else if (65 <=? n)%N && (n <=? 70)%N then Some (n - 55)%N
  else None.

Definition unicode_escape (n : N) : string :=
  String backslash (String "u" (String (hex_digit (N.shiftr n 12))
    (String (hex_digit (N.shiftr n 8)) (String (hex_digit (N.shiftr n 4))
      (String (hex_digit n) EmptyString))))).

(** The escapes of the encoder for a byte below 0x80 (with its default HTML
    escaping). *)
Definition escape_char (c : ascii) : string :=
  let n := N_of_ascii c in
  if Ascii.eqb c quote then String backslash (String quote EmptyString)
  else if Ascii.eqb c backslash then String backslash (String backslash EmptyString)
  else if Ascii.eqb c newline then String backslash "n"
  else if Ascii.eqb c carriage_return then String backslash "r"
  else if Ascii.eqb c tab then String backslash "t"
  else if (n <? 32)%N then unicode_escape n
  else if Ascii.eqb c "<" || Ascii.eqb c ">" || Ascii.eqb c "&" then unicode_escape n
  else String c EmptyString.

(** [utf8.DecodeRuneInString], as far as the encoder needs it: the number of
    bytes the first byte of an encoding announces (none for a byte that
    cannot start one), the second bytes a first byte accepts (which rules
    out overlong forms, surrogates and code points past U+10FFFF), and the
    continuation bytes. *)
Definition in_range (lo hi : N) (c : ascii) : bool :=
  let n := N_of_ascii c in (lo <=? n)%N && (n <=? hi)%N.

Definition rune_size (c1 : ascii) : nat :=
  if in_range 194 223 c1 then 2
  else if in_range 224 239 c1 then 3
  else if in_range 240 244 c1 then 4
  else 0.

Definition second_ok (c1 c2 : ascii) : bool :=
  let n := N_of_ascii c1 in
  if (n =? 224)%N then in_range 160 191 c2
  else if (n =? 237)%N then in_range 128 159 c2
  else if (n =? 240)%N then in_range 144 191 c2
  else if (n =? 244)%N then in_range 128 143 c2
  else match rune_size c1 with
       | O => false
       | _ => in_range 128 191 c2
       end.

Definition is_continuation (c : ascii) : bool := in_range 128 191 c.

(** U+2028 and U+2029 (E2 80 A8 and E2 80 A9), which the encoder escapes. *)
Definition is_separator (c1 c2 c3 : ascii) : bool :=
  (N_of_ascii c1 =? 226)%N && (N_of_ascii c2 =? 128)%N && in_range 168 169 c3.

Definition separator_escape (c3 : ascii) : string :=
  String backslash (String "u" (String "2" (String "0" (String "2"
    (String (hex_digit (N_of_ascii c3)) EmptyString))))).

(** What the encoder writes for a byte that is not part of a valid
    encoding. *)
Definition replacement_escape : string :=
  String backslash "ufffd".

(** The body of a string literal, as the encoder writes it: bytes below 0x80
    through [escape_char]; a valid UTF-8 encoding as it is, except the two
    separators; for any other byte the escape of U+FFFD, after which the
    encoder goes on with the next byte. *)
Fixpoint escape (s : string) : string :=
  match s with
  | EmptyString => EmptyString
  | String c1 s1 =>
      if (N_of_ascii c1 <? 128)%N then escape_char c1 +:+ escape s1
      else
        let invalid := replacement_escape +:+ escape s1 in
        match s1 with
        | EmptyString => invalid
        | String c2 s2 =>
            if negb (second_ok c1 c2) then invalid
            else
              match rune_size c1 with
              | 2%nat => String c1 (String c2 (escape s2))
              | _ =>
                  match s2 with
                  | EmptyString => invalid
                  | String c3 s3 =>
                      if negb (is_continuation c3) then invalid
                      else
                        match rune_size c1 with
                        | 3%nat =>
                            if is_separator c1 c2 c3
                            then separator_escape c3 +:+ escape s3
                            else String c1 (String c2 (String c3 (escape s3)))
                        | _ =>
                            match s3 with
                            | EmptyString => invalid
                            | String c4 s4 =>
                                if is_continuation c4
                                then String c1 (String c2 (String c3 (String c4
                                       (escape s4))))
                                else invalid
                            end
                        end
                  end
              end
        end
  end.

Definition quoted (s : string) : string :=
  String quote (escape s +:+ String quote EmptyString).

Fixpoint repeat_string (n : nat) (s : string) : string :=
  match n with
  | O => EmptyString
  | S n' => s +:+ repeat_string n' s
  end.

Fixpoint join (sep : string) (l : list string) : string :=
  match l with
  | [] => EmptyString
  | [x] => x
  | x :: l' => x +:+ sep +:+ join sep l'
  end.

Definition line_break (prefix indent : string) (depth : nat) : string :=
  String newline (prefix +:+ repeat_string depth indent).

(** The output of [json.MarshalIndent]: every element of a non-empty array
    or object starts a new line that begins with [prefix] followed by one
    copy of [indent] per nesting level. *)
Fixpoint render (prefix indent : string) (depth : nat) (j : json) : string :=
  match j with
  | JNull => "null"
  | JBool true => "true"
  | JBool false => "false"
  | JNumber lit => lit
  | JString s => quoted s
  | JArray [] => "[]"
  | JArray l =>
      "[" +:+ line_break prefix indent (S depth)
      +:+ join ("," +:+ line_break prefix indent (S depth))
            (map (render prefix indent (S depth)) l)
      +:+ line_break prefix indent depth +:+ "]"
  | JObject [] => "{}"
  | JObject kvs =>
      "{" +:+ line_break prefix indent (S depth)
      +:+ join ("," +:+ line_break prefix indent (S depth))
            (map (fun kv => quoted (fst kv) +:+ ": "
                            +:+ render prefix indent (S depth) (snd kv)) kvs)
      +:+ line_break prefix indent depth +:+ "}"
  end.

Definition is_space (c : ascii) : bool :=
  Ascii.eqb c " " || Ascii.eqb c newline || Ascii.eqb c carriage_return
  || Ascii.eqb c tab.

Fixpoint skip_space (s : string) : string :=
  match s with
  | String c s' => if is_space c then skip_space s' else s
  | EmptyString => EmptyString
  end.

(** UTF-8 encoding of a code point of the basic plane. *)
Definition utf8 (n : N) : string :=
  if (n <? 128)%N then String (ascii_of_N n) EmptyString
  else if (n <? 2048)%N then
    String (ascii_of_N (N.lor 192 (N.shiftr n 6)))
      (String (ascii_of_N (N.lor 128 (N.land n 63))) EmptyString)
  else
    String (ascii_of_N (N.lor 224 (N.shiftr n 12)))
      (String (ascii_of_N (N.lor 128 (N.land (N.shiftr n 6) 63)))
        (String (ascii_of_N (N.lor 128 (N.land n 63))) EmptyString)).

(** The characters after the opening quote of a string literal, up to the
    closing quote: bytes are taken as they are and an escape [\uXXXX] gives
    the UTF-8 encoding of its code point.  (On the literals the encoder
    writes, which hold valid UTF-8 and no escape of a surrogate, this is
    what the decoder gives.) *)
Fixpoint scan_string (s : string) : option (string * string) :=
  match s with
  | EmptyString => None
  | String c s' =>
      if Ascii.eqb c quote then Some (EmptyString, s')
      else if Ascii.eqb c backslash then
        match s' with
        | String "u" (String h1 (String h2 (String h3 (String h4 s'')))) =>
            match hex_value h1, hex_value h2, hex_value h3, hex_value h4 with
            | Some a, Some b, Some c, Some d =>
                let n := (((a * 16 + b) * 16 + c) * 16 + d)%N in
                prod_map (String.append (utf8 n)) id <$> scan_string s''
            | _, _, _, _ => None
            end
        | String e s'' =>
            let plain (c : ascii) := prod_map (String c) id <$> scan_string s'' in
            if Ascii.eqb e quote then plain quote
            else if Ascii.eqb e backslash then plain backslash
            else if Ascii.eqb e "/" then plain "/"%char
            else if Ascii.eqb e "b" then plain (ascii_of_nat 8)
            else if Ascii.eqb e "f" then plain (ascii_of_nat 12)
            else if Ascii.eqb e "n" then plain newline
            else if Ascii.eqb e "r" then plain carriage_return
            else if Ascii.eqb e "t" then plain tab
            else None
        | EmptyString => None
        end
      else if (N_of_ascii c <? 32)%N then None
      else prod_map (String c) id <$> scan_string s'
  end.

Definition is_digit (c : ascii) : bool :=
  let n := N_of_ascii c in (48 <=? n)%N && (n <=? 57)%N.

Definition is_number_char (c : ascii) : bool :=
  is_digit c || Ascii.eqb c "-" || Ascii.eqb c "+" || Ascii.eqb c "."
  || Ascii.eqb c "e" || Ascii.eqb c "E".

Fixpoint scan_number (s : string) : string * string :=
  match s with
  | String c s' =>
      if is_number_char c then prod_map (String c) id (scan_number s')
      else (EmptyString, s)
  | EmptyString => (EmptyString, EmptyString)
  end.

Definition expect (word : string) (j : json) (s : string) : option (json * string) :=
  if String.prefix word s
  then Some (j, substring (String.length word) (String.length s - String.length word) s)
  else None.

Fixpoint scan_value (fuel : nat) (s : string) : option (json * string) :=
  match fuel with
  | O => None
  | S fuel =>
      match skip_space s with
      | EmptyString => None
      | String c s' =>
          if Ascii.eqb c "n" then expect "null" JNull (String c s')
          else if Ascii.eqb c "t" then expect "true" (JBool true) (String c s')
          else if Ascii.eqb c "f" then expect "false" (JBool false) (String c s')
          else if Ascii.eqb c quote then
            prod_map JString id <$> scan_string s'
          else if Ascii.eqb c "[" then
            match skip_space s' with
            | String "]" s'' => Some (JArray [], s'')
            | _ => scan_elements fuel s' []
            end
          else if Ascii.eqb c "{" then
            match skip_space s' with
            | String "}" s'' => Some (JObject [], s'')
            | _ => scan_members fuel s' []
            end
          else if is_digit c || Ascii.eqb c "-" then
            Some (prod_map JNumber id (scan_number (String c s')))
          else None
      end
  end
with scan_elements (fuel : nat) (s : string) (acc : list json)
    : option (json * string) :=
  match fuel with
  | O => None
  | S fuel =>
      match scan_value fuel s with
      | Some (v, s') =>
          match skip_space s' with
          | String "," s'' => scan_elements fuel s'' (v :: acc)
          | String "]" s'' => Some (JArray (rev (v :: acc)), s'')
          | _ => None
          end
      | None => None
      end
  end
with scan_members (fuel : nat) (s : string) (acc : list (string * json))
    : option (json * string) :=
  match fuel with
  | O => None
  | S fuel =>
      match skip_space s with
      | String c s' =>
          if Ascii.eqb c quote then
            match scan_string s' with
            | Some (k, s1) =>
                match skip_space s1 with
                | String ":" s2 =>
                    match scan_value fuel s2 with
                    | Some (v, s3) =>
                        match skip_space s3 with
                        | String "," s4 => scan_members fuel s4 ((k, v) :: acc)
                        | String "}" s4 => Some (JObject (rev ((k, v) :: acc)), s4)
                        | _ => None
                        end
                    | None => None
                    end
                | _ => None
                end
            | None => None
            end
          else None
      | EmptyString => None
      end
  end.

Definition parse (text : string) : result json :=
  match scan_value (2 * String.length text + 2) text with
  | Some (j, rest) =>
      match skip_space rest with
      | EmptyString => Ok j
      | _ => Err "invalid character after top-level value"
      end
  | None => Err "invalid JSON text"
  end.

(** [json.MarshalIndent(v, prefix, indent)] and [json.Unmarshal(data, v)]
    for a fresh [v]. *)
Definition MarshalIndent {A} `{Codec A} (v : A) (prefix indent : string)
    : result (list byte) :=
  result_map (fun j => list_byte_of_string (render prefix indent 0 j)) (toJSON v).

Definition Unmarshal {A} `{Codec A} (data : list byte) : result A :=
  result_bind (parse (string_of_list_byte data)) fromJSON.
End JSON.

(** *** Text that survives encoding and decoding *)

Module Text.
Import JSON.

(** [utf8.ValidString]. *)
Fixpoint utf8_valid (s : string) : bool :=
  match s with
  | EmptyString => true
  | String c1 s1 =>
      if (N_of_ascii c1 <? 128)%N then utf8_valid s1
      else
        match s1 with
        | EmptyString => false
        | String c2 s2 =>
            second_ok c1 c2 &&
            match rune_size c1 with
            | 2%nat => utf8_valid s2
            | _ =>
                match s2 with
                | EmptyString => false
                | String c3 s3 =>
                    is_continuation c3 &&
                    match rune_size c1 with
                    | 3%nat => utf8_valid s3
                    | _ =>
                        match s3 with
                        | EmptyString => false
                        | String c4 s4 => is_continuation c4 && utf8_valid s4
                        end
                    end
                end
            end
        end
  end.

Fixpoint all_chars (p : ascii -> bool) (s : string) : bool :=
  match s with
  | EmptyString => true
  | String c s' => p c && all_chars p s'
  end.

(** A literal the scanner reads back as one number. *)
Definition number_literal (lit : string) : bool :=
  match lit with
  | EmptyString => false
  | String c _ => (is_digit c || Ascii.eqb c "-") && all_chars is_number_char lit
  end.

(** Every string of the document, member names included, is valid UTF-8. *)
Fixpoint strings_valid (j : json) : bool :=
  match j with
  | JString s => utf8_valid s
  | JArray l => forallb strings_valid l
  | JObject kvs => forallb (fun kv => utf8_valid (fst kv) && strings_valid (snd kv)) kvs
  | _ => true
  end.

(** Every number of the document is a number literal. *)
Fixpoint numbers_valid (j : json) : bool :=
  match j with
  | JNumber lit => number_literal lit
  | JArray l => forallb numbers_valid l
  | JObject kvs => forallb (fun kv => numbers_valid (snd kv)) kvs
  | _ => true
  end.

(** The fuel the scanner needs for a document. *)
Fixpoint weight (j : json) : nat :=
  match j with
  | JArray l => S (list_sum (map (fun e => S (weight e)) l))
  | JObject kvs => S (list_sum (map (fun kv => S (weight (snd kv))) kvs))
  | _ => 1
  end.

(** Where a value may end: at the end of the text or before a character
    that cannot continue a number. *)
Definition ends_value (rest : string) : bool :=
  match rest with
  | EmptyString => true
  | String c _ => negb (is_number_char c)
  end.

(** Induction on a document, with the property at hand for the elements of
    an array and the values of an object. *)
Section induction.
Variable P : json -> Prop.
Hypothesis Hnull : P JNull.
Hypothesis Hbool : forall b, P (JBool b).
Hypothesis Hnumber : forall lit, P (JNumber lit).
Hypothesis Hstring : forall s, P (JString s).
Hypothesis Harray : forall l, Forall P l -> P (JArray l).
Hypothesis Hobject : forall kvs, Forall (fun kv => P (snd kv)) kvs -> P (JObject kvs).

Fixpoint json_induction (j : json) : P j :=
  match j with
  | JNull => Hnull
  | JBool b => Hbool b
  | JNumber lit => Hnumber lit
  | JString s => Hstring s
  | JArray l =>
      Harray l
        ((fix elements (l : list json) : Forall P l :=
            match l with
            | [] => @List.Forall_nil _ P
            | e :: l' => @List.Forall_cons _ P e l' (json_induction e) (elements l')
            end) l)
  | JObject kvs =>
      Hobject kvs
        ((fix members (kvs : list (string * json))
            : Forall (fun kv => P (snd kv)) kvs :=
            match kvs with
            | [] => @List.Forall_nil _ _
            | kv :: kvs' =>
                @List.Forall_cons _ (fun kv => P (snd kv)) kv kvs'
                  (json_induction (snd kv)) (members kvs')
            end) kvs)
  end.
End induction.
(** The characters a value starts with. *)
Definition value_start (c : ascii) : bool :=
  Ascii.eqb c "n" || Ascii.eqb c "t" || Ascii.eqb c "f" || Ascii.eqb c quote
  || Ascii.eqb c "[" || Ascii.eqb c "{" || is_digit c || Ascii.eqb c "-".

(** What it is for a document to be read back from its rendering at any
    depth, whatever follows it. *)
Definition scans (j : json) : Prop :=
  forall depth fuel rest,
    strings_valid j = true -> numbers_valid j = true ->
    (weight j <= fuel)%nat -> ends_value rest = true ->
    scan_value fuel (render "" "  " depth j +:+ rest) = Some (j, rest).
End Text.

(** ** The operating system and the allocator, as the persistence code sees
    them *)

Module OS.
Record File : Type := { file_data : list byte; file_mode : Z }.

(** Calls that reach the file system, in the order they are made. *)
Inductive Event : Type :=
| EvReadFile (path : string)
| EvWriteFileAtomic (path : string) (data : list byte) (perm : Z).

(** An address of a [Client] object on the heap. *)
Definition addr : Type := positive.

Record World : Type := {
  files : gmap string File;
  (** paths at which an atomic write fails, with the error it fails with *)
  write_fault : gmap string string;
  trace : list Event;
  next_client : addr
}.

(** Code that runs against the world and returns or panics. *)
Definition M (A : Type) : Type := World -> outcome A * World.

Definition ret {A} (a : A) : M A := fun w => (Done a, w).

Definition bind {A B} (m : M A) (k : A -> M B) : M B :=
  fun w =>
    match m w with
    | (Done a, w') => k a w'
    | (Panic msg, w') => (Panic msg, w')
    end.

Definition lift {A} (o : outcome A) : M A := fun w => (o, w).

Definition log (e : Event) (w : World) : World :=
  {| files := files w; write_fault := write_fault w;
     trace := trace w ++ [e]; next_client := next_client w |}.

(** [ioutil.ReadFile]. *)
Definition ReadFile (path : string) : M (result (list byte)) :=
  fun w =>
    (Done match files w !! path with
          | Some f => Ok (file_data f)
          | None => Err ("open " +:+ path +:+ ": no such file or directory")
          end,
     log (EvReadFile path) w).

(** Modelled from the spec: [ioutil2.WriteFileAtomic] (package
    vuvuzela.io/internal/ioutil2, not under src) writes the data to a
    temporary file and renames it over [path] with mode [perm]; either the
    whole file is replaced or, on failure, nothing at [path] changes. *)
Definition WriteFileAtomic (path : string) (data : list byte) (perm : Z) : M error :=
  fun w =>
    let w := log (EvWriteFileAtomic path data perm) w in
    match write_fault w !! path with
    | Some e => (Done (Some e), w)
    | None =>
        (Done None,
         {| files := <[path := {| file_data := data; file_mode := perm |}]> (files w);
            write_fault := write_fault w;
            trace := trace w; next_client := next_client w |})
    end.

(** Allocation of a new [Client] object. *)
Definition alloc : M addr :=
  fun w =>
    (Done (next_client w),
     {| files := files w; write_fault := write_fault w;
        trace := trace w; next_client := Pos.succ (next_client w) |}).
End OS.

Declare Scope go_scope.
Delimit Scope go_scope with go.
Notation "x <- m ;; k" := (OS.bind m (fun x => k))
  (at level 100, m at next level, right associativity) : go_scope.
Notation "x <-! o ;; k" := (outcome_bind o (fun x => k))
  (at level 100, o at next level, right associativity) : go_scope.

(** ** Types of the repository declared outside persist.go *)

(** The persistence code uses these types and methods of the repository
    without declaring them; they are taken as parameters.

    - [SignedConfig] is [config.SignedConfig], with its JSON encoding and its
      method [Hash], which is called on a pointer that may be nil.
    - [IncomingFields], [OutgoingFields] and [SentFields] are the exported
      fields of [IncomingFriendRequest], [OutgoingFriendRequest] and
      [sentFriendRequest], with their JSON encoding.
    - [Wheel] is [keywheel.Wheel] with [MarshalBinary] and
      [UnmarshalBinary]; [Wheel_zero] is its zero value.
    - [Runtime] stands for the fields of [Client] that persist.go never
      reads or writes (Handler, CoordinatorAddress, CoordinatorKey, the
      mutex, the connections); [Runtime_zero] is their zero value. *)
Class Types : Type := {
  SignedConfig : Type;
  IncomingFields : Type;
  OutgoingFields : Type;
  SentFields : Type;
  Wheel : Type;
  Runtime : Type
}.

Class Externals `{Types} : Type := {
  SignedConfig_Codec :: JSON.Codec SignedConfig;
  SignedConfig_Hash : ptr SignedConfig -> outcome string;
  IncomingFields_Codec :: JSON.Codec IncomingFields;
  OutgoingFields_Codec :: JSON.Codec OutgoingFields;
  SentFields_Codec :: JSON.Codec SentFields;
  Wheel_zero : Wheel;
  Wheel_MarshalBinary : Wheel -> result (list byte);
  Wheel_UnmarshalBinary : Wheel -> list byte -> result Wheel;
  Runtime_zero : Runtime
}.

(** A request record: its exported fields and the unexported back-reference
    [client *Client]. *)
Module Request.
Record t (F : Type) : Type := { fields : F; client : ptr OS.addr }.
Arguments fields {F} _.
Arguments client {F} _.
End Request.

Definition IncomingFriendRequest `{Types} : Type := Request.t IncomingFields.
Definition OutgoingFriendRequest `{Types} : Type := Request.t OutgoingFields.
Definition sentFriendRequest `{Types} : Type := Request.t SentFields.

Module Friend.
Record t : Type := {
  Username : string;
  LongTermKey : slice byte;
  extraData : slice byte;
  client : ptr OS.addr
}.
End Friend.

Module Client.
Record t `{Types} : Type := {
  Username : string;
  LongTermPublicKey : slice byte;
  LongTermPrivateKey : slice byte;
  PKGLoginKey : slice byte;
  ClientPersistPath : string;
  KeywheelPersistPath : string;
  addFriendConfig : ptr SignedConfig;
  addFriendConfigHash : string;
  dialingConfig : ptr SignedConfig;
  dialingConfigHash : string;
  incomingFriendRequests : slice (ptr IncomingFriendRequest);
  outgoingFriendRequests : slice (ptr OutgoingFriendRequest);
  sentFriendRequests : slice (ptr sentFriendRequest);
  friends : gmap string (ptr Friend.t);
  wheel : Wheel;
  runtime : Runtime
}.
End Client.

(** ** persist.go: the persisted representation *)

Module persistedFriend.
Record t : Type := {
  Username : string;
  LongTermKey : slice byte;
  ExtraData : slice byte
}.
End persistedFriend.

Module persistedState.
Record t `{Types} : Type := {
  Username : string;
  LongTermPublicKey : slice byte;
  LongTermPrivateKey : slice byte;
  PKGLoginKey : slice byte;
  AddFriendConfig : ptr SignedConfig;
  DialingConfig : ptr SignedConfig;
  IncomingFriendRequests : slice (ptr IncomingFriendRequest);
  OutgoingFriendRequests : slice (ptr OutgoingFriendRequest);
  SentFriendRequests : slice (ptr sentFriendRequest);
  Friends : gmap string (ptr persistedFriend.t)
}.
End persistedState.

(** *** How encoding/json maps the Go types of the client blob *)

Module Encoding.
Import JSON.

Definition type_error {A} (go_type : string) : result A :=
  Err ("json: cannot unmarshal into Go value of type " +:+ go_type).

(** [string]: a JSON string; null leaves the zero value. *)
Definition string_toJSON (s : string) : result json := Ok (JString s).

Definition string_fromJSON (j : json) : result string :=
  match j with
  | JNull => Ok EmptyString
  | JString s => Ok s
  | _ => type_error "string"
  end.

(** [[]byte] (also [ed25519.PublicKey] and [ed25519.PrivateKey]): a
    base64-encoded string, null for a nil slice. *)
Definition bytes_json (b : slice byte) : json :=
  match b with
  | None => JNull
  | Some l => JString (Base64.encode l)
  end.

Definition bytes_toJSON (b : slice byte) : result json := Ok (bytes_json b).

Definition bytes_fromJSON (j : json) : result (slice byte) :=
  match j with
  | JNull => Ok None
  | JString s => result_map Some (Base64.decode s)
  | _ => type_error "[]uint8"
  end.

(** [*T]: null for nil, otherwise the pointee. *)
Definition ptr_toJSON {A} (f : A -> result json) (p : ptr A) : result json :=
  match p with
  | None => Ok JNull
  | Some a => f a
  end.

Definition ptr_fromJSON {A} (f : json -> result A) (j : json) : result (ptr A) :=
  match j with
  | JNull => Ok None
  | _ => result_map Some (f j)
  end.

(** [[]T]: null for a nil slice, otherwise an array. *)
Definition slice_toJSON {A} (f : A -> result json) (s : slice A) : result json :=
  match s with
  | None => Ok JNull
  | Some l => result_map JArray (result_mapM f l)
  end.

Definition slice_fromJSON {A} (f : json -> result A) (j : json) : result (slice A) :=
  match j with
  | JNull => Ok None
  | JArray l => result_map Some (result_mapM f l)
  | _ => type_error "slice"
  end.

(** [map[string]T]: an object whose keys are sorted. *)
Definition key_le {A} (x y : string * A) : Prop := String.leb (fst x) (fst y) = true.

#[export] Instance key_le_dec {A} (x y : string * A) : Decision (key_le x y).
Proof. unfold key_le. apply _. Defined.

Definition sorted_entries {A} (m : gmap string A) : list (string * A) :=
  merge_sort key_le (map_to_list m).

Definition map_toJSON {A} (f : A -> result json) (m : gmap string A) : result json :=
  result_map JObject
    (result_mapM (fun kv => result_map (pair (fst kv)) (f (snd kv))) (sorted_entries m)).

Definition map_fromJSON {A} (f : json -> result A) (j : json) : result (gmap string A) :=
  match j with
  | JNull => Ok ∅
  | JObject kvs =>
      fold_left
        (fun acc kv =>
           result_bind acc (fun m =>
           result_map (fun v => <[fst kv := v]> m) (f (snd kv))))
        kvs (Ok ∅)
  | _ => type_error "map"
  end.

(** How the decoder matches the key of a member with the name of a struct
    field: byte for byte, or ignoring the case of letters; where the name
    has an [s] or a [k], the key may have U+017F (long s, C5 BF) or U+212A
    (the Kelvin sign, E2 84 AA) in its place. *)
Definition upper (c : ascii) : N :=
  let n := N_of_ascii c in
  if (97 <=? n)%N && (n <=? 122)%N then (n - 32)%N else n.

Definition is_letter (c : ascii) : bool :=
  let n := upper c in (65 <=? n)%N && (n <=? 90)%N.

Fixpoint equal_fold (name key : string) : bool :=
  match name, key with
  | EmptyString, EmptyString => true
  | String n name', String k key' =>
      if (N_of_ascii k <? 128)%N then
        (Ascii.eqb n k || (is_letter n && (upper n =? upper k)%N))
        && equal_fold name' key'
      else if (upper n =? 83)%N then
        match key' with
        | String k2 key'' =>
            (N_of_ascii k =? 197)%N && (N_of_ascii k2 =? 191)%N
            && equal_fold name' key''
        | EmptyString => false
        end
      else if (upper n =? 75)%N then
        match key' with
        | String k2 (String k3 key'') =>
            (N_of_ascii k =? 226)%N && (N_of_ascii k2 =? 132)%N
            && (N_of_ascii k3 =? 170)%N && equal_fold name' key''
        | _ => false
        end
      else false
  | _, _ => false
  end.

(** The value of the struct field [name] in an object: that of the member
    whose key matches the name, null when there is none, and the last when
    there are several (the decoder stores them one after the other; an
    object the encoder wrote has every name once).  No two fields of the
    structs decoded here have names that match one key. *)
Definition field (kvs : list (string * json)) (name : string) : json :=
  fold_left (fun found kv => if equal_fold name (fst kv) then snd kv else found)
    kvs JNull.

(** A request is encoded through its exported fields; the unexported
    [client] is not part of the encoding and is nil after decoding. *)
Definition Request_toJSON {F} `{Codec F} (r : Request.t F) : result json :=
  toJSON (Request.fields r).

Definition Request_fromJSON {F} `{Codec F} (j : json) : result (Request.t F) :=
  result_map (fun f => {| Request.fields := f; Request.client := None |}) (fromJSON j).

Definition persistedFriend_toJSON (f : persistedFriend.t) : result json :=
  result_bind (string_toJSON (persistedFriend.Username f)) (fun username =>
  result_bind (bytes_toJSON (persistedFriend.LongTermKey f)) (fun longTermKey =>
  result_bind (bytes_toJSON (persistedFriend.ExtraData f)) (fun extraData =>
  Ok (JObject [("Username", username); ("LongTermKey", longTermKey);
               ("ExtraData", extraData)])))).

Definition persistedFriend_fromJSON (j : json) : result persistedFriend.t :=
  match j with
  | JObject kvs =>
      result_bind (string_fromJSON (field kvs "Username")) (fun username =>
      result_bind (bytes_fromJSON (field kvs "LongTermKey")) (fun longTermKey =>
      result_bind (bytes_fromJSON (field kvs "ExtraData")) (fun extraData =>
      Ok {| persistedFriend.Username := username;
            persistedFriend.LongTermKey := longTermKey;
            persistedFriend.ExtraData := extraData |})))
  | _ => type_error "alpenhorn.persistedFriend"
  end.

#[export] Instance persistedFriend_Codec : Codec persistedFriend.t :=
  {| toJSON := persistedFriend_toJSON; fromJSON := persistedFriend_fromJSON |}.

Section persistedState.
Context `{Externals}.

Definition persistedState_zero : persistedState.t :=
  {| persistedState.Username := EmptyString;
     persistedState.LongTermPublicKey := None;
     persistedState.LongTermPrivateKey := None;
     persistedState.PKGLoginKey := None;
     persistedState.AddFriendConfig := None;
     persistedState.DialingConfig := None;
     persistedState.IncomingFriendRequests := None;
     persistedState.OutgoingFriendRequests := None;
     persistedState.SentFriendRequests := None;
     persistedState.Friends := ∅ |}.

Definition persistedState_toJSON (st : persistedState.t) : result json :=
  result_bind (string_toJSON (persistedState.Username st)) (fun username =>
  result_bind (bytes_toJSON (persistedState.LongTermPublicKey st)) (fun longTermPublicKey =>
  result_bind (bytes_toJSON (persistedState.LongTermPrivateKey st)) (fun longTermPrivateKey =>
  result_bind (bytes_toJSON (persistedState.PKGLoginKey st)) (fun pkgLoginKey =>
  result_bind (ptr_toJSON toJSON (persistedState.AddFriendConfig st)) (fun addFriendConfig =>
  result_bind (ptr_toJSON toJSON (persistedState.DialingConfig st)) (fun dialingConfig =>
  result_bind (slice_toJSON (ptr_toJSON Request_toJSON)
                 (persistedState.IncomingFriendRequests st)) (fun incoming =>
  result_bind (slice_toJSON (ptr_toJSON Request_toJSON)
                 (persistedState.OutgoingFriendRequests st)) (fun outgoing =>
  result_bind (slice_toJSON (ptr_toJSON Request_toJSON)
                 (persistedState.SentFriendRequests st)) (fun sent =>
  result_bind (map_toJSON (ptr_toJSON persistedFriend_toJSON)
                 (persistedState.Friends st)) (fun friends =>
  Ok (JObject [("Username", username);
               ("LongTermPublicKey", longTermPublicKey);
               ("LongTermPrivateKey", longTermPrivateKey);
               ("PKGLoginKey", pkgLoginKey);
               ("AddFriendConfig", addFriendConfig);
               ("DialingConfig", dialingConfig);
               ("IncomingFriendRequests", incoming);
               ("OutgoingFriendRequests", outgoing);
               ("SentFriendRequests", sent);
               ("Friends", friends)]))))))))))).

Definition persistedState_fromJSON (j : json) : result persistedState.t :=
  match j with
  | JNull => Ok persistedState_zero
  | JObject kvs =>
      result_bind (string_fromJSON (field kvs "Username")) (fun username =>
      result_bind (bytes_fromJSON (field kvs "LongTermPublicKey")) (fun longTermPublicKey =>
      result_bind (bytes_fromJSON (field kvs "LongTermPrivateKey")) (fun longTermPrivateKey =>
      result_bind (bytes_fromJSON (field kvs "PKGLoginKey")) (fun pkgLoginKey =>
      result_bind (ptr_fromJSON fromJSON (field kvs "AddFriendConfig")) (fun addFriendConfig =>
      result_bind (ptr_fromJSON fromJSON (field kvs "DialingConfig")) (fun dialingConfig =>
      result_bind (slice_fromJSON (ptr_fromJSON Request_fromJSON)
                     (field kvs "IncomingFriendRequests")) (fun incoming =>
      result_bind (slice_fromJSON (ptr_fromJSON Request_fromJSON)
                     (field kvs "OutgoingFriendRequests")) (fun outgoing =>
      result_bind (slice_fromJSON (ptr_fromJSON Request_fromJSON)
                     (field kvs "SentFriendRequests")) (fun sent =>
      result_bind (map_fromJSON (ptr_fromJSON persistedFriend_fromJSON)
                     (field kvs "Friends")) (fun friends =>
      Ok {| persistedState.Username := username;
            persistedState.LongTermPublicKey := longTermPublicKey;
            persistedState.LongTermPrivateKey := longTermPrivateKey;
            persistedState.PKGLoginKey := pkgLoginKey;
            persistedState.AddFriendConfig := addFriendConfig;
            persistedState.DialingConfig := dialingConfig;
            persistedState.IncomingFriendRequests := incoming;
            persistedState.OutgoingFriendRequests := outgoing;
            persistedState.SentFriendRequests := sent;
            persistedState.Friends := friends |}))))))))))
  | _ => type_error "alpenhorn.persistedState"
  end.

#[export] Instance persistedState_Codec : Codec persistedState.t :=
  {| toJSON := persistedState_toJSON; fromJSON := persistedState_fromJSON |}.
End persistedState.
End Encoding.
Import Encoding.

(** ** persist.go: loading and persisting *)

Module Persist.
Import OS.
Local Open Scope go_scope.

Fixpoint outcome_mapM {A B} (f : A -> outcome B) (l : list A) : outcome (list B) :=
  match l with
  | [] => Done []
  | x :: l' => y <-! f x ;; ys <-! outcome_mapM f l' ;; Done (y :: ys)
  end.

(** File mode 0600, written in octal in the source. *)
Definition octal (d2 d1 d0 : Z) : Z := (d2 * 8 + d1) * 8 + d0.

Section persist.
Context `{Externals}.

(** The composite literal [&Client{ClientPersistPath: ..., KeywheelPersistPath: ...}]:
    every other field has its zero value. *)
Definition new_Client (clientPersistPath keywheelPersistPath : string) : Client.t :=
  {| Client.Username := EmptyString;
     Client.LongTermPublicKey := None;
     Client.LongTermPrivateKey := None;
     Client.PKGLoginKey := None;
     Client.ClientPersistPath := clientPersistPath;
     Client.KeywheelPersistPath := keywheelPersistPath;
     Client.addFriendConfig := None;
     Client.addFriendConfigHash := EmptyString;
     Client.dialingConfig := None;
     Client.dialingConfigHash := EmptyString;
     Client.incomingFriendRequests := None;
     Client.outgoingFriendRequests := None;
     Client.sentFriendRequests := None;
     Client.friends := ∅;
     Client.wheel := Wheel_zero;
     Client.runtime := Runtime_zero |}.

(** The assignment [c.wheel = w] made by [c.wheel.UnmarshalBinary]. *)
Definition with_wheel (c : Client.t) (w : Wheel) : Client.t :=
  {| Client.Username := Client.Username c;
     Client.LongTermPublicKey := Client.LongTermPublicKey c;
     Client.LongTermPrivateKey := Client.LongTermPrivateKey c;
     Client.PKGLoginKey := Client.PKGLoginKey c;
     Client.ClientPersistPath := Client.ClientPersistPath c;
     Client.KeywheelPersistPath := Client.KeywheelPersistPath c;
     Client.addFriendConfig := Client.addFriendConfig c;
     Client.addFriendConfigHash := Client.addFriendConfigHash c;
     Client.dialingConfig := Client.dialingConfig c;
     Client.dialingConfigHash := Client.dialingConfigHash c;
     Client.incomingFriendRequests := Client.incomingFriendRequests c;
     Client.outgoingFriendRequests := Client.outgoingFriendRequests c;
     Client.sentFriendRequests := Client.sentFriendRequests c;
     Client.friends := Client.friends c;
     Client.wheel := w;
     Client.runtime := Client.runtime c |}.

(** [for _, req := range reqs { req.client = c }]: a nil element is
    dereferenced by the assignment. *)
Definition range_set_client {F} (c : addr) (reqs : slice (ptr (Request.t F)))
    : outcome (slice (ptr (Request.t F))) :=
  match reqs with
  | None => Done None
  | Some l =>
      l' <-! outcome_mapM
               (fun req : ptr (Request.t F) =>
                  match req with
                  | None => Panic "nil pointer dereference"
                  | Some r =>
                      Done (Some {| Request.fields := Request.fields r;
                                    Request.client := Some c |})
                  end) l ;;
      Done (Some l')
  end.

(** [for username, friend := range st.Friends { c.friends[username] = &Friend{...} }] *)
Definition range_load_friends (c : addr) (friends : gmap string (ptr persistedFriend.t))
    : outcome (gmap string (ptr Friend.t)) :=
  map_fold
    (fun username (friend : ptr persistedFriend.t) acc =>
       c_friends <-! acc ;;
       match friend with
       | None => Panic "nil pointer dereference"
       | Some friend =>
           Done (<[username :=
                     Some {| Friend.Username := persistedFriend.Username friend;
                             Friend.LongTermKey := persistedFriend.LongTermKey friend;
                             Friend.extraData := persistedFriend.ExtraData friend;
                             Friend.client := Some c |}]> c_friends)
       end)
    (Done ∅) friends.

(** [func (c *Client) loadStateLocked(st *persistedState)]; [c] is the
    address of the receiver, whose fields are passed and returned by
    value. *)
Definition loadStateLocked (c : addr) (this : Client.t) (st : persistedState.t)
    : outcome Client.t :=
  addFriendConfigHash <-! SignedConfig_Hash (persistedState.AddFriendConfig st) ;;
  dialingConfigHash <-! SignedConfig_Hash (persistedState.DialingConfig st) ;;
  incomingFriendRequests <-!
    range_set_client c (persistedState.IncomingFriendRequests st) ;;
  outgoingFriendRequests <-!
    range_set_client c (persistedState.OutgoingFriendRequests st) ;;
  sentFriendRequests <-!
    range_set_client c (persistedState.SentFriendRequests st) ;;
  friends <-! range_load_friends c (persistedState.Friends st) ;;
  Done {| Client.Username := persistedState.Username st;
          Client.LongTermPublicKey := persistedState.LongTermPublicKey st;
          Client.LongTermPrivateKey := persistedState.LongTermPrivateKey st;
          Client.PKGLoginKey := persistedState.PKGLoginKey st;
          Client.ClientPersistPath := Client.ClientPersistPath this;
          Client.KeywheelPersistPath := Client.KeywheelPersistPath this;
          Client.addFriendConfig := persistedState.AddFriendConfig st;
          Client.addFriendConfigHash := addFriendConfigHash;
          Client.dialingConfig := persistedState.DialingConfig st;
          Client.dialingConfigHash := dialingConfigHash;
          Client.incomingFriendRequests := incomingFriendRequests;
          Client.outgoingFriendRequests := outgoingFriendRequests;
          Client.sentFriendRequests := sentFriendRequests;
          Client.friends := friends;
          Client.wheel := Client.wheel this;
          Client.runtime := Client.runtime this |}.

(** [func LoadClient(clientPersistPath, keywheelPersistPath string)], which
    returns a pointer to a [Client] and an [error]; a returned client is
    given with its address. *)
Definition LoadClient (clientPersistPath keywheelPersistPath : string)
    : M (ptr (addr * Client.t) * error) :=
  r <- ReadFile clientPersistPath ;;
  match r with
  | Err err => ret (None, Some err)
  | Ok clientData =>
      match JSON.Unmarshal clientData with
      | Err err => ret (None, Some err)
      | Ok st =>
          r <- ReadFile keywheelPersistPath ;;
          match r with
          | Err err => ret (None, Some err)
          | Ok keywheelData =>
              c <- alloc ;;
              let this := new_Client clientPersistPath keywheelPersistPath in
              match Wheel_UnmarshalBinary (Client.wheel this) keywheelData with
              | Err err => ret (None, Some err)
              | Ok wheel =>
                  this <- lift (loadStateLocked c (with_wheel this wheel) st) ;;
                  ret (Some (c, this), None)
              end
          end
      end
  end.

(** [for username, friend := range c.friends { st.Friends[username] = &persistedFriend{...} }] *)
Definition range_persist_friends (friends : gmap string (ptr Friend.t))
    : outcome (gmap string (ptr persistedFriend.t)) :=
  map_fold
    (fun username (friend : ptr Friend.t) acc =>
       st_Friends <-! acc ;;
       match friend with
       | None => Panic "nil pointer dereference"
       | Some friend =>
           Done (<[username :=
                     Some {| persistedFriend.Username := Friend.Username friend;
                             persistedFriend.LongTermKey := Friend.LongTermKey friend;
                             persistedFriend.ExtraData := Friend.extraData friend |}]>
                   st_Friends)
       end)
    (Done ∅) friends.

(** [func (c *Client) persistClientLocked() error] *)
Definition persistClientLocked (c : Client.t) : M error :=
  if decide (Client.ClientPersistPath c = EmptyString) then ret None
  else
    friends <- lift (range_persist_friends (Client.friends c)) ;;
    let st :=
      {| persistedState.Username := Client.Username c;
         persistedState.LongTermPublicKey := Client.LongTermPublicKey c;
         persistedState.LongTermPrivateKey := Client.LongTermPrivateKey c;
         persistedState.PKGLoginKey := Client.PKGLoginKey c;
         persistedState.AddFriendConfig := Client.addFriendConfig c;
         persistedState.DialingConfig := Client.dialingConfig c;
         persistedState.IncomingFriendRequests := Client.incomingFriendRequests c;
         persistedState.OutgoingFriendRequests := Client.outgoingFriendRequests c;
         persistedState.SentFriendRequests := Client.sentFriendRequests c;
         persistedState.Friends := friends |} in
    match JSON.MarshalIndent st "" "  " with
    | Err err => ret (Some err)
    | Ok data => WriteFileAtomic (Client.ClientPersistPath c) data (octal 6 0 0)
    end.

(** [func (c *Client) persistKeywheelLocked() error] *)
Definition persistKeywheelLocked (c : Client.t) : M error :=
  if decide (Client.KeywheelPersistPath c = EmptyString) then ret None
  else
    match Wheel_MarshalBinary (Client.wheel c) with
    | Err err => ret (Some err)
    | Ok data => WriteFileAtomic (Client.KeywheelPersistPath c) data (octal 6 0 0)
    end.

(** [func (c *Client) persistLocked() error] *)
Definition persistLocked (c : Client.t) : M error :=
  err <- persistClientLocked c ;;
  e <- persistKeywheelLocked c ;;
  ret (match err with
       | None => e
       | Some _ => err
       end).

(** [Persist], [persistClient] and [persistKeywheel] take the client's mutex
    around the locked versions; in a run of one goroutine they are the
    locked versions. *)
Definition Persist (c : Client.t) : M error := persistLocked c.
Definition persistClient (c : Client.t) : M error := persistClientLocked c.
Definition persistKeywheel (c : Client.t) : M error := persistKeywheelLocked c.
End persist.
End Persist.

(** ** Notions used by the properties *)

Module Props.
Import OS Persist.

Section notions.
Context `{Externals}.

(** No element of a slice of pointers, no value of a map of pointers, is
    nil. *)
Definition no_nil {A} (s : slice (ptr A)) : Prop := Forall is_Some (elems s).

Definition no_nil_value {A} (m : gmap string (ptr A)) : Prop :=
  map_Forall (fun _ v => is_Some v) m.

(** A decoded state on which [loadStateLocked] has nothing nil to
    dereference and on whose configs [Hash] returns. *)
Definition loadable (st : persistedState.t) : Prop :=
  returns (SignedConfig_Hash (persistedState.AddFriendConfig st)) /\
  returns (SignedConfig_Hash (persistedState.DialingConfig st)) /\
  no_nil (persistedState.IncomingFriendRequests st) /\
  no_nil (persistedState.OutgoingFriendRequests st) /\
  no_nil (persistedState.SentFriendRequests st) /\
  no_nil_value (persistedState.Friends st).

Definition refers_to {F} (c : addr) (req : ptr (Request.t F)) : Prop :=
  exists r, req = Some r /\ Request.client r = Some c.

Definition friend_refers_to (c : addr) (friend : ptr Friend.t) : Prop :=
  exists f, friend = Some f /\ Friend.client f = Some c.

(** Every request and every friend held by the client at address [c] points
    back to [c]. *)
Definition back_references (c : addr) (this : Client.t) : Prop :=
  Forall (refers_to c) (elems (Client.incomingFriendRequests this)) /\
  Forall (refers_to c) (elems (Client.outgoingFriendRequests this)) /\
  Forall (refers_to c) (elems (Client.sentFriendRequests this)) /\
  map_Forall (fun _ friend => friend_refers_to c friend) (Client.friends this).

(** The invariant of a client in use, as far as persistence depends on it:
    the cached hashes are the hashes of the stored configs, and the
    back-references are in place (so no request or friend pointer is
    nil). *)
Definition reachable (c : addr) (this : Client.t) : Prop :=
  SignedConfig_Hash (Client.addFriendConfig this)
    = Done (Client.addFriendConfigHash this) /\
  SignedConfig_Hash (Client.dialingConfig this)
    = Done (Client.dialingConfigHash this) /\
  back_references c this.

(** What a request list and a friend hold apart from the back-reference. *)
Definition request_fields {F} (reqs : slice (ptr (Request.t F))) : slice (ptr F) :=
  fmap (M := list) (fmap (M := option) Request.fields) <$> reqs.

Definition friend_fields (f : Friend.t) : string * slice byte * slice byte :=
  (Friend.Username f, Friend.LongTermKey f, Friend.extraData f).

(** Equality of two clients up to the fields that live in memory only (the
    back-references, the handler and connection state, the persist
    paths). *)
Definition same_persisted (a b : Client.t) : Prop :=
  Client.Username a = Client.Username b /\
  Client.LongTermPublicKey a = Client.LongTermPublicKey b /\
  Client.LongTermPrivateKey a = Client.LongTermPrivateKey b /\
  Client.PKGLoginKey a = Client.PKGLoginKey b /\
  Client.addFriendConfig a = Client.addFriendConfig b /\
  Client.addFriendConfigHash a = Client.addFriendConfigHash b /\
  Client.dialingConfig a = Client.dialingConfig b /\
  Client.dialingConfigHash a = Client.dialingConfigHash b /\
  request_fields (Client.incomingFriendRequests a)
    = request_fields (Client.incomingFriendRequests b) /\
  request_fields (Client.outgoingFriendRequests a)
    = request_fields (Client.outgoingFriendRequests b) /\
  request_fields (Client.sentFriendRequests a)
    = request_fields (Client.sentFriendRequests b) /\
  (fmap (M := option) friend_fields <$> Client.friends a)
    = (fmap (M := option) friend_fields <$> Client.friends b).

(** The state [persistClientLocked] marshals, when no friend pointer is
    nil. *)
Definition persisted_friend (f : Friend.t) : persistedFriend.t :=
  {| persistedFriend.Username := Friend.Username f;
     persistedFriend.LongTermKey := Friend.LongTermKey f;
     persistedFriend.ExtraData := Friend.extraData f |}.

Definition persisted (c : Client.t) : persistedState.t :=
  {| persistedState.Username := Client.Username c;
     persistedState.LongTermPublicKey := Client.LongTermPublicKey c;
     persistedState.LongTermPrivateKey := Client.LongTermPrivateKey c;
     persistedState.PKGLoginKey := Client.PKGLoginKey c;
     persistedState.AddFriendConfig := Client.addFriendConfig c;
     persistedState.DialingConfig := Client.dialingConfig c;
     persistedState.IncomingFriendRequests := Client.incomingFriendRequests c;
     persistedState.OutgoingFriendRequests := Client.outgoingFriendRequests c;
     persistedState.SentFriendRequests := Client.sentFriendRequests c;
     persistedState.Friends := fmap (M := option) persisted_friend <$> Client.friends c |}.

(** The friend [loadStateLocked] builds from a persisted friend. *)
Definition loaded_friend (c : addr) (f : persistedFriend.t) : Friend.t :=
  {| Friend.Username := persistedFriend.Username f;
     Friend.LongTermKey := persistedFriend.LongTermKey f;
     Friend.extraData := persistedFriend.ExtraData f;
     Friend.client := Some c |}.

(** The same client with every back-reference replaced by [back]. *)
Definition with_back_reference {F} (back : ptr addr) (r : Request.t F) : Request.t F :=
  {| Request.fields := Request.fields r; Request.client := back |}.

Definition friend_with_back_reference (back : ptr addr) (f : Friend.t) : Friend.t :=
  {| Friend.Username := Friend.Username f;
     Friend.LongTermKey := Friend.LongTermKey f;
     Friend.extraData := Friend.extraData f;
     Friend.client := back |}.

Definition redirect {F} (back : ptr addr) (reqs : slice (ptr (Request.t F)))
    : slice (ptr (Request.t F)) :=
  fmap (M := list) (fmap (M := option) (with_back_reference back)) <$> reqs.

Definition with_back_references (back : ptr addr) (c : Client.t) : Client.t :=
  {| Client.Username := Client.Username c;
     Client.LongTermPublicKey := Client.LongTermPublicKey c;
     Client.LongTermPrivateKey := Client.LongTermPrivateKey c;
     Client.PKGLoginKey := Client.PKGLoginKey c;
     Client.ClientPersistPath := Client.ClientPersistPath c;
     Client.KeywheelPersistPath := Client.KeywheelPersistPath c;
     Client.addFriendConfig := Client.addFriendConfig c;
     Client.addFriendConfigHash := Client.addFriendConfigHash c;
     Client.dialingConfig := Client.dialingConfig c;
     Client.dialingConfigHash := Client.dialingConfigHash c;
     Client.incomingFriendRequests := redirect back (Client.incomingFriendRequests c);
     Client.outgoingFriendRequests := redirect back (Client.outgoingFriendRequests c);
     Client.sentFriendRequests := redirect back (Client.sentFriendRequests c);
     Client.friends :=
       fmap (M := option) (friend_with_back_reference back) <$> Client.friends c;
     Client.wheel := Client.wheel c;
     Client.runtime := Client.runtime c |}.

(** The client [loadStateLocked] leaves at address [c], given the two
    hashes. *)
Definition loaded (c : addr) (this : Client.t) (st : persistedState.t)
    (addFriendConfigHash dialingConfigHash : string) : Client.t :=
  {| Client.Username := persistedState.Username st;
     Client.LongTermPublicKey := persistedState.LongTermPublicKey st;
     Client.LongTermPrivateKey := persistedState.LongTermPrivateKey st;
     Client.PKGLoginKey := persistedState.PKGLoginKey st;
     Client.ClientPersistPath := Client.ClientPersistPath this;
     Client.KeywheelPersistPath := Client.KeywheelPersistPath this;
     Client.addFriendConfig := persistedState.AddFriendConfig st;
     Client.addFriendConfigHash := addFriendConfigHash;
     Client.dialingConfig := persistedState.DialingConfig st;
     Client.dialingConfigHash := dialingConfigHash;
     Client.incomingFriendRequests :=
       redirect (Some c) (persistedState.IncomingFriendRequests st);
     Client.outgoingFriendRequests :=
       redirect (Some c) (persistedState.OutgoingFriendRequests st);
     Client.sentFriendRequests :=
       redirect (Some c) (persistedState.SentFriendRequests st);
     Client.friends :=
       fmap (M := option) (loaded_friend c) <$> persistedState.Friends st;
     Client.wheel := Client.wheel this;
     Client.runtime := Client.runtime this |}.

(** The JSON object a friend is stored as, and the shape of the client
    blob of [c]: ten members, in the order of the fields of
    [persistedState]; the friends form an object with one member per map
    key, in sorted order. *)
Definition friend_json (f : persistedFriend.t) : JSON.json :=
  JSON.JObject
    [("Username", JSON.JString (persistedFriend.Username f));
     ("LongTermKey", bytes_json (persistedFriend.LongTermKey f));
     ("ExtraData", bytes_json (persistedFriend.ExtraData f))].

Definition stores_friend (entry : string * ptr persistedFriend.t)
    (member : string * JSON.json) : Prop :=
  exists f, entry = (fst member, Some f) /\ snd member = friend_json f.

Definition client_blob_object (c : Client.t) (j : JSON.json) : Prop :=
  exists addFriendConfig dialingConfig incoming outgoing sent friends,
    j = JSON.JObject
          [("Username", JSON.JString (Client.Username c));
           ("LongTermPublicKey", bytes_json (Client.LongTermPublicKey c));
           ("LongTermPrivateKey", bytes_json (Client.LongTermPrivateKey c));
           ("PKGLoginKey", bytes_json (Client.PKGLoginKey c));
           ("AddFriendConfig", addFriendConfig);
           ("DialingConfig", dialingConfig);
           ("IncomingFriendRequests", incoming);
           ("OutgoingFriendRequests", outgoing);
           ("SentFriendRequests", sent);
           ("Friends", JSON.JObject friends)] /\
    Forall2 stores_friend
      (sorted_entries (persistedState.Friends (persisted c))) friends.

(** The first error of two. *)
Definition first_error (err e : error) : error :=
  match err with
  | None => e
  | Some _ => err
  end.

(** The four steps of [LoadClient] that can fail, in order: reading the
    client file, decoding the client blob, reading the keywheel file,
    decoding the keywheel blob. *)
Definition load_steps (clientPersistPath keywheelPersistPath : string) (w : World)
    : result (persistedState.t * Wheel) :=
  match files w !! clientPersistPath with
  | None => Err ("open " +:+ clientPersistPath +:+ ": no such file or directory")
  | Some clientFile =>
      result_bind (JSON.Unmarshal (file_data clientFile)) (fun st =>
      match files w !! keywheelPersistPath with
      | None => Err ("open " +:+ keywheelPersistPath +:+ ": no such file or directory")
      | Some keywheelFile =>
          result_bind (Wheel_UnmarshalBinary Wheel_zero (file_data keywheelFile))
            (fun wheel => Ok (st, wheel))
      end)
  end.
End notions.
End Props.

(** ** What a persist call may do to the world *)

Module Effects.
Import OS Persist.

(** An atomic write with mode 0600 to one of the given paths. *)
Definition writes_to (paths : list string) (e : Event) : Prop :=
  match e with
  | EvReadFile _ => False
  | EvWriteFileAtomic path _ perm => path ∈ paths /\ perm = octal 6 0 0
  end.

(** The world [w'] differs from [w] only by such writes: at most [n] calls
    were made, all of them writes to [paths], and every other file, the
    faults of the disk and the allocator are as they were. *)
Definition only_writes (n : nat) (paths : list string) (w w' : World) : Prop :=
  write_fault w' = write_fault w /\
  next_client w' = next_client w /\
  (forall path, path ∉ paths -> files w' !! path = files w !! path) /\
  exists events,
    trace w' = trace w ++ events /\
    (length events <= n)%nat /\
    Forall (writes_to paths) events.

End Effects.

(** ** What decoding gives back *)

Module Roundtrip.
Import JSON Text.

(** [dec] reads back what [enc] wrote: when the document [enc] gives for a
    value has valid strings, its numbers are valid too and [dec] gives
    [back] of the value for it. *)
Definition decodes {A} (enc : A -> result json) (dec : json -> result A)
    (back : A -> A) : Prop :=
  forall a j,
    enc a = Ok j -> strings_valid j = true ->
    numbers_valid j = true /\ dec j = Ok (back a).

(** [enc] never writes null (a struct is written as an object). *)
Definition never_null {A} (enc : A -> result json) : Prop :=
  forall a, enc a <> Ok JNull.

(** A request and a state as they are decoded: without the back-references,
    which are not written. *)
Definition request_decoded {F} (r : Request.t F) : Request.t F :=
  Props.with_back_reference None r.

Definition state_decoded `{Types} (st : persistedState.t) : persistedState.t :=
  {| persistedState.Username := persistedState.Username st;
     persistedState.LongTermPublicKey := persistedState.LongTermPublicKey st;
     persistedState.LongTermPrivateKey := persistedState.LongTermPrivateKey st;
     persistedState.PKGLoginKey := persistedState.PKGLoginKey st;
     persistedState.AddFriendConfig := persistedState.AddFriendConfig st;
     persistedState.DialingConfig := persistedState.DialingConfig st;
     persistedState.IncomingFriendRequests :=
       Props.redirect None (persistedState.IncomingFriendRequests st);
     persistedState.OutgoingFriendRequests :=
       Props.redirect None (persistedState.OutgoingFriendRequests st);
     persistedState.SentFriendRequests :=
       Props.redirect None (persistedState.SentFriendRequests st);
     persistedState.Friends := persistedState.Friends st |}.

(** Every string [persistClientLocked] writes for the client is valid UTF-8:
    the user names (the client's, the friends', which are also the keys of
    the friends map) and the strings of the configs and of the requests.
    (A byte string is written in base64, which always is.)  The
    specification's data model has user names as UTF-8 strings;
    [json.MarshalIndent] replaces the bytes of a string that are not by
    U+FFFD. *)
Definition text_valid `{Externals} (this : Client.t) : Prop :=
  match toJSON (Props.persisted this) with
  | Ok j => strings_valid j = true
  | Err _ => True
  end.

(** What the persistence code needs of the types declared outside
    persist.go: their decoders read back what their encoders wrote, and the
    keywheel replaces its receiver by the keywheel that was marshalled. *)
Class Laws `{Externals} : Prop := {
  SignedConfig_decodes : decodes (toJSON (A := SignedConfig)) fromJSON id;
  SignedConfig_never_null : never_null (toJSON (A := SignedConfig));
  IncomingFields_decodes : decodes (toJSON (A := IncomingFields)) fromJSON id;
  IncomingFields_never_null : never_null (toJSON (A := IncomingFields));
  OutgoingFields_decodes : decodes (toJSON (A := OutgoingFields)) fromJSON id;
  OutgoingFields_never_null : never_null (toJSON (A := OutgoingFields));
  SentFields_decodes : decodes (toJSON (A := SentFields)) fromJSON id;
  SentFields_never_null : never_null (toJSON (A := SentFields));
  Wheel_decodes :
    forall receiver w data,
      Wheel_MarshalBinary w = Ok data -> Wheel_UnmarshalBinary receiver data = Ok w
}.
(** The number a run of bytes stands for, most significant byte first,
    continuing [acc]. *)
Definition from_bytes (acc : N) (l : list byte) : N :=
  fold_left (fun a b => (a * 256 + Byte.to_N b)%N) l acc.
End Roundtrip.

(** ** persist.go: the entry points that take the client's mutex *)

Module Locking.
Import OS.

(** How a call that may wait for a mutex ends: it returns, it panics, or it
    blocks in [Lock] (for good, when no other goroutine holds the mutex to
    release it). *)
Inductive ending (A : Type) : Type :=
| Returns (a : A)
| Panics (msg : string)
| Blocks.
Arguments Returns {A} a.
Arguments Panics {A} msg.
Arguments Blocks {A}.

(** Modelled from the spec: the field [mu] of [Client] (declared outside
    persist.go, not under src) is the single client-wide exclusive lock of
    the specification, a [sync.Mutex].  Its state is kept beside the
    world. *)
Record State : Type := { world : World; mu_held : bool }.

Definition L (A : Type) : Type := State -> ending A * State.

Definition ret {A} (a : A) : L A := fun s => (Returns a, s).

Definition bind {A B} (m : L A) (k : A -> L B) : L B :=
  fun s =>
    match m s with
    | (Returns a, s') => k a s'
    | (Panics msg, s') => (Panics msg, s')
    | (Blocks, s') => (Blocks, s')
    end.

(** [sync.Mutex.Lock] and [sync.Mutex.Unlock]; unlocking a mutex that is not
    held is a fatal error. *)
Definition Lock : L unit :=
  fun s =>
    if mu_held s then (Blocks, s)
    else (Returns tt, {| world := world s; mu_held := true |}).

Definition Unlock : L unit :=
  fun s =>
    if mu_held s then (Returns tt, {| world := world s; mu_held := false |})
    else (Panics "sync: unlock of unlocked mutex", s).

(** Code that does not touch the mutex. *)
Definition run {A} (m : M A) : L A :=
  fun s =>
    match m (world s) with
    | (Done a, w) => (Returns a, {| world := w; mu_held := mu_held s |})
    | (Panic msg, w) => (Panics msg, {| world := w; mu_held := mu_held s |})
    end.

Section locking.
Context `{Externals}.

(** [func (c *Client) Persist() error]:
    [c.mu.Lock(); err := c.persistLocked(); c.mu.Unlock(); return err] *)
Definition Persist (c : Client.t) : L error :=
  bind Lock (fun _ =>
  bind (run (Persist.persistLocked c)) (fun err =>
  bind Unlock (fun _ =>
  ret err))).

(** [func (c *Client) persistClient() error] *)
Definition persistClient (c : Client.t) : L error :=
  bind Lock (fun _ =>
  bind (run (Persist.persistClientLocked c)) (fun err =>
  bind Unlock (fun _ =>
  ret err))).

(** [func (c *Client) persistKeywheel() error] *)
Definition persistKeywheel (c : Client.t) : L error :=
  bind Lock (fun _ =>
  bind (run (Persist.persistKeywheelLocked c)) (fun err =>
  bind Unlock (fun _ =>
  ret err))).
End locking.

(** What taking the mutex around [body] amounts to: called with the mutex
    held, the call blocks and [body] does not run; called with the mutex
    free, the call ends as [body] does, and the mutex is free again when it
    returns but still held when it panics. *)
Definition guards {A} (wrapper : L A) (body : M A) : Prop :=
  forall w,
    wrapper {| world := w; mu_held := true |}
    = (Blocks, {| world := w; mu_held := true |}) /\
    wrapper {| world := w; mu_held := false |}
    = match body w with
      | (Done a, w') => (Returns a, {| world := w'; mu_held := false |})
      | (Panic msg, w') => (Panics msg, {| world := w'; mu_held := true |})
      end.
End Locking.


(** ** The types declared outside persist.go, as the specification describes
    them *)

Module Model.
Import JSON Encoding.

(** [int] and [uint32] fields: a JSON number. *)
Definition int_toJSON (z : Z) : result json := Ok (JNumber (GoInt.format_d z)).

Definition int_fromJSON (j : json) : result Z :=
  match j with
  | JNull => Ok 0
  | JNumber lit =>
      match NilZero.int_of_string lit with
      | Some d => Ok (Z.of_int d)
      | None => type_error "int"
      end
  | _ => type_error "int"
  end.

(** Modelled from the spec: a server of a committee, an address and a public
    key (pkg.PublicServerConfig, not under src). *)
Module Server.
Record t : Type := { Address : string; Key : slice byte }.
End Server.

Definition Server_toJSON (s : Server.t) : result json :=
  Ok (JObject [("Address", JString (Server.Address s));
               ("Key", bytes_json (Server.Key s))]).

Definition Server_fromJSON (j : json) : result Server.t :=
  match j with
  | JObject kvs =>
      result_bind (string_fromJSON (field kvs "Address")) (fun address =>
      result_bind (bytes_fromJSON (field kvs "Key")) (fun key =>
      Ok {| Server.Address := address; Server.Key := key |}))
  | _ => type_error "pkg.PublicServerConfig"
  end.

(** Modelled from the spec: config.SignedConfig (the config package is not
    under src), a signed document that names a service, its creation and
    expiry times (RFC 3339 text in UTC, which string order orders), the PKG
    servers, the mix servers and the CDN, and the hash of the config before
    it; the guardians sign it. *)
Module SignedConfig.
Record t : Type := {
  Service : string;
  Created : string;
  Expires : string;
  PrevConfigHash : string;
  PKGServers : slice Server.t;
  MixServers : slice Server.t;
  CDNServer : Server.t;
  Guardians : slice Server.t;
  Signatures : gmap string (slice byte)
}.
End SignedConfig.

Definition SignedConfig_toJSON (c : SignedConfig.t) : result json :=
  result_bind (slice_toJSON Server_toJSON (SignedConfig.PKGServers c)) (fun pkgServers =>
  result_bind (slice_toJSON Server_toJSON (SignedConfig.MixServers c)) (fun mixServers =>
  result_bind (Server_toJSON (SignedConfig.CDNServer c)) (fun cdnServer =>
  result_bind (slice_toJSON Server_toJSON (SignedConfig.Guardians c)) (fun guardians =>
  result_bind (map_toJSON bytes_toJSON (SignedConfig.Signatures c)) (fun signatures =>
  Ok (JObject [("Service", JString (SignedConfig.Service c));
               ("Created", JString (SignedConfig.Created c));
               ("Expires", JString (SignedConfig.Expires c));
               ("PrevConfigHash", JString (SignedConfig.PrevConfigHash c));
               ("PKGServers", pkgServers);
               ("MixServers", mixServers);
               ("CDNServer", cdnServer);
               ("Guardians", guardians);
               ("Signatures", signatures)])))))).

Definition SignedConfig_fromJSON (j : json) : result SignedConfig.t :=
  match j with
  | JObject kvs =>
      result_bind (string_fromJSON (field kvs "Service")) (fun service =>
      result_bind (string_fromJSON (field kvs "Created")) (fun created =>
      result_bind (string_fromJSON (field kvs "Expires")) (fun expires =>
      result_bind (string_fromJSON (field kvs "PrevConfigHash")) (fun prevConfigHash =>
      result_bind (slice_fromJSON Server_fromJSON (field kvs "PKGServers")) (fun pkgServers =>
      result_bind (slice_fromJSON Server_fromJSON (field kvs "MixServers")) (fun mixServers =>
      result_bind (Server_fromJSON (field kvs "CDNServer")) (fun cdnServer =>
      result_bind (slice_fromJSON Server_fromJSON (field kvs "Guardians")) (fun guardians =>
      result_bind (map_fromJSON bytes_fromJSON (field kvs "Signatures")) (fun signatures =>
      Ok {| SignedConfig.Service := service;
            SignedConfig.Created := created;
            SignedConfig.Expires := expires;
            SignedConfig.PrevConfigHash := prevConfigHash;
            SignedConfig.PKGServers := pkgServers;
            SignedConfig.MixServers := mixServers;
            SignedConfig.CDNServer := cdnServer;
            SignedConfig.Guardians := guardians;
            SignedConfig.Signatures := signatures |})))))))))
  | _ => type_error "config.SignedConfig"
  end.

(** The message the guardians sign: the config without its signatures. *)
Definition signing_message (c : SignedConfig.t) : string :=
  match SignedConfig_toJSON
          {| SignedConfig.Service := SignedConfig.Service c;
             SignedConfig.Created := SignedConfig.Created c;
             SignedConfig.Expires := SignedConfig.Expires c;
             SignedConfig.PrevConfigHash := SignedConfig.PrevConfigHash c;
             SignedConfig.PKGServers := SignedConfig.PKGServers c;
             SignedConfig.MixServers := SignedConfig.MixServers c;
             SignedConfig.CDNServer := SignedConfig.CDNServer c;
             SignedConfig.Guardians := SignedConfig.Guardians c;
             SignedConfig.Signatures := ∅ |} with
  | Ok j => render "" "" 0 j
  | Err _ => EmptyString
  end.

(** A 64-bit FNV-1a digest in hexadecimal; it stands in for the
    cryptographic hash of the config package. *)
Fixpoint fnv1a (h : N) (s : string) : N :=
  match s with
  | EmptyString => h
  | String c s' =>
      fnv1a ((N.lxor h (N_of_ascii c) * 1099511628211) mod 2 ^ 64)%N s'
  end.

Fixpoint hex (digits : nat) (n : N) : string :=
  match digits with
  | O => EmptyString
  | S d => hex d (N.shiftr n 4) +:+ String (hex_digit n) EmptyString
  end.

(** Modelled from the spec: the method [Hash] of a pointer to a
    [SignedConfig]; it reads its receiver, so on nil it is a nil-pointer
    dereference. *)
Definition Hash (c : ptr SignedConfig.t) : outcome string :=
  match c with
  | None => Panic "nil pointer dereference"
  | Some c => Done (hex 16 (fnv1a 14695981039346656037%N (signing_message c)))
  end.

(** Modelled from the spec: the verification rules of the config chain, in
    their order.  [head] is the stored head of the chain of [service] (none
    before the bootstrap); [signed key message signature] tells whether the
    signature verifies. *)
Definition guardian_signed (signed : list byte -> string -> list byte -> bool)
    (c : SignedConfig.t) (guardian : Server.t) : bool :=
  match Server.Key guardian with
  | Some key =>
      match SignedConfig.Signatures c !! Base64.encode key with
      | Some (Some signature) => signed key (signing_message c) signature
      | _ => false
      end
  | None => false
  end.

Definition verify (signed : list byte -> string -> list byte -> bool)
    (service : string) (head : option SignedConfig.t) (c : SignedConfig.t)
    : result unit :=
  let guardians :=
    match head with
    | Some h => elems (SignedConfig.Guardians h)
    | None => elems (SignedConfig.Guardians c)
    end in
  if negb (forallb (guardian_signed signed c) guardians) then
    Err "signature does not verify"
  else if negb (String.eqb (SignedConfig.Service c) service) then
    Err "wrong service"
  else if
    match head with
    | Some h =>
        match Hash (Some h) with
        | Done hash => negb (String.eqb (SignedConfig.PrevConfigHash c) hash)
        | Panic _ => true
        end
    | None => negb (String.eqb (SignedConfig.PrevConfigHash c) EmptyString)
    end
  then Err "previous config hash does not match the head"
  else if
    match head with
    | Some h => negb (String.ltb (SignedConfig.Created h) (SignedConfig.Created c))
    | None => false
    end
  then Err "not created after the head"
  else if negb (String.ltb (SignedConfig.Created c) (SignedConfig.Expires c)) then
    Err "expires before it is created"
  else Ok tt.

(** Modelled from the spec: the exported fields of the three friend-request
    records (declared in the add-friend engine, not under src). *)
Module Incoming.
Record t : Type := {
  Username : string;
  LongTermKey : slice byte;
  DHPublic : slice byte;
  Verifiers : slice Server.t;
  Round : Z
}.
End Incoming.

Module Outgoing.
Record t : Type := {
  Username : string;
  ExpectedKey : slice byte;
  DHPublic : slice byte;
  DHPrivate : slice byte;
  DialRound : Z
}.
End Outgoing.

Module Sent.
Record t : Type := {
  Username : string;
  Round : Z;
  Verifiers : slice Server.t;
  DHPublic : slice byte;
  DHPrivate : slice byte;
  DialRound : Z
}.
End Sent.

Definition Incoming_toJSON (r : Incoming.t) : result json :=
  result_bind (slice_toJSON Server_toJSON (Incoming.Verifiers r)) (fun verifiers =>
  result_bind (int_toJSON (Incoming.Round r)) (fun round =>
  Ok (JObject [("Username", JString (Incoming.Username r));
               ("LongTermKey", bytes_json (Incoming.LongTermKey r));
               ("DHPublic", bytes_json (Incoming.DHPublic r));
               ("Verifiers", verifiers);
               ("Round", round)]))).

Definition Incoming_fromJSON (j : json) : result Incoming.t :=
  match j with
  | JObject kvs =>
      result_bind (string_fromJSON (field kvs "Username")) (fun username =>
      result_bind (bytes_fromJSON (field kvs "LongTermKey")) (fun longTermKey =>
      result_bind (bytes_fromJSON (field kvs "DHPublic")) (fun dhPublic =>
      result_bind (slice_fromJSON Server_fromJSON (field kvs "Verifiers")) (fun verifiers =>
      result_bind (int_fromJSON (field kvs "Round")) (fun round =>
      Ok {| Incoming.Username := username;
            Incoming.LongTermKey := longTermKey;
            Incoming.DHPublic := dhPublic;
            Incoming.Verifiers := verifiers;
            Incoming.Round := round |})))))
  | _ => type_error "alpenhorn.IncomingFriendRequest"
  end.

Definition Outgoing_toJSON (r : Outgoing.t) : result json :=
  result_bind (int_toJSON (Outgoing.DialRound r)) (fun dialRound =>
  Ok (JObject [("Username", JString (Outgoing.Username r));
               ("ExpectedKey", bytes_json (Outgoing.ExpectedKey r));
               ("DHPublic", bytes_json (Outgoing.DHPublic r));
               ("DHPrivate", bytes_json (Outgoing.DHPrivate r));
               ("DialRound", dialRound)])).

Definition Outgoing_fromJSON (j : json) : result Outgoing.t :=
  match j with
  | JObject kvs =>
      result_bind (string_fromJSON (field kvs "Username")) (fun username =>
      result_bind (bytes_fromJSON (field kvs "ExpectedKey")) (fun expectedKey =>
      result_bind (bytes_fromJSON (field kvs "DHPublic")) (fun dhPublic =>
      result_bind (bytes_fromJSON (field kvs "DHPrivate")) (fun dhPrivate =>
      result_bind (int_fromJSON (field kvs "DialRound")) (fun dialRound =>
      Ok {| Outgoing.Username := username;
            Outgoing.ExpectedKey := expectedKey;
            Outgoing.DHPublic := dhPublic;
            Outgoing.DHPrivate := dhPrivate;
            Outgoing.DialRound := dialRound |})))))
  | _ => type_error "alpenhorn.OutgoingFriendRequest"
  end.

Definition Sent_toJSON (r : Sent.t) : result json :=
  result_bind (int_toJSON (Sent.Round r)) (fun round =>
  result_bind (slice_toJSON Server_toJSON (Sent.Verifiers r)) (fun verifiers =>
  result_bind (int_toJSON (Sent.DialRound r)) (fun dialRound =>
  Ok (JObject [("Username", JString (Sent.Username r));
               ("Round", round);
               ("Verifiers", verifiers);
               ("DHPublic", bytes_json (Sent.DHPublic r));
               ("DHPrivate", bytes_json (Sent.DHPrivate r));
               ("DialRound", dialRound)])))).

Definition Sent_fromJSON (j : json) : result Sent.t :=
  match j with
  | JObject kvs =>
      result_bind (string_fromJSON (field kvs "Username")) (fun username =>
      result_bind (int_fromJSON (field kvs "Round")) (fun round =>
      result_bind (slice_fromJSON Server_fromJSON (field kvs "Verifiers")) (fun verifiers =>
      result_bind (bytes_fromJSON (field kvs "DHPublic")) (fun dhPublic =>
      result_bind (bytes_fromJSON (field kvs "DHPrivate")) (fun dhPrivate =>
      result_bind (int_fromJSON (field kvs "DialRound")) (fun dialRound =>
      Ok {| Sent.Username := username;
            Sent.Round := round;
            Sent.Verifiers := verifiers;
            Sent.DHPublic := dhPublic;
            Sent.DHPrivate := dhPrivate;
            Sent.DialRound := dialRound |}))))))
  | _ => type_error "alpenhorn.sentFriendRequest"
  end.

(** Modelled from the spec: the keywheel (package keywheel, not under src),
    a map from a username to the current secret and its round, and its
    binary form: a version byte (1), the number of records, then for each
    record the length of the username (16 bits), the username, the round
    (32 bits) and the 32 bytes of the secret.  The specification does not
    give the width of the count nor the byte order; the count takes 32 bits
    and integers are big-endian here. *)
Module Wheel.
Record entry : Type := { secret : list byte; round : Z }.

Definition t : Type := gmap string entry.

Fixpoint big_endian (width : nat) (n : N) : list byte :=
  match width with
  | O => []
  | S width' => big_endian width' (N.shiftr n 8) ++ [Base64.byte_of n]
  end.

Fixpoint read_big_endian (width : nat) (acc : N) (l : list byte)
    : option (N * list byte) :=
  match width with
  | O => Some (acc, l)
  | S width' =>
      match l with
      | b :: l' => read_big_endian width' (acc * 256 + Byte.to_N b)%N l'
      | [] => None
      end
  end.

Definition read_bytes (n : nat) (l : list byte) : option (list byte * list byte) :=
  if decide (n <= length l)%nat then Some (take n l, drop n l) else None.

Definition record (kv : string * entry) : result (list byte) :=
  let username := list_byte_of_string (fst kv) in
  if negb (Z.of_nat (length username) <? 2 ^ 16) then Err "keywheel: username too long"
  else if negb ((0 <=? round (snd kv)) && (round (snd kv) <? 2 ^ 32)) then
    Err "keywheel: round out of range"
  else if negb (length (secret (snd kv)) =? 32)%nat then
    Err "keywheel: secret is not 32 bytes"
  else
    Ok (big_endian 2 (N.of_nat (length username)) ++ username
        ++ big_endian 4 (Z.to_N (round (snd kv))) ++ secret (snd kv)).

Definition MarshalBinary (w : t) : result (list byte) :=
  let entries := sorted_entries w in
  if negb (Z.of_nat (length entries) <? 2 ^ 32) then Err "keywheel: too many records"
  else
    result_map
      (fun records =>
         Byte.x01 :: big_endian 4 (N.of_nat (length entries)) ++ concat records)
      (result_mapM record entries).

Fixpoint read_records (count : nat) (l : list byte) (w : t) : result t :=
  match count with
  | O =>
      match l with
      | [] => Ok w
      | _ => Err "keywheel: trailing bytes"
      end
  | S count' =>
      match
        read_big_endian 2 0 l ≫= fun '(n, l1) =>
        read_bytes (N.to_nat n) l1 ≫= fun '(username, l2) =>
        read_big_endian 4 0 l2 ≫= fun '(r, l3) =>
        read_bytes 32 l3 ≫= fun '(s, l4) =>
        Some (string_of_list_byte username,
              {| secret := s; round := Z.of_N r |}, l4)
      with
      | Some (username, e, l') => read_records count' l' (<[username := e]> w)
      | None => Err "keywheel: short record"
      end
  end.

(** [UnmarshalBinary] replaces the contents of its receiver. *)
Definition UnmarshalBinary (receiver : t) (data : list byte) : result t :=
  match data with
  | version :: l =>
      if Byte.eqb version Byte.x01 then
        match read_big_endian 4 0 l with
        | Some (count, l') => read_records (N.to_nat count) l' ∅
        | None => Err "keywheel: short data"
        end
      else Err "keywheel: unknown version"
  | [] => Err "keywheel: short data"
  end.
End Wheel.

(** The fields of [Client] that persist.go leaves alone, as the tests set
    them. *)
Module Runtime.
Record t : Type := {
  CoordinatorAddress : string;
  CoordinatorKey : slice byte;
  Handler : ptr string
}.
End Runtime.

Definition types : Types :=
  {| SignedConfig := SignedConfig.t;
     IncomingFields := Incoming.t;
     OutgoingFields := Outgoing.t;
     SentFields := Sent.t;
     Wheel := Wheel.t;
     Runtime := Runtime.t |}.

Definition externals : @Externals types :=
  @Build_Externals types
    {| toJSON := SignedConfig_toJSON; fromJSON := SignedConfig_fromJSON |}
    Hash
    {| toJSON := Incoming_toJSON; fromJSON := Incoming_fromJSON |}
    {| toJSON := Outgoing_toJSON; fromJSON := Outgoing_fromJSON |}
    {| toJSON := Sent_toJSON; fromJSON := Sent_fromJSON |}
    (∅ : Wheel.t)
    Wheel.MarshalBinary
    Wheel.UnmarshalBinary
    {| Runtime.CoordinatorAddress := EmptyString;
       Runtime.CoordinatorKey := None;
       Runtime.Handler := None |}.
End Model.


(** ** A client and a world to run the code on *)

Module Example.
Import OS JSON Encoding Model.
#[local] Existing Instance types.
#[local] Existing Instance externals.

Definition key (b : byte) : slice byte := Some (repeat b 32).

Definition server (address : string) (b : byte) : Server.t :=
  {| Server.Address := address; Server.Key := key b |}.

Definition committee : slice Server.t :=
  Some [server "pkg1.example.org:8080" Byte.x11;
        server "pkg2.example.org:8080" Byte.x12;
        server "pkg3.example.org:8080" Byte.x13].

Definition guardian : Server.t := server "coordinator.example.org:8000" Byte.x20.

Definition config (service : string) : SignedConfig.t :=
  {| SignedConfig.Service := service;
     SignedConfig.Created := "2017-06-01T00:00:00Z";
     SignedConfig.Expires := "2017-06-02T00:00:00Z";
     SignedConfig.PrevConfigHash := EmptyString;
     SignedConfig.PKGServers := committee;
     SignedConfig.MixServers := Some [server "mix1.example.org:2718" Byte.x31];
     SignedConfig.CDNServer := server "cdn.example.org:8081" Byte.x41;
     SignedConfig.Guardians := Some [guardian];
     SignedConfig.Signatures :=
       {[ Base64.encode (repeat Byte.x20 32) := Some (repeat Byte.x99 64) ]} |}.

(** A config that no verification accepts: nobody signed it, it expires
    before it is created, and it names a previous config although no head is
    stored. *)
Definition unsigned_config (service : string) : SignedConfig.t :=
  {| SignedConfig.Service := service;
     SignedConfig.Created := "2017-06-02T00:00:00Z";
     SignedConfig.Expires := "2017-06-01T00:00:00Z";
     SignedConfig.PrevConfigHash := "0123456789abcdef";
     SignedConfig.PKGServers := committee;
     SignedConfig.MixServers := None;
     SignedConfig.CDNServer := server "cdn.example.org:8081" Byte.x41;
     SignedConfig.Guardians := Some [guardian];
     SignedConfig.Signatures := ∅ |}.

Definition hash_of (c : SignedConfig.t) : string :=
  match Hash (Some c) with
  | Done h => h
  | Panic _ => EmptyString
  end.

Definition runtime : Runtime.t :=
  {| Runtime.CoordinatorAddress := "coordinator.example.org:8000";
     Runtime.CoordinatorKey := key Byte.x20;
     Runtime.Handler := Some "bob" |}.

(** Bob lives at address 1; he has a friend, and one request of each
    form. *)
Definition bob_addr : addr := 1%positive.

Definition carol_request : IncomingFriendRequest :=
  {| Request.fields :=
       {| Incoming.Username := "carol@example.org";
          Incoming.LongTermKey := key Byte.x03;
          Incoming.DHPublic := key Byte.x04;
          Incoming.Verifiers := committee;
          Incoming.Round := 41 |};
     Request.client := Some bob_addr |}.

Definition bob_with (addFriendConfig dialingConfig : SignedConfig.t)
    (clientPersistPath keywheelPersistPath : string)
    (incoming : slice (ptr IncomingFriendRequest)) : Client.t :=
  {| Client.Username := "bob@example.org";
     Client.LongTermPublicKey := key Byte.x01;
     Client.LongTermPrivateKey := Some (repeat Byte.x02 64);
     Client.PKGLoginKey := Some (repeat Byte.x02 64);
     Client.ClientPersistPath := clientPersistPath;
     Client.KeywheelPersistPath := keywheelPersistPath;
     Client.addFriendConfig := Some addFriendConfig;
     Client.addFriendConfigHash := hash_of addFriendConfig;
     Client.dialingConfig := Some dialingConfig;
     Client.dialingConfigHash := hash_of dialingConfig;
     Client.incomingFriendRequests := incoming;
     Client.outgoingFriendRequests :=
       Some [Some {| Request.fields :=
                       {| Outgoing.Username := "dave@example.org";
                          Outgoing.ExpectedKey := None;
                          Outgoing.DHPublic := key Byte.x05;
                          Outgoing.DHPrivate := key Byte.x06;
                          Outgoing.DialRound := 120 |};
                     Request.client := Some bob_addr |}];
     Client.sentFriendRequests :=
       Some [Some {| Request.fields :=
                       {| Sent.Username := "erin@example.org";
                          Sent.Round := 40;
                          Sent.Verifiers := committee;
                          Sent.DHPublic := key Byte.x07;
                          Sent.DHPrivate := key Byte.x08;
                          Sent.DialRound := 118 |};
                     Request.client := Some bob_addr |}];
     Client.friends :=
       {[ "alice@example.org" :=
            Some {| Friend.Username := "alice@example.org";
                    Friend.LongTermKey := key Byte.x09;
                    Friend.extraData := Some [Byte.x68; Byte.x69];
                    Friend.client := Some bob_addr |} ]};
     Client.wheel :=
       ({[ "alice@example.org" :=
             {| Wheel.secret := repeat Byte.x0a 32; Wheel.round := 117 |} ]}
        : Wheel.t);
     Client.runtime := runtime |}.

Definition bob : Client.t :=
  bob_with (config "AddFriend") (config "Dialing") "bob-client" "bob-keywheel"
    (Some [Some carol_request]).

(** Bob as the tests create him, before they set the persist paths. *)
Definition bob_in_memory : Client.t :=
  bob_with (config "AddFriend") (config "Dialing") EmptyString EmptyString
    (Some [Some carol_request]).

(** Bob holding configs that cannot be verified. *)
Definition bob_unverified : Client.t :=
  bob_with (unsigned_config "AddFriend") (unsigned_config "Dialing")
    "bob-client" "bob-keywheel" (Some [Some carol_request]).

(** A client whose list of incoming requests holds a nil pointer; its blob
    has the member IncomingFriendRequests with the value [null] in an
    array. *)
Definition bob_with_nil_request : Client.t :=
  bob_with (config "AddFriend") (config "Dialing") "bob-client" "bob-keywheel"
    (Some [None]).

(** An empty disk on which every write succeeds, and one on which writes to
    the client blob fail. *)
Definition empty_disk : World :=
  {| files := ∅; write_fault := ∅; trace := []; next_client := 2%positive |}.

Definition client_blob_read_only : World :=
  {| files := ∅;
     write_fault := {[ "bob-client" := "open bob-client: permission denied" ]};
     trace := []; next_client := 2%positive |}.

(** The disk after a client has persisted itself on the empty disk. *)
Definition disk_of (c : Client.t) : World := snd (Persist.persistLocked c empty_disk).

(** The bytes of Bob's client blob, and the state encoding/json decodes
    from them: Bob's state with nil back-references. *)
Definition bob_blob : list byte :=
  match MarshalIndent (Props.persisted bob) "" "  " with
  | Ok data => data
  | Err _ => []
  end.

Definition bob_decoded : persistedState.t :=
  Props.persisted (Props.with_back_references None bob).

End Example.

(** ** More clients to run the code on *)

Module Scenario.
Import OS JSON Encoding Model Example.
#[local] Existing Instance types.
#[local] Existing Instance externals.

(** Bob with one path configured for both files. *)
Definition bob_one_file : Client.t :=
  bob_with (config "AddFriend") (config "Dialing") "bob-state" "bob-state"
    (Some [Some carol_request]).

(** A client whose map of friends holds a nil pointer. *)
Definition client_with_nil_friend : Client.t :=
  {| Client.Username := "bob@example.org";
     Client.LongTermPublicKey := key Byte.x01;
     Client.LongTermPrivateKey := None;
     Client.PKGLoginKey := None;
     Client.ClientPersistPath := "bob-client";
     Client.KeywheelPersistPath := "bob-keywheel";
     Client.addFriendConfig := None;
     Client.addFriendConfigHash := EmptyString;
     Client.dialingConfig := None;
     Client.dialingConfigHash := EmptyString;
     Client.incomingFriendRequests := None;
     Client.outgoingFriendRequests := None;
     Client.sentFriendRequests := None;
     Client.friends := {[ "mallory@example.org" := None ]};
     Client.wheel := Wheel_zero;
     Client.runtime := Runtime_zero |}.

(** The bytes of Bob's keywheel file. *)
Definition bob_keywheel_blob : list byte :=
  match Wheel_MarshalBinary (Client.wheel bob) with
  | Ok data => data
  | Err _ => []
  end.

(** The client [LoadClient] returns from the files Bob wrote. *)
Definition bob_loaded : Client.t :=
  match fst (Persist.LoadClient "bob-client" "bob-keywheel" (disk_of bob)) with
  | Done (Some (_, this), _) => this
  | _ => Persist.new_Client "bob-client" "bob-keywheel"
  end.
End Scenario.

(** * Properties *)

Section GoIntFacts.
Import GoInt.

Lemma wrap_is_int z : is_int z -> wrap z = z.
Proof.
  unfold is_int, int_min, int_max, wrap. intros H.
  rewrite Z.mod_small; lia.
Qed.

Lemma wrap_wrap_add a b : wrap (wrap a + b) = wrap (a + b).
Proof.
  unfold wrap.
  replace ((a + 2 ^ 63) mod 2 ^ 64 - 2 ^ 63 + b + 2 ^ 63)
    with ((a + 2 ^ 63) mod 2 ^ 64 + b) by lia.
  rewrite Z.add_mod_idemp_l by lia.
  f_equal. f_equal. lia.
Qed.

(** Decrementing and incrementing again gives the value back, also at the
    least [int], where the decrement wraps to the greatest. *)
Lemma wrap_dec_inc v : is_int v -> wrap (wrap (v - 1) + 1) = v.
Proof.
  intros H. rewrite wrap_wrap_add.
  replace (v - 1 + 1) with v by lia. by apply wrap_is_int.
Qed.

Lemma wrap_dec v : is_int v -> v <> int_min -> wrap (v - 1) = v - 1.
Proof.
  unfold is_int. intros H Hne. apply wrap_is_int. unfold is_int in *.
  unfold int_min, int_max in *. lia.
Qed.

Lemma wrap_dec_min : wrap (int_min - 1) = int_max.
Proof. reflexivity. Qed.
End GoIntFacts.

(** ** [ErrorCode.String] *)

Section ErrorCodeFacts.
Import GoInt.

(** Outside the defined codes the method takes the fallback branch, whose
    argument [i+1] is the receiver again. *)
Lemma fallback_branch (n v : Z) :
  is_int v -> 0 <= n < int_max -> ~ (1 <= v <= n) ->
  let i := wrap (v - 1) in
  (i <? 0) || (i >=? wrap n) = true /\ wrap (i + 1) = v.
Proof.
  intros Hv Hn Hout. cbn zeta. split; [|by apply wrap_dec_inc].
  rewrite (wrap_is_int n) by (unfold is_int, int_min, int_max in *; lia).
  destruct (decide (v = int_min)) as [->|Hne].
  - rewrite wrap_dec_min. apply orb_true_iff. right.
    apply Z.geb_le. lia.
  - rewrite wrap_dec by done. apply orb_true_iff.
    destruct (decide (v <= 0)).
    + left. apply Z.ltb_lt. lia.
    + right. apply Z.geb_le. lia.
Qed.

Ltac enumerate v lo hi :=
  let rec go n :=
    first
      [ assert (v = n) by lia; subst v
      | destruct (decide (v = n)) as [->|?]; [| go (n + 1)] ]
  in
  let n := eval vm_compute in lo in go n.

Lemma Pkg_String_fallback (v : Z) :
  is_int v -> ~ (1 <= v <= len_array Pkg._ErrorCode_index - 1) ->
  Pkg.String v = Done ("ErrorCode(" +:+ format_d v +:+ ")").
Proof.
  intros Hv Hout. unfold Pkg.String.
  destruct (fallback_branch (len_array Pkg._ErrorCode_index - 1) v)
    as [-> ->]; done.
Qed.

Lemma PkgLoginKey_String_fallback (v : Z) :
  is_int v -> ~ (1 <= v <= len_array PkgLoginKey._ErrorCode_index - 1) ->
  PkgLoginKey.String v = Done ("ErrorCode(" +:+ format_d v +:+ ")").
Proof.
  intros Hv Hout. unfold PkgLoginKey.String.
  destruct (fallback_branch (len_array PkgLoginKey._ErrorCode_index - 1) v)
    as [-> ->]; done.
Qed.

Lemma Pkg_String_defined (v : Z) :
  1 <= v <= len_array Pkg._ErrorCode_index - 1 ->
  slices_within Pkg._ErrorCode_name Pkg._ErrorCode_index Pkg.String v.
Proof.
  intros Hv. change (len_array Pkg._ErrorCode_index - 1) with 16 in Hv.
  enumerate v 1 16;
    (eexists _, _; split; [reflexivity|]; split; [reflexivity|];
     split; [done|]; split; [done|]; reflexivity).
Qed.

Lemma PkgLoginKey_String_defined (v : Z) :
  1 <= v <= len_array PkgLoginKey._ErrorCode_index - 1 ->
  slices_within PkgLoginKey._ErrorCode_name PkgLoginKey._ErrorCode_index
    PkgLoginKey.String v.
Proof.
  intros Hv. change (len_array PkgLoginKey._ErrorCode_index - 1) with 17 in Hv.
  enumerate v 1 17;
    (eexists _, _; split; [reflexivity|]; split; [reflexivity|];
     split; [done|]; split; [done|]; reflexivity).
Qed.

(** C9. For every [int] value [v] of an [ErrorCode] (zero, negative and
    past the last defined code included) [String] returns and never panics
    on an index or slice bound: outside the defined codes it returns
    "ErrorCode(v)" with the original [v], and for a defined code the slice
    bounds read from [_ErrorCode_index] are ordered and within the length
    of [_ErrorCode_name]. *)
Theorem Pkg_String_in_bounds (v : Z) :
  is_int v ->
  returns (Pkg.String v) /\
  (~ (1 <= v <= len_array Pkg._ErrorCode_index - 1) ->
   Pkg.String v = Done ("ErrorCode(" +:+ format_d v +:+ ")")) /\
  (1 <= v <= len_array Pkg._ErrorCode_index - 1 ->
   slices_within Pkg._ErrorCode_name Pkg._ErrorCode_index Pkg.String v).
Proof.
  intros Hv. split; [|split].
  - destruct (decide (1 <= v <= len_array Pkg._ErrorCode_index - 1)) as [Hin|Hout].
    + destruct (Pkg_String_defined v Hin) as (lo & hi & _ & _ & _ & _ & ->).
      by eexists.
    + rewrite Pkg_String_fallback by done. by eexists.
  - by apply Pkg_String_fallback.
  - apply Pkg_String_defined.
Qed.

Lemma Pkg_String_in_bounds_witness :
  is_int (-3) /\
  Pkg.String (-3) = Done "ErrorCode(-3)" /\
  Pkg.String 16 = Done "ErrUnknown".
Proof.
  assert (Hv : is_int (-3)) by (unfold is_int, int_min, int_max; lia).
  split; [exact Hv|].
  destruct (Pkg_String_in_bounds (-3) Hv) as (_ & Hout & _).
  split; [apply Hout; vm_compute; intros [H _]; by apply H | reflexivity].
Defined.

(** The same holds of the copy of the method that knows the login-key
    kind. *)
Lemma PkgLoginKey_String_in_bounds (v : Z) :
  is_int v ->
  returns (PkgLoginKey.String v) /\
  (~ (1 <= v <= len_array PkgLoginKey._ErrorCode_index - 1) ->
   PkgLoginKey.String v = Done ("ErrorCode(" +:+ format_d v +:+ ")")) /\
  (1 <= v <= len_array PkgLoginKey._ErrorCode_index - 1 ->
   slices_within PkgLoginKey._ErrorCode_name PkgLoginKey._ErrorCode_index
     PkgLoginKey.String v).
Proof.
  intros Hv. split; [|split].
  - destruct (decide (1 <= v <= len_array PkgLoginKey._ErrorCode_index - 1))
      as [Hin|Hout].
    + destruct (PkgLoginKey_String_defined v Hin) as (lo & hi & _ & _ & _ & _ & ->).
      by eexists.
    + rewrite PkgLoginKey_String_fallback by done. by eexists.
  - by apply PkgLoginKey_String_fallback.
  - apply PkgLoginKey_String_defined.
Qed.

Lemma PkgLoginKey_String_of_kind (k : PkgLoginKey.ErrorKind) :
  PkgLoginKey.String (PkgLoginKey.kind_code k)
  = Done ("Err" +:+ PkgLoginKey.kind_name k).
Proof. destruct k; reflexivity. Qed.

(** The table of src/pkg/errorcode_string.go has sixteen names and lacks the
    login-key kind: no receiver gives "ErrInvalidLoginKey", and the kinds
    that follow it in the specification's list sit one code lower there. *)
Lemma Pkg_String_no_login_key (v : Z) :
  is_int v -> Pkg.String v <> Done "ErrInvalidLoginKey".
Proof.
  intros Hv.
  destruct (decide (1 <= v <= len_array Pkg._ErrorCode_index - 1)) as [Hin|Hout].
  - change (len_array Pkg._ErrorCode_index - 1) with 16 in Hin.
    enumerate v 1 16; vm_compute; discriminate.
  - rewrite Pkg_String_fallback by done. simpl. discriminate.
Qed.

Lemma Pkg_String_of_kind (k : PkgLoginKey.ErrorKind) :
  k <> PkgLoginKey.InvalidLoginKey ->
  let c := PkgLoginKey.kind_code k in
  Pkg.String (if c <? 4 then c else c - 1)
  = Done ("Err" +:+ PkgLoginKey.kind_name k).
Proof. destruct k; intros Hk; try reflexivity. by destruct Hk. Qed.

(** C4. For each of the seventeen error kinds of the specification, the
    copy of [String] that has seventeen names (src/unnamed/part_000)
    applied to the kind's code returns "Err" followed by the kind's name.
    The copy of src/pkg/errorcode_string.go has sixteen names and no
    login-key kind: it returns "Err" followed by the kind's name for each
    of the sixteen other kinds, those listed after InvalidLoginKey at the
    code one lower, and returns "ErrInvalidLoginKey" for no [int]. *)
Theorem String_of_kind (k : PkgLoginKey.ErrorKind) :
  PkgLoginKey.String (PkgLoginKey.kind_code k)
  = Done ("Err" +:+ PkgLoginKey.kind_name k) /\
  (k <> PkgLoginKey.InvalidLoginKey ->
   let c := PkgLoginKey.kind_code k in
   Pkg.String (if c <? 4 then c else c - 1)
   = Done ("Err" +:+ PkgLoginKey.kind_name k)) /\
  (forall v,
     is_int v ->
     Pkg.String v
     <> Done ("Err" +:+ PkgLoginKey.kind_name PkgLoginKey.InvalidLoginKey)).
Proof.
  split; [apply PkgLoginKey_String_of_kind|].
  split; [apply Pkg_String_of_kind | apply Pkg_String_no_login_key].
Qed.

Lemma String_of_kind_witness :
  PkgLoginKey.Unknown <> PkgLoginKey.InvalidLoginKey /\
  is_int 4 /\
  PkgLoginKey.String 17 = Done "ErrUnknown" /\
  Pkg.String 16 = Done "ErrUnknown" /\
  Pkg.String 4 <> Done "ErrInvalidLoginKey".
Proof.
  assert (Hk : PkgLoginKey.Unknown <> PkgLoginKey.InvalidLoginKey) by discriminate.
  assert (Hv : is_int 4) by (unfold is_int, int_min, int_max; lia).
  split; [exact Hk|]. split; [exact Hv|].
  destruct (String_of_kind PkgLoginKey.Unknown) as (Hnew & Hold & Hnone).
  split; [exact Hnew|]. split; [exact (Hold Hk) | exact (Hnone 4 Hv)].
Defined.

(** C4, as stated, fails of src/pkg/errorcode_string.go: applied to the code
    of InvalidLoginKey, the fourth kind of the specification's list, this
    copy of [String] returns the name of the fifth, and it returns
    "ErrInvalidLoginKey" for no [int] whatever. *)
Lemma String_lacks_InvalidLoginKey :
  Pkg.String (PkgLoginKey.kind_code PkgLoginKey.InvalidLoginKey)
  = Done "ErrNotRegistered" /\
  forall v,
    is_int v ->
    Pkg.String v
    <> Done ("Err" +:+ PkgLoginKey.kind_name PkgLoginKey.InvalidLoginKey).
Proof. split; [reflexivity | apply Pkg_String_no_login_key]. Qed.
End ErrorCodeFacts.

(** ** Loops of persist.go *)

Section LoopFacts.
Context `{Externals}.
Import OS Persist Props.

Lemma range_persist_friends_spec (friends : gmap string (ptr Friend.t)) :
  match range_persist_friends friends with
  | Done st_Friends =>
      no_nil_value friends
      /\ st_Friends = fmap (M := option) persisted_friend <$> friends
  | Panic msg => msg = "nil pointer dereference" /\ ~ no_nil_value friends
  end.
Proof.
  unfold range_persist_friends, no_nil_value.
  apply (map_fold_weak_ind
           (fun r (m : gmap string (ptr Friend.t)) =>
              match r with
              | Done m' => map_Forall (fun _ v => is_Some v) m
                           /\ m' = fmap (M := option) persisted_friend <$> m
              | Panic msg => msg = "nil pointer dereference"
                             /\ ~ map_Forall (fun _ v => is_Some v) m
              end)).
  - split; [apply map_Forall_empty | by rewrite fmap_empty].
  - intros i x m r Hi IH. destruct r as [m'|msg]; simpl.
    + destruct IH as [Hall ->]. destruct x as [f|]; simpl.
      * split; [apply map_Forall_insert_2; eauto | by rewrite fmap_insert].
      * split; [done|]. intros Hins. specialize (Hins i None).
        rewrite lookup_insert_eq in Hins. by destruct (Hins eq_refl).
    + destruct IH as [-> IH]. split; [done|].
      intros Hins. apply IH. intros k v Hk. apply (Hins k).
      rewrite lookup_insert_ne; [done | congruence].
Qed.

Lemma range_load_friends_spec (c : addr) (friends : gmap string (ptr persistedFriend.t)) :
  match range_load_friends c friends with
  | Done c_friends =>
      no_nil_value friends
      /\ c_friends = fmap (M := option) (loaded_friend c) <$> friends
  | Panic msg => msg = "nil pointer dereference" /\ ~ no_nil_value friends
  end.
Proof.
  unfold range_load_friends, no_nil_value.
  apply (map_fold_weak_ind
           (fun r (m : gmap string (ptr persistedFriend.t)) =>
              match r with
              | Done m' => map_Forall (fun _ v => is_Some v) m
                           /\ m' = fmap (M := option) (loaded_friend c) <$> m
              | Panic msg => msg = "nil pointer dereference"
                             /\ ~ map_Forall (fun _ v => is_Some v) m
              end)).
  - split; [apply map_Forall_empty | by rewrite fmap_empty].
  - intros i x m r Hi IH. destruct r as [m'|msg]; simpl.
    + destruct IH as [Hall ->]. destruct x as [f|]; simpl.
      * split; [apply map_Forall_insert_2; eauto | by rewrite fmap_insert].
      * split; [done|]. intros Hins. specialize (Hins i None).
        rewrite lookup_insert_eq in Hins. by destruct (Hins eq_refl).
    + destruct IH as [-> IH]. split; [done|].
      intros Hins. apply IH. intros k v Hk. apply (Hins k).
      rewrite lookup_insert_ne; [done | congruence].
Qed.

Lemma range_set_client_spec {F} (c : addr) (reqs : slice (ptr (Request.t F))) :
  match range_set_client c reqs with
  | Done reqs' => no_nil reqs /\ reqs' = redirect (Some c) reqs
  | Panic msg => msg = "nil pointer dereference" /\ ~ no_nil reqs
  end.
Proof.
  unfold range_set_client, no_nil, redirect. destruct reqs as [l|]; simpl.
  2: { split; [constructor | done]. }
  induction l as [|[r|] l IH]; simpl.
  - split; [constructor | done].
  - destruct (outcome_mapM _ l) as [l'|msg]; simpl in *.
    + destruct IH as [Hall Heq]. split; [constructor; eauto|].
      by simplify_eq.
    + destruct IH as [-> IH]. split; [done|].
      intros Hall. apply IH. by inversion Hall.
  - split; [done|]. intros Hall. inversion Hall as [|? ? Hnil]. by destruct Hnil.
Qed.
End LoopFacts.

(** ** Persisting *)

Section PersistFacts.
Context `{Externals}.
Import OS Persist Props.

Lemma persistKeywheelLocked_returns (c : Client.t) (w : World) :
  exists e w', persistKeywheelLocked c w = (Done e, w').
Proof.
  unfold persistKeywheelLocked. case_decide; [by eexists _, _|].
  destruct (Wheel_MarshalBinary _); [|by eexists _, _].
  unfold WriteFileAtomic. destruct (write_fault _ !! _); by eexists _, _.
Qed.

(** With no nil friend pointer the loop of [persistClientLocked] builds the
    friends of [persisted c]. *)
Lemma persistClientLocked_unfold (c : Client.t) (w : World) :
  Client.ClientPersistPath c <> EmptyString ->
  no_nil_value (Client.friends c) ->
  persistClientLocked c w =
    match JSON.MarshalIndent (persisted c) "" "  " with
    | Err err => (Done (Some err), w)
    | Ok data => WriteFileAtomic (Client.ClientPersistPath c) data (octal 6 0 0) w
    end.
Proof.
  intros Hpath Hfriends. unfold persistClientLocked. case_decide; [done|].
  unfold bind, lift.
  pose proof (range_persist_friends_spec (Client.friends c)) as Hloop.
  destruct (range_persist_friends (Client.friends c)) as [st_Friends|msg];
    [|by destruct Hloop].
  destruct Hloop as [_ ->]. fold (persisted c).
  by destruct (JSON.MarshalIndent (persisted c) "" "  ").
Qed.

Lemma persistClientLocked_returns (c : Client.t) (w : World) :
  no_nil_value (Client.friends c) ->
  exists e w', persistClientLocked c w = (Done e, w').
Proof.
  intros Hfriends.
  destruct (decide (Client.ClientPersistPath c = EmptyString)) as [Hempty|Hpath].
  - unfold persistClientLocked. rewrite decide_True by done. by eexists _, _.
  - rewrite persistClientLocked_unfold by done.
    destruct (JSON.MarshalIndent _ _ _); [|by eexists _, _].
    unfold WriteFileAtomic. destruct (write_fault _ !! _); by eexists _, _.
Qed.

(** C6. With an empty [ClientPersistPath] (respectively
    [KeywheelPersistPath]) [persistClientLocked] (respectively
    [persistKeywheelLocked]) returns nil and leaves the world as it was: no
    file is written and no write is attempted. *)
Theorem persist_empty_path_is_noop (c : Client.t) (w : World) :
  (Client.ClientPersistPath c = EmptyString ->
   persistClientLocked c w = (Done None, w)) /\
  (Client.KeywheelPersistPath c = EmptyString ->
   persistKeywheelLocked c w = (Done None, w)).
Proof.
  split; intros Hempty.
  - unfold persistClientLocked. by rewrite decide_True.
  - unfold persistKeywheelLocked. by rewrite decide_True.
Qed.

(** A write to the keywheel path is attempted whenever the path is set and
    the wheel marshals. *)
Lemma persistKeywheelLocked_attempt (c : Client.t) (w : World) (data : list byte) :
  Client.KeywheelPersistPath c <> EmptyString ->
  Wheel_MarshalBinary (Client.wheel c) = Ok data ->
  exists e w',
    persistKeywheelLocked c w = (Done e, w') /\
    trace w' = trace w
               ++ [EvWriteFileAtomic (Client.KeywheelPersistPath c) data (octal 6 0 0)].
Proof.
  intros Hpath Hdata. unfold persistKeywheelLocked.
  rewrite decide_False by done. rewrite Hdata. unfold WriteFileAtomic.
  simpl. destruct (write_fault w !! _); by eexists _, _.
Qed.

(** [persistLocked] is its two sub-operations in sequence, keeping the first
    error. *)
Lemma persistLocked_sequence (c : Client.t) (w : World) :
  no_nil_value (Client.friends c) ->
  exists err w1 e w2,
    persistClientLocked c w = (Done err, w1) /\
    persistKeywheelLocked c w1 = (Done e, w2) /\
    persistLocked c w = (Done (first_error err e), w2).
Proof.
  intros Hfriends.
  destruct (persistClientLocked_returns c w Hfriends) as (err & w1 & Hclient).
  destruct (persistKeywheelLocked_returns c w1) as (e & w2 & Hwheel).
  exists err, w1, e, w2. split; [done|]. split; [done|].
  unfold persistLocked, bind, ret. rewrite Hclient, Hwheel. by destruct err.
Qed.

(** C3. [persistLocked] runs both sub-operations in every case: whatever
    [persistClientLocked] returns, [persistKeywheelLocked] runs next, on the
    world the first left, and the result is the first error (the client-blob
    error if there is one, otherwise the keywheel error, otherwise nil).  In
    particular, when the keywheel path is set and the wheel marshals, the
    keywheel write is the last call in the trace even if the client-blob
    write failed. *)
Theorem persistLocked_attempts_both (c : Client.t) (w : World) :
  no_nil_value (Client.friends c) ->
  exists err w1 e w2,
    persistClientLocked c w = (Done err, w1) /\
    persistKeywheelLocked c w1 = (Done e, w2) /\
    persistLocked c w = (Done (first_error err e), w2) /\
    (forall data,
       Client.KeywheelPersistPath c <> EmptyString ->
       Wheel_MarshalBinary (Client.wheel c) = Ok data ->
       trace w2 = trace w1
                  ++ [EvWriteFileAtomic (Client.KeywheelPersistPath c) data (octal 6 0 0)]).
Proof.
  intros Hfriends.
  destruct (persistLocked_sequence c w Hfriends)
    as (err & w1 & e & w2 & Hclient & Hwheel & Hboth).
  exists err, w1, e, w2. split; [done|]. split; [done|]. split; [done|].
  intros data Hpath Hdata.
  destruct (persistKeywheelLocked_attempt c w1 data Hpath Hdata)
    as (e' & w2' & Hrun & Htrace).
  rewrite Hwheel in Hrun. by simplify_eq.
Qed.
End PersistFacts.

(** ** The client blob *)

Section BlobFacts.
Context `{Externals}.
Import OS Persist Props JSON.

Lemma persistedFriend_toJSON_eq (f : persistedFriend.t) :
  persistedFriend_toJSON f = Ok (friend_json f).
Proof. reflexivity. Qed.

Lemma friends_toJSON (l : list (string * ptr persistedFriend.t)) :
  Forall (fun kv => is_Some (snd kv)) l ->
  exists friends,
    result_mapM
      (fun kv => result_map (pair (fst kv))
                   (ptr_toJSON persistedFriend_toJSON (snd kv))) l
    = Ok friends /\
    Forall2 stores_friend l friends.
Proof.
  induction 1 as [|[k v] l Hv _ (friends & IH & Hall)]; simpl in *.
  - by exists [].
  - destruct Hv as [f ->]. cbn [snd fst ptr_toJSON]. rewrite persistedFriend_toJSON_eq.
    simpl. rewrite IH. simpl.
    eexists. split; [done|]. constructor; [|done]. by exists f.
Qed.

Lemma map_toJSON_friends (m : gmap string (ptr persistedFriend.t)) :
  no_nil_value m ->
  exists friends,
    map_toJSON (ptr_toJSON persistedFriend_toJSON) m = Ok (JObject friends) /\
    Forall2 stores_friend (sorted_entries m) friends.
Proof.
  intros Hm. unfold map_toJSON.
  destruct (friends_toJSON (sorted_entries m)) as (friends & -> & Hall).
  - unfold sorted_entries. rewrite merge_sort_Permutation.
    apply map_Forall_to_list in Hm.
    eapply Forall_impl; [exact Hm|]. by intros [k v].
  - by exists friends.
Qed.

Lemma persisted_no_nil_value (c : Client.t) :
  no_nil_value (Client.friends c) ->
  no_nil_value (persistedState.Friends (persisted c)).
Proof.
  unfold no_nil_value. simpl. intros Hc k v.
  rewrite lookup_fmap. destruct (Client.friends c !! k) as [friend|] eqn:Hk; [|done].
  simpl. intros [= <-]. destruct (Hc k friend Hk) as [f ->]. by eexists.
Qed.

Lemma persisted_toJSON_shape (c : Client.t) (j : json) :
  no_nil_value (Client.friends c) ->
  toJSON (persisted c) = Ok j -> client_blob_object c j.
Proof.
  intros Hfriends. simpl. unfold persistedState_toJSON, string_toJSON, bytes_toJSON.
  simpl.
  destruct (ptr_toJSON toJSON (Client.addFriendConfig c)) as [addFriendConfig|];
    [simpl|done].
  destruct (ptr_toJSON toJSON (Client.dialingConfig c)) as [dialingConfig|];
    [simpl|done].
  destruct (slice_toJSON (ptr_toJSON Request_toJSON) (Client.incomingFriendRequests c))
    as [incoming|]; [simpl|done].
  destruct (slice_toJSON (ptr_toJSON Request_toJSON) (Client.outgoingFriendRequests c))
    as [outgoing|]; [simpl|done].
  destruct (slice_toJSON (ptr_toJSON Request_toJSON) (Client.sentFriendRequests c))
    as [sent|]; [simpl|done].
  destruct (map_toJSON_friends (persistedState.Friends (persisted c)))
    as (friends & Hjson & Hall); [by apply persisted_no_nil_value|].
  simpl in Hjson. rewrite Hjson. simpl. intros [= <-].
  by exists addFriendConfig, dialingConfig, incoming, outgoing, sent, friends.
Qed.

End BlobFacts.

(** ** Loading *)

Section LoadFacts.
Context `{Externals}.
Import OS Persist Props JSON.

Lemma loadStateLocked_spec (c : addr) (this : Client.t) (st : persistedState.t) :
  match loadStateLocked c this st with
  | Done this' =>
      loadable st /\
      exists addFriendConfigHash dialingConfigHash,
        SignedConfig_Hash (persistedState.AddFriendConfig st) = Done addFriendConfigHash /\
        SignedConfig_Hash (persistedState.DialingConfig st) = Done dialingConfigHash /\
        this' = loaded c this st addFriendConfigHash dialingConfigHash
  | Panic _ => ~ loadable st
  end.
Proof.
  unfold loadStateLocked, loadable, returns.
  destruct (SignedConfig_Hash (persistedState.AddFriendConfig st)) as [h1|msg]; simpl;
    [|by intros [[? ?] _]].
  destruct (SignedConfig_Hash (persistedState.DialingConfig st)) as [h2|msg]; simpl;
    [|by intros (_ & [? ?] & _)].
  pose proof (range_set_client_spec c (persistedState.IncomingFriendRequests st)) as Hin.
  destruct (range_set_client c (persistedState.IncomingFriendRequests st));
    simpl; [|intros Hl; apply Hin, Hl].
  pose proof (range_set_client_spec c (persistedState.OutgoingFriendRequests st)) as Hout.
  destruct (range_set_client c (persistedState.OutgoingFriendRequests st));
    simpl; [|intros Hl; apply Hout, Hl].
  pose proof (range_set_client_spec c (persistedState.SentFriendRequests st)) as Hsent.
  destruct (range_set_client c (persistedState.SentFriendRequests st));
    simpl; [|intros Hl; apply Hsent, Hl].
  pose proof (range_load_friends_spec c (persistedState.Friends st)) as Hfriends.
  destruct (range_load_friends c (persistedState.Friends st));
    simpl; [|intros Hl; apply Hfriends, Hl].
  destruct Hin as [? ->], Hout as [? ->], Hsent as [? ->], Hfriends as [? ->].
  split; [by eauto 10|]. by exists h1, h2.
Qed.

Lemma loadStateLocked_returns (c : addr) (this : Client.t) (st : persistedState.t) :
  loadable st -> returns (loadStateLocked c this st).
Proof.
  intros Hst. pose proof (loadStateLocked_spec c this st) as Hspec.
  destruct (loadStateLocked c this st); [by eexists | done].
Qed.

Lemma redirect_refers_to {F} (c : addr) (reqs : slice (ptr (Request.t F))) :
  no_nil reqs -> Forall (refers_to c) (elems (redirect (Some c) reqs)).
Proof.
  unfold no_nil, redirect. destruct reqs as [l|]; simpl; [|constructor].
  induction 1 as [|req l [r ->] _ IH]; simpl; constructor; [|done].
  by eexists.
Qed.

Lemma loaded_back_references (c : addr) (this : Client.t) (st : persistedState.t)
    (h1 h2 : string) :
  no_nil (persistedState.IncomingFriendRequests st) ->
  no_nil (persistedState.OutgoingFriendRequests st) ->
  no_nil (persistedState.SentFriendRequests st) ->
  no_nil_value (persistedState.Friends st) ->
  back_references c (loaded c this st h1 h2).
Proof.
  intros Hin Hout Hsent Hfriends. unfold back_references. simpl.
  repeat split; try by apply redirect_refers_to.
  intros k friend. rewrite lookup_fmap.
  destruct (persistedState.Friends st !! k) as [v|] eqn:Hk; [|done].
  destruct (Hfriends k v Hk) as [f ->]. simpl. intros [= <-]. by eexists.
Qed.

(** Requests are encoded without their back-reference. *)
Lemma requests_toJSON_redirect {F} `{Codec F} (back : ptr addr)
    (reqs : slice (ptr (Request.t F))) :
  slice_toJSON (ptr_toJSON Request_toJSON) (redirect back reqs)
  = slice_toJSON (ptr_toJSON Request_toJSON) reqs.
Proof.
  unfold redirect. destruct reqs as [l|]; simpl; [|done]. f_equal.
  induction l as [|req l IH]; [done|].
  rewrite fmap_cons. cbn [result_mapM]. rewrite IH. by destruct req.
Qed.

Lemma persisted_friend_back_reference (back : ptr addr) (friends : gmap string (ptr Friend.t)) :
  fmap (M := option) persisted_friend
    <$> (fmap (M := option) (friend_with_back_reference back) <$> friends)
  = fmap (M := option) persisted_friend <$> friends.
Proof.
  apply map_eq. intros k. rewrite !lookup_fmap.
  by destruct (friends !! k) as [[f|]|].
Qed.

Lemma no_nil_value_fmap {A B} (f : A -> B) (m : gmap string (ptr A)) :
  no_nil_value (fmap (M := option) f <$> m) <-> no_nil_value m.
Proof.
  unfold no_nil_value. split; intros Hm k v Hk.
  - specialize (Hm k (f <$> v)). rewrite lookup_fmap, Hk in Hm.
    destruct (Hm eq_refl) as [b Hb]. destruct v; [by eexists | done].
  - rewrite lookup_fmap in Hk. destruct (m !! k) as [a|] eqn:Ha; [|done].
    simpl in Hk. simplify_eq. destruct (Hm k a Ha) as [x ->]. by eexists.
Qed.

Lemma persistClientLocked_back_reference (back : ptr addr) (c : Client.t) (w : World) :
  persistClientLocked (with_back_references back c) w = persistClientLocked c w.
Proof.
  unfold persistClientLocked, with_back_references. simpl.
  case_decide; [done|]. unfold bind, lift.
  pose proof (range_persist_friends_spec (Client.friends c)) as Hc.
  pose proof (range_persist_friends_spec
                (fmap (M := option) (friend_with_back_reference back)
                   <$> Client.friends c)) as Hb.
  destruct (range_persist_friends (Client.friends c)) as [m|msg],
    (range_persist_friends (_ <$> Client.friends c)) as [m'|msg'];
    rewrite no_nil_value_fmap in Hb.
  2: by destruct Hc as [Hc _], Hb as [_ Hb].
  2: by destruct Hc as [_ Hc], Hb as [Hb _].
  2: by destruct Hc as [-> _], Hb as [-> _].
  rewrite persisted_friend_back_reference in Hb.
  destruct Hc as [_ ->], Hb as [_ ->].
  unfold MarshalIndent. simpl. unfold persistedState_toJSON. simpl.
  by rewrite !requests_toJSON_redirect.
Qed.

(** C7. When [loadStateLocked] has run, every incoming, outgoing and sent
    request and every friend held by the client points back to the client;
    on a state without nil entries, such as a state decoded from a blob a
    client wrote, it does run to the end.  The persisted representation has
    no back-pointer: whatever the back-references of a client are,
    [persistClientLocked] writes the same bytes. *)
Theorem loadStateLocked_back_references (c : addr) (this : Client.t)
    (st : persistedState.t) :
  (forall this', loadStateLocked c this st = Done this' -> back_references c this') /\
  (loadable st -> returns (loadStateLocked c this st)) /\
  (forall back w,
     persistClientLocked (with_back_references back this) w
     = persistClientLocked this w).
Proof.
  split; [|split].
  - intros this' Hload. pose proof (loadStateLocked_spec c this st) as Hspec.
    rewrite Hload in Hspec.
    destruct Hspec as [(_ & _ & Hin & Hout & Hsent & Hfriends) (h1 & h2 & _ & _ & ->)].
    by apply loaded_back_references.
  - apply loadStateLocked_returns.
  - intros back w. apply persistClientLocked_back_reference.
Qed.
End LoadFacts.

(** ** [LoadClient] *)

Section LoadClientFacts.
Context `{Externals}.
Import OS Persist Props JSON.

(** What [LoadClient] returns, in terms of its four fallible steps. *)
Lemma LoadClient_outcome (clientPersistPath keywheelPersistPath : string) (w : World) :
  fst (LoadClient clientPersistPath keywheelPersistPath w) =
    match load_steps clientPersistPath keywheelPersistPath w with
    | Err err => Done (None, Some err)
    | Ok (st, wheel) =>
        outcome_bind
          (loadStateLocked (next_client w)
             (with_wheel (new_Client clientPersistPath keywheelPersistPath) wheel) st)
          (fun this => Done (Some (next_client w, this), None))
    end.
Proof.
  unfold LoadClient, load_steps, bind, ReadFile, ret, alloc, lift. simpl.
  destruct (files w !! clientPersistPath) as [clientFile|]; [simpl|done].
  destruct (Unmarshal (file_data clientFile)) as [st|err]; [simpl|done].
  destruct (files w !! keywheelPersistPath) as [keywheelFile|]; [simpl|done].
  destruct (Wheel_UnmarshalBinary Wheel_zero (file_data keywheelFile))
    as [wheel|err]; [simpl|done].
  by destruct (loadStateLocked _ _ st).
Qed.

(** [LoadClient] only reads. *)
Lemma LoadClient_files (clientPersistPath keywheelPersistPath : string) (w : World) :
  files (snd (LoadClient clientPersistPath keywheelPersistPath w)) = files w.
Proof.
  unfold LoadClient, bind, ReadFile, ret, alloc, lift. simpl.
  destruct (files w !! clientPersistPath) as [clientFile|]; [simpl|done].
  destruct (Unmarshal (file_data clientFile)) as [st|err]; [simpl|done].
  destruct (files w !! keywheelPersistPath) as [keywheelFile|]; [simpl|done].
  destruct (Wheel_UnmarshalBinary Wheel_zero (file_data keywheelFile))
    as [wheel|err]; [simpl|done].
  by destruct (loadStateLocked _ _ st).
Qed.

Lemma LoadClient_loadable (clientPersistPath keywheelPersistPath : string) (w : World)
    (st : persistedState.t) (wheel : Wheel) :
  load_steps clientPersistPath keywheelPersistPath w = Ok (st, wheel) ->
  loadable st ->
  exists addFriendConfigHash dialingConfigHash,
    SignedConfig_Hash (persistedState.AddFriendConfig st) = Done addFriendConfigHash /\
    SignedConfig_Hash (persistedState.DialingConfig st) = Done dialingConfigHash /\
    fst (LoadClient clientPersistPath keywheelPersistPath w)
    = Done (Some (next_client w,
                  loaded (next_client w)
                    (with_wheel (new_Client clientPersistPath keywheelPersistPath) wheel)
                    st addFriendConfigHash dialingConfigHash),
            None).
Proof.
  intros Hsteps Hst. rewrite LoadClient_outcome, Hsteps.
  pose proof (loadStateLocked_spec (next_client w)
                (with_wheel (new_Client clientPersistPath keywheelPersistPath) wheel) st)
    as Hspec.
  destruct (loadStateLocked _ _ st) as [this|msg]; [|done].
  destruct Hspec as [_ (h1 & h2 & Hh1 & Hh2 & ->)]. by exists h1, h2.
Qed.

(** C10, as the code has it.  [LoadClient] returns nil and the error of the
    step exactly when one of its four steps fails (reading the client file,
    decoding the client blob, reading the keywheel file, decoding the
    keywheel blob).  When the four succeed and the decoded state is
    loadable (no nil entry in its request lists or among its friends, and
    [Hash] returns on both configs), it returns a non-nil client and a nil
    error, and the client is the complete result of [loadStateLocked]: its
    back-references are set, its wheel is the decoded one and its paths are
    the arguments.  When the decoded state is not loadable the call panics
    and returns nothing.  A partially initialised client is never
    returned. *)
Theorem LoadClient_result (clientPersistPath keywheelPersistPath : string) (w : World) :
  let r := fst (LoadClient clientPersistPath keywheelPersistPath w) in
  match load_steps clientPersistPath keywheelPersistPath w with
  | Err err => r = Done (None, Some err)
  | Ok (st, wheel) =>
      (loadable st ->
       exists this,
         r = Done (Some (next_client w, this), None) /\
         loadStateLocked (next_client w)
           (with_wheel (new_Client clientPersistPath keywheelPersistPath) wheel) st
         = Done this /\
         back_references (next_client w) this /\
         Client.wheel this = wheel /\
         Client.ClientPersistPath this = clientPersistPath /\
         Client.KeywheelPersistPath this = keywheelPersistPath) /\
      (~ loadable st -> exists msg, r = Panic msg)
  end.
Proof.
  cbn zeta. rewrite LoadClient_outcome.
  destruct (load_steps clientPersistPath keywheelPersistPath w) as [[st wheel]|err];
    [|done].
  pose proof (loadStateLocked_spec (next_client w)
                (with_wheel (new_Client clientPersistPath keywheelPersistPath) wheel) st)
    as Hspec.
  destruct (loadStateLocked _ _ st) as [this|msg]; simpl.
  - destruct Hspec as [Hst (h1 & h2 & _ & _ & ->)]. split; [|done].
    intros _. eexists. split; [done|]. split; [done|].
    destruct Hst as (_ & _ & ? & ? & ? & ?).
    split; [by apply loaded_back_references | done].
  - split; [done|]. intros _. by eexists.
Qed.

(** C2, as the code has it.  [LoadClient] does not verify the configs of the
    client blob.  An error it returns is the error of one of the four steps
    (a file that cannot be read, a blob that cannot be decoded), and whenever
    the four steps succeed on a loadable state the configs of the blob are
    installed as they are, whatever they contain, together with their
    recomputed hashes. *)
Theorem LoadClient_installs_configs (clientPersistPath keywheelPersistPath : string)
    (w : World) :
  let r := fst (LoadClient clientPersistPath keywheelPersistPath w) in
  (forall p err, r = Done (p, Some err) ->
     p = None /\ load_steps clientPersistPath keywheelPersistPath w = Err err) /\
  (forall st wheel,
     load_steps clientPersistPath keywheelPersistPath w = Ok (st, wheel) ->
     loadable st ->
     exists c this,
       r = Done (Some (c, this), None) /\
       Client.addFriendConfig this = persistedState.AddFriendConfig st /\
       Client.dialingConfig this = persistedState.DialingConfig st /\
       SignedConfig_Hash (persistedState.AddFriendConfig st)
         = Done (Client.addFriendConfigHash this) /\
       SignedConfig_Hash (persistedState.DialingConfig st)
         = Done (Client.dialingConfigHash this)).
Proof.
  cbn zeta. split.
  - intros p err. rewrite LoadClient_outcome.
    destruct (load_steps clientPersistPath keywheelPersistPath w) as [[st wheel]|e].
    + by destruct (loadStateLocked _ _ st).
    + by intros [= <- <-].
  - intros st wheel Hsteps Hst.
    destruct (LoadClient_loadable _ _ _ _ _ Hsteps Hst) as (h1 & h2 & Hh1 & Hh2 & ->).
    by eexists _, _.
Qed.
End LoadClientFacts.

(** ** Persisting, then loading *)

Section RoundTripFacts.
Context `{Externals}.
Import OS Persist Props JSON.

Lemma WriteFileAtomic_success (path : string) (data : list byte) (perm : Z)
    (w w' : World) :
  WriteFileAtomic path data perm w = (Done None, w') ->
  files w' = <[path := {| file_data := data; file_mode := perm |}]> (files w).
Proof.
  unfold WriteFileAtomic. simpl.
  destruct (write_fault w !! path); intros [= <-]; done.
Qed.

Lemma persistClientLocked_success (c : Client.t) (w w' : World) :
  Client.ClientPersistPath c <> EmptyString ->
  no_nil_value (Client.friends c) ->
  persistClientLocked c w = (Done None, w') ->
  exists data,
    MarshalIndent (persisted c) "" "  " = Ok data /\
    files w' = <[Client.ClientPersistPath c :=
                   {| file_data := data; file_mode := octal 6 0 0 |}]> (files w).
Proof.
  intros Hpath Hfriends. rewrite persistClientLocked_unfold by done.
  destruct (MarshalIndent (persisted c) "" "  ") as [data|err]; [|done].
  intros Hwrite. exists data. split; [done|]. by apply WriteFileAtomic_success.
Qed.

Lemma persistKeywheelLocked_success (c : Client.t) (w w' : World) :
  Client.KeywheelPersistPath c <> EmptyString ->
  persistKeywheelLocked c w = (Done None, w') ->
  exists data,
    Wheel_MarshalBinary (Client.wheel c) = Ok data /\
    files w' = <[Client.KeywheelPersistPath c :=
                   {| file_data := data; file_mode := octal 6 0 0 |}]> (files w).
Proof.
  intros Hpath. unfold persistKeywheelLocked. rewrite decide_False by done.
  destruct (Wheel_MarshalBinary (Client.wheel c)) as [data|err]; [|done].
  intros Hwrite. exists data. split; [done|]. by apply WriteFileAtomic_success.
Qed.

Lemma back_references_no_nil (c : addr) (this : Client.t) :
  back_references c this ->
  no_nil (Client.incomingFriendRequests this) /\
  no_nil (Client.outgoingFriendRequests this) /\
  no_nil (Client.sentFriendRequests this) /\
  no_nil_value (Client.friends this).
Proof.
  intros (Hin & Hout & Hsent & Hfriends). unfold no_nil.
  repeat split.
  1-3: eapply Forall_impl; [eassumption|]; intros req (r & -> & _); by eexists.
  intros k friend Hk. destruct (Hfriends k friend Hk) as (f & -> & _). by eexists.
Qed.

Lemma no_nil_redirect {F} (back : ptr addr) (reqs : slice (ptr (Request.t F))) :
  no_nil reqs -> no_nil (redirect back reqs).
Proof.
  unfold no_nil, redirect. destruct reqs as [l|]; [|done]. simpl.
  induction 1 as [|req l [r ->] _ IH]; rewrite ?fmap_cons; constructor;
    [by eexists | done].
Qed.

Lemma request_fields_redirect {F} (back : ptr addr) (reqs : slice (ptr (Request.t F))) :
  request_fields (redirect back reqs) = request_fields reqs.
Proof.
  unfold request_fields, redirect. destruct reqs as [l|]; [|done]. simpl. f_equal.
  induction l as [|[r|] l IH]; [done| |]; rewrite !fmap_cons; by f_equal.
Qed.

Lemma friend_fields_loaded (c : addr) (friends : gmap string (ptr Friend.t)) :
  fmap (M := option) friend_fields
    <$> (fmap (M := option) (loaded_friend c)
           <$> (fmap (M := option) persisted_friend <$> friends))
  = fmap (M := option) friend_fields <$> friends.
Proof.
  apply map_eq. intros k. rewrite !lookup_fmap.
  by destruct (friends !! k) as [[f|]|].
Qed.

Lemma persisted_loaded_friends (c : addr) (friends : gmap string (ptr persistedFriend.t)) :
  fmap (M := option) persisted_friend
    <$> (fmap (M := option) (loaded_friend c) <$> friends)
  = friends.
Proof.
  apply map_eq. intros k. rewrite !lookup_fmap.
  by destruct (friends !! k) as [[[]|]|].
Qed.

(** Let [this] be a client in use with two distinct persist paths, and let
    [persistLocked] succeed on it.  Whenever the blob it wrote decodes to
    the state it encoded (with nil back-references, which are not encoded),
    and the keywheel blob to the keywheel, [LoadClient] on the two files
    returns a client that equals [this] up to the in-memory fields; the
    wheel is restored and the back-references point to the new client. *)
Lemma LoadClient_after_persist_when_decoded (c : addr) (this : Client.t) (w w' : World) :
  reachable c this ->
  Client.ClientPersistPath this <> EmptyString ->
  Client.KeywheelPersistPath this <> EmptyString ->
  Client.ClientPersistPath this <> Client.KeywheelPersistPath this ->
  persistLocked this w = (Done None, w') ->
  (forall data,
     MarshalIndent (persisted this) "" "  " = Ok data ->
     Unmarshal data = Ok (persisted (with_back_references None this))) ->
  (forall data,
     Wheel_MarshalBinary (Client.wheel this) = Ok data ->
     Wheel_UnmarshalBinary Wheel_zero data = Ok (Client.wheel this)) ->
  exists this',
    fst (LoadClient (Client.ClientPersistPath this) (Client.KeywheelPersistPath this) w')
    = Done (Some (next_client w', this'), None) /\
    same_persisted this this' /\
    Client.wheel this' = Client.wheel this /\
    back_references (next_client w') this'.
Proof.
  intros (Hh1 & Hh2 & Hback) Hcp Hkp Hne Hpersist Hjson Hwheel.
  destruct (back_references_no_nil c this Hback) as (Hin & Hout & Hsent & Hfriends).
  destruct (persistLocked_sequence this w Hfriends)
    as (err & w1 & e & w2 & Hclient & Hkeywheel & Hboth).
  rewrite Hpersist in Hboth.
  assert (err = None /\ e = None /\ w2 = w') as (-> & -> & ->).
  { destruct err, e; simpl in Hboth; by simplify_eq. }
  destruct (persistClientLocked_success this w w1 Hcp Hfriends Hclient)
    as (blob & Hblob & Hfiles1).
  destruct (persistKeywheelLocked_success this w1 w' Hkp Hkeywheel)
    as (wblob & Hwblob & Hfiles2).
  assert (Hsteps : load_steps (Client.ClientPersistPath this)
                     (Client.KeywheelPersistPath this) w'
                   = Ok (persisted (with_back_references None this), Client.wheel this)).
  { unfold load_steps. rewrite Hfiles2, Hfiles1.
    rewrite lookup_insert_ne, lookup_insert_eq by done. simpl.
    rewrite (Hjson blob Hblob). simpl. rewrite lookup_insert_eq. simpl.
    by rewrite (Hwheel wblob Hwblob). }
  assert (Hloadable : loadable (persisted (with_back_references None this))).
  { repeat split; simpl; try (by eexists); try (by apply no_nil_redirect).
    by apply no_nil_value_fmap, no_nil_value_fmap. }
  destruct (LoadClient_loadable _ _ _ _ _ Hsteps Hloadable)
    as (h1 & h2 & Hh1' & Hh2' & Hload).
  simpl in Hh1', Hh2'. rewrite Hh1 in Hh1'. rewrite Hh2 in Hh2'.
  injection Hh1' as <-. injection Hh2' as <-.
  destruct Hloadable as (_ & _ & ? & ? & ? & ?).
  eexists. split; [exact Hload|]. split; [|split].
  - unfold same_persisted. simpl. rewrite !request_fields_redirect.
    by rewrite persisted_friend_back_reference, friend_fields_loaded.
  - done.
  - by apply loaded_back_references.
Qed.

(** The encoding of a loaded client is the encoding of the state it was
    loaded from. *)
Lemma persisted_loaded_toJSON (c : addr) (this : Client.t) (st : persistedState.t)
    (h1 h2 : string) :
  toJSON (persisted (loaded c this st h1 h2)) = toJSON st.
Proof.
  simpl. unfold persistedState_toJSON. simpl.
  by rewrite !requests_toJSON_redirect, persisted_loaded_friends.
Qed.
End RoundTripFacts.

(** ** The code run on a client *)

Section Runs.
Import OS Persist Props JSON Example.
#[local] Existing Instance Model.types.
#[local] Existing Instance Model.externals.

Lemma Ok_inj {A} (a b : A) : Ok a = Ok b -> a = b.
Proof. by intros [= ->]. Qed.

Lemma bob_with_friends addFriendConfig dialingConfig clientPath keywheelPath incoming :
  no_nil_value
    (Client.friends
       (bob_with addFriendConfig dialingConfig clientPath keywheelPath incoming)).
Proof. apply map_Forall_singleton. by eexists. Qed.

Lemma bob_reachable : reachable bob_addr bob.
Proof.
  split; [reflexivity|]. split; [reflexivity|].
  repeat split; try (repeat constructor; by eexists).
  apply map_Forall_singleton. by eexists.
Qed.

Lemma bob_decoded_loadable : loadable bob_decoded.
Proof.
  repeat split; try (by eexists); try (repeat constructor; by eexists).
  apply (persisted_no_nil_value (with_back_references None bob)).
  apply (no_nil_value_fmap (friend_with_back_reference None)), bob_with_friends.
Qed.

Lemma bob_marshal : MarshalIndent (persisted bob) "" "  " = Ok bob_blob.
Proof. vm_compute. reflexivity. Qed.

Lemma bob_unmarshal : Unmarshal bob_blob = Ok bob_decoded.
Proof. vm_compute. reflexivity. Qed.

Lemma bob_decoded_marshal : MarshalIndent bob_decoded "" "  " = Ok bob_blob.
Proof. vm_compute. reflexivity. Qed.

Lemma bob_persistLocked : persistLocked bob empty_disk = (Done None, disk_of bob).
Proof. vm_compute. reflexivity. Qed.

Lemma bob_persistClientLocked :
  persistClientLocked bob empty_disk
  = (Done None, snd (persistClientLocked bob empty_disk)).
Proof. vm_compute. reflexivity. Qed.

Lemma bob_load_steps :
  load_steps "bob-client" "bob-keywheel" (disk_of bob)
  = Ok (bob_decoded, Client.wheel bob).
Proof. vm_compute. reflexivity. Qed.

Lemma bob_unverified_load_steps :
  load_steps "bob-client" "bob-keywheel" (disk_of bob_unverified)
  = Ok (persisted (with_back_references None bob_unverified),
        Client.wheel bob_unverified).
Proof. vm_compute. reflexivity. Qed.

Lemma bob_unverified_loadable :
  loadable (persisted (with_back_references None bob_unverified)).
Proof.
  repeat split; try (by eexists); try (repeat constructor; by eexists).
  apply (persisted_no_nil_value (with_back_references None bob_unverified)).
  apply (no_nil_value_fmap (friend_with_back_reference None)), bob_with_friends.
Qed.

Lemma persist_empty_path_is_noop_witness :
  Client.ClientPersistPath bob_in_memory = EmptyString /\
  Client.KeywheelPersistPath bob_in_memory = EmptyString /\
  persistClientLocked bob_in_memory empty_disk = (Done None, empty_disk) /\
  persistKeywheelLocked bob_in_memory empty_disk = (Done None, empty_disk).
Proof.
  destruct (persist_empty_path_is_noop bob_in_memory empty_disk) as [Hclient Hwheel].
  split; [reflexivity|]. split; [reflexivity|].
  split; [apply Hclient | apply Hwheel]; reflexivity.
Defined.

Lemma persistLocked_attempts_both_witness :
  no_nil_value (Client.friends bob) /\
  exists err w1 e w2,
    persistClientLocked bob client_blob_read_only = (Done err, w1) /\
    persistKeywheelLocked bob w1 = (Done e, w2) /\
    persistLocked bob client_blob_read_only = (Done (first_error err e), w2) /\
    (forall data,
       Client.KeywheelPersistPath bob <> EmptyString ->
       Wheel_MarshalBinary (Client.wheel bob) = Ok data ->
       trace w2 = trace w1
                  ++ [EvWriteFileAtomic (Client.KeywheelPersistPath bob) data (octal 6 0 0)]).
Proof.
  split; [apply bob_with_friends|].
  apply persistLocked_attempts_both, bob_with_friends.
Defined.

(** On a disk where the client blob cannot be written, [persistLocked]
    returns the error of the client-blob write, and the keywheel has been
    written all the same. *)
Example persistLocked_failed_client_write :
  let r := persistLocked bob client_blob_read_only in
  fst r = Done (Some "open bob-client: permission denied") /\
  files (snd r) !! "bob-client" = None /\
  file_data <$> files (snd r) !! "bob-keywheel"
    = match Wheel_MarshalBinary (Client.wheel bob) with
      | Ok data => Some data
      | Err _ => None
      end /\
  length (trace (snd r)) = 2%nat.
Proof. vm_compute. repeat split; reflexivity. Qed.


(** The first lines of the blob Bob writes: two spaces of indent per
    level. *)
Example bob_blob_starts :
  exists rest,
    string_of_list_byte bob_blob
    = String "{" (String newline ("  " +:+ quoted "Username" +:+ ": "
        +:+ quoted "bob@example.org" +:+ String "," (String newline
          ("  " +:+ quoted "LongTermPublicKey" +:+ ": " +:+ rest)))).
Proof. eexists. vm_compute. reflexivity. Qed.

Lemma loadStateLocked_back_references_witness :
  loadable bob_decoded /\
  exists this',
    loadStateLocked 2%positive (new_Client "bob-client" "bob-keywheel") bob_decoded
    = Done this' /\
    back_references 2%positive this'.
Proof.
  split; [exact bob_decoded_loadable|].
  destruct (loadStateLocked_back_references 2%positive
              (new_Client "bob-client" "bob-keywheel") bob_decoded)
    as (Hback & Hreturns & _).
  destruct (Hreturns bob_decoded_loadable) as [this' Hthis']. exists this'.
  split; [exact Hthis' | exact (Hback this' Hthis')].
Defined.

(** C2, as stated, fails: the configs of this blob do not verify (nobody
    signed them, whatever the signature check, and whether or not a head is
    stored), and [LoadClient] returns a client that holds them, with a nil
    error. *)
Lemma LoadClient_accepts_unverified_configs :
  (forall signed service,
     Model.verify signed service None (unsigned_config "AddFriend")
     = Err "signature does not verify" /\
     Model.verify signed service (Some (config "AddFriend")) (unsigned_config "AddFriend")
     = Err "signature does not verify") /\
  exists c this,
    fst (LoadClient "bob-client" "bob-keywheel" (disk_of bob_unverified))
    = Done (Some (c, this), None) /\
    Client.addFriendConfig this = Some (unsigned_config "AddFriend") /\
    Client.dialingConfig this = Some (unsigned_config "Dialing").
Proof.
  split; [intros signed service; split; reflexivity|].
  destruct (LoadClient_loadable _ _ _ _ _ bob_unverified_load_steps
              bob_unverified_loadable) as (h1 & h2 & _ & _ & Hload).
  eexists _, _. split; [exact Hload|]. split; reflexivity.
Qed.

Lemma LoadClient_installs_configs_witness :
  exists c this,
    fst (LoadClient "bob-client" "bob-keywheel" (disk_of bob_unverified))
    = Done (Some (c, this), None) /\
    Client.addFriendConfig this = Some (unsigned_config "AddFriend") /\
    SignedConfig_Hash (Some (unsigned_config "AddFriend"))
    = Done (Client.addFriendConfigHash this).
Proof.
  destruct (LoadClient_installs_configs "bob-client" "bob-keywheel"
              (disk_of bob_unverified)) as [_ Hinstall].
  destruct (Hinstall _ _ bob_unverified_load_steps bob_unverified_loadable)
    as (c & this & Hr & Haf & _ & Hhash & _).
  exists c, this. split; [exact Hr|]. split; [exact Haf | exact Hhash].
Defined.

(** C10, as stated, fails: on this disk the two files are read and both
    blobs decode, but the array IncomingFriendRequests of the client blob
    holds null, and [LoadClient] panics on the nil request instead of
    returning a client. *)
Lemma LoadClient_panics_on_null_request :
  (exists st wheel,
     load_steps "bob-client" "bob-keywheel" (disk_of bob_with_nil_request)
     = Ok (st, wheel) /\
     persistedState.IncomingFriendRequests st = Some [None]) /\
  fst (LoadClient "bob-client" "bob-keywheel" (disk_of bob_with_nil_request))
  = Panic "nil pointer dereference".
Proof.
  split; [|vm_compute; reflexivity].
  exists (persisted (with_back_references None bob_with_nil_request)),
    (Client.wheel bob_with_nil_request).
  split; [vm_compute; reflexivity | reflexivity].
Qed.

Lemma LoadClient_result_witness :
  (exists this,
     fst (LoadClient "bob-client" "bob-keywheel" (disk_of bob))
     = Done (Some (next_client (disk_of bob), this), None) /\
     back_references (next_client (disk_of bob)) this) /\
  fst (LoadClient "bob-client" "bob-keywheel" empty_disk)
  = Done (None, Some "open bob-client: no such file or directory").
Proof.
  split.
  - pose proof (LoadClient_result "bob-client" "bob-keywheel" (disk_of bob)) as Hr.
    cbn zeta in Hr. rewrite bob_load_steps in Hr. destruct Hr as [Hr _].
    destruct (Hr bob_decoded_loadable) as (this & Hthis & _ & Hback & _).
    exists this. split; [exact Hthis | exact Hback].
  - exact (LoadClient_result "bob-client" "bob-keywheel" empty_disk).
Defined.
End Runs.

(** ** [ErrorCode.String]: the texts of the codes *)

Section ErrorCodeTexts.
Import GoInt.

Ltac enumerate v lo hi :=
  let rec go n :=
    first
      [ assert (v = n) by lia; subst v
      | destruct (decide (v = n)) as [->|?]; [| go (n + 1)] ]
  in
  let n := eval vm_compute in lo in go n.

(** The verb [%d] is injective. *)
Lemma to_int_not_nil (z : Z) :
  Z.to_int z <> Decimal.Pos Decimal.Nil /\ Z.to_int z <> Decimal.Neg Decimal.Nil.
Proof.
  split; intros Hz; pose proof (f_equal Z.of_int Hz) as Hz0;
    rewrite DecimalZ.of_to in Hz0; simpl in Hz0; subst z; discriminate Hz.
Qed.

Lemma format_d_inj (a b : Z) : format_d a = format_d b -> a = b.
Proof.
  unfold format_d. intros Heq.
  apply (f_equal NilZero.int_of_string) in Heq.
  destruct (to_int_not_nil a), (to_int_not_nil b).
  rewrite !NilZero.isi in Heq by done.
  apply DecimalZ.to_int_inj. congruence.
Qed.

Lemma length_append (a b : string) :
  String.length (a +:+ b) = (String.length a + String.length b)%nat.
Proof. induction a as [|x a IH]; simpl; [done | by rewrite IH]. Qed.

Lemma append_inj_l (s a b : string) : a +:+ s = b +:+ s -> a = b.
Proof.
  intros Heq.
  assert (Hlen : String.length a = String.length b).
  { apply (f_equal String.length) in Heq. rewrite !length_append in Heq. lia. }
  revert b Heq Hlen. induction a as [|x a IH]; intros [|y b]; simpl; try done.
  intros [= -> Heq] [= Hlen]. f_equal. by apply IH.
Qed.

Lemma fallback_inj (a b : Z) :
  "ErrorCode(" +:+ format_d a +:+ ")" = "ErrorCode(" +:+ format_d b +:+ ")" -> a = b.
Proof.
  simpl. intros [= Heq]. by apply format_d_inj, (append_inj_l ")").
Qed.

Ltac evaluate_String f n :=
  let s := eval vm_compute in (f n) in change (f n) with s.

(** No name has the form of a fallback text, and the names differ from one
    another. *)
Lemma Pkg_String_defined_not_fallback (v v' : Z) :
  1 <= v <= len_array Pkg._ErrorCode_index - 1 ->
  Pkg.String v <> Done ("ErrorCode(" +:+ format_d v' +:+ ")").
Proof.
  intros Hv. change (len_array Pkg._ErrorCode_index - 1) with 16 in Hv.
  enumerate v 1 16;
    match goal with |- Pkg.String ?n <> _ => evaluate_String Pkg.String n end;
    simpl; discriminate.
Qed.

Lemma PkgLoginKey_String_defined_not_fallback (v v' : Z) :
  1 <= v <= len_array PkgLoginKey._ErrorCode_index - 1 ->
  PkgLoginKey.String v <> Done ("ErrorCode(" +:+ format_d v' +:+ ")").
Proof.
  intros Hv. change (len_array PkgLoginKey._ErrorCode_index - 1) with 17 in Hv.
  enumerate v 1 17;
    match goal with |- PkgLoginKey.String ?n <> _ =>
      evaluate_String PkgLoginKey.String n end;
    simpl; discriminate.
Qed.

Lemma Pkg_String_defined_inj (v v' : Z) :
  1 <= v <= len_array Pkg._ErrorCode_index - 1 ->
  1 <= v' <= len_array Pkg._ErrorCode_index - 1 ->
  Pkg.String v = Pkg.String v' -> v = v'.
Proof.
  intros Hv Hv'. change (len_array Pkg._ErrorCode_index - 1) with 16 in Hv, Hv'.
  enumerate v 1 16; enumerate v' 1 16; vm_compute;
    first [reflexivity | intros Heq; discriminate Heq].
Qed.

Lemma PkgLoginKey_String_defined_inj (v v' : Z) :
  1 <= v <= len_array PkgLoginKey._ErrorCode_index - 1 ->
  1 <= v' <= len_array PkgLoginKey._ErrorCode_index - 1 ->
  PkgLoginKey.String v = PkgLoginKey.String v' -> v = v'.
Proof.
  intros Hv Hv'. change (len_array PkgLoginKey._ErrorCode_index - 1) with 17 in Hv, Hv'.
  enumerate v 1 17; enumerate v' 1 17; vm_compute;
    first [reflexivity | intros Heq; discriminate Heq].
Qed.

Lemma Done_inj {A} (a b : A) : Done a = Done b -> a = b.
Proof. by intros [= ->]. Qed.

Lemma Pkg_String_inj (v v' : Z) :
  is_int v -> is_int v' -> Pkg.String v = Pkg.String v' -> v = v'.
Proof.
  intros Hv Hv'.
  destruct (decide (1 <= v <= len_array Pkg._ErrorCode_index - 1)) as [Hin|Hout],
    (decide (1 <= v' <= len_array Pkg._ErrorCode_index - 1)) as [Hin'|Hout'].
  - by apply Pkg_String_defined_inj.
  - rewrite (Pkg_String_fallback v') by done. intros Heq.
    by destruct (Pkg_String_defined_not_fallback v v' Hin).
  - rewrite (Pkg_String_fallback v) by done. intros Heq.
    by destruct (Pkg_String_defined_not_fallback v' v Hin').
  - rewrite (Pkg_String_fallback v), (Pkg_String_fallback v') by done.
    intros Heq. by apply fallback_inj, Done_inj.
Qed.

Lemma PkgLoginKey_String_inj (v v' : Z) :
  is_int v -> is_int v' -> PkgLoginKey.String v = PkgLoginKey.String v' -> v = v'.
Proof.
  intros Hv Hv'.
  destruct (decide (1 <= v <= len_array PkgLoginKey._ErrorCode_index - 1)) as [Hin|Hout],
    (decide (1 <= v' <= len_array PkgLoginKey._ErrorCode_index - 1)) as [Hin'|Hout'].
  - by apply PkgLoginKey_String_defined_inj.
  - rewrite (PkgLoginKey_String_fallback v') by done. intros Heq.
    by destruct (PkgLoginKey_String_defined_not_fallback v v' Hin).
  - rewrite (PkgLoginKey_String_fallback v) by done. intros Heq.
    by destruct (PkgLoginKey_String_defined_not_fallback v' v Hin').
  - rewrite (PkgLoginKey_String_fallback v), (PkgLoginKey_String_fallback v') by done.
    intros Heq. by apply fallback_inj, Done_inj.
Qed.

(** X1. [String] tells the codes apart: two different [int] values of an
    [ErrorCode] never have the same text, in either copy of the generated
    file.  (The names of the defined codes differ from one another, the
    fallback text holds the decimal value, and no name has the form of a
    fallback text.) *)
Theorem String_distinguishes_codes (v v' : Z) :
  is_int v -> is_int v' -> v <> v' ->
  Pkg.String v <> Pkg.String v' /\
  PkgLoginKey.String v <> PkgLoginKey.String v'.
Proof.
  intros Hv Hv' Hne. split; intros Heq; apply Hne.
  - by apply Pkg_String_inj.
  - by apply PkgLoginKey_String_inj.
Qed.

Lemma String_distinguishes_codes_witness :
  is_int 16 /\ is_int (-16) /\
  Pkg.String 16 <> Pkg.String (-16) /\
  PkgLoginKey.String 16 <> PkgLoginKey.String (-16).
Proof.
  assert (H16 : is_int 16) by (unfold is_int, int_min, int_max; lia).
  assert (Hm16 : is_int (-16)) by (unfold is_int, int_min, int_max; lia).
  split; [exact H16|]. split; [exact Hm16|].
  apply (String_distinguishes_codes 16 (-16) H16 Hm16). discriminate.
Defined.

(** X2. The two copies of the generated file number the kinds differently.
    They give the same text exactly for the values outside 4..17, and from
    4 to 16 the text that src/pkg/errorcode_string.go gives for [v] is the
    text that the seventeen-name copy gives for [v + 1]. *)
Theorem String_copies_differ (v : Z) :
  is_int v ->
  (Pkg.String v = PkgLoginKey.String v <-> ~ (4 <= v <= 17)) /\
  (4 <= v <= 16 -> Pkg.String v = PkgLoginKey.String (v + 1)).
Proof.
  intros Hv. split; [split|].
  - intros Heq Hin.
    destruct (decide (v = 17)) as [->|?].
    + rewrite Pkg_String_fallback in Heq by (vm_compute; intuition congruence).
      by destruct (PkgLoginKey_String_defined_not_fallback 17 17).
    + enumerate v 4 16; vm_compute in Heq; discriminate Heq.
  - intros Hout.
    destruct (decide (1 <= v <= 3)) as [Hin|Hlow].
    + enumerate v 1 3; reflexivity.
    + rewrite Pkg_String_fallback
        by first [done | change (len_array Pkg._ErrorCode_index - 1) with 16; lia].
      by rewrite PkgLoginKey_String_fallback
        by first [done | change (len_array PkgLoginKey._ErrorCode_index - 1) with 17; lia].
  - intros Hin. enumerate v 4 16; reflexivity.
Qed.

Lemma String_copies_differ_witness :
  is_int 5 /\
  Pkg.String 5 = Done "ErrNotVerified" /\
  PkgLoginKey.String 5 = Done "ErrNotRegistered" /\
  Pkg.String 5 = PkgLoginKey.String 6.
Proof.
  assert (H5 : is_int 5) by (unfold is_int, int_min, int_max; lia).
  split; [exact H5|]. split; [reflexivity|]. split; [reflexivity|].
  apply (String_copies_differ 5 H5). lia.
Defined.

(** X3. The index table cuts the name table into the names without gap or
    overlap: the texts of the defined codes, taken in the order of the
    codes, are not empty and concatenate to [_ErrorCode_name], in both
    copies of the generated file. *)
Theorem index_tiles_name :
  (exists names,
     Forall2 (fun v name => Pkg.String v = Done name /\ name <> EmptyString)
       (seqZ 1 (len_array Pkg._ErrorCode_index - 1)) names /\
     String.concat "" names = Pkg._ErrorCode_name) /\
  (exists names,
     Forall2 (fun v name => PkgLoginKey.String v = Done name /\ name <> EmptyString)
       (seqZ 1 (len_array PkgLoginKey._ErrorCode_index - 1)) names /\
     String.concat "" names = PkgLoginKey._ErrorCode_name).
Proof.
  split.
  - let names := eval vm_compute in
      (omap (fun v => match Pkg.String v with
                      | Done name => Some name
                      | Panic _ => None
                      end)
         (seqZ 1 (len_array Pkg._ErrorCode_index - 1))) in
    exists names.
    split; [|reflexivity].
    let codes := eval vm_compute in (seqZ 1 (len_array Pkg._ErrorCode_index - 1)) in
    change (seqZ 1 (len_array Pkg._ErrorCode_index - 1)) with codes.
    repeat (constructor; [split; [reflexivity | discriminate]|]).
    constructor.
  - let names := eval vm_compute in
      (omap (fun v => match PkgLoginKey.String v with
                      | Done name => Some name
                      | Panic _ => None
                      end)
         (seqZ 1 (len_array PkgLoginKey._ErrorCode_index - 1))) in
    exists names.
    split; [|reflexivity].
    let codes := eval vm_compute in
      (seqZ 1 (len_array PkgLoginKey._ErrorCode_index - 1)) in
    change (seqZ 1 (len_array PkgLoginKey._ErrorCode_index - 1)) with codes.
    repeat (constructor; [split; [reflexivity | discriminate]|]).
    constructor.
Qed.
End ErrorCodeTexts.

(** ** What persisting does to the files *)

Section WriteFacts.
Context `{Externals}.
Import OS Persist Props JSON Effects.

(** What one atomic write does to the world. *)
Lemma WriteFileAtomic_effect (path : string) (data : list byte) (perm : Z) (w : World) :
  exists err w',
    WriteFileAtomic path data perm w = (Done err, w') /\
    write_fault w' = write_fault w /\
    next_client w' = next_client w /\
    trace w' = trace w ++ [EvWriteFileAtomic path data perm] /\
    err = write_fault w !! path /\
    files w' = match err with
               | None => <[path := {| file_data := data; file_mode := perm |}]> (files w)
               | Some _ => files w
               end.
Proof.
  unfold WriteFileAtomic. simpl.
  destruct (write_fault w !! path) as [e|] eqn:Hfault; eexists _, _; split_and!; done.
Qed.

Lemma only_writes_refl (n : nat) (paths : list string) (w : World) :
  only_writes n paths w w.
Proof.
  split; [done|]. split; [done|]. split; [done|].
  exists []. rewrite app_nil_r. split; [done|]. split; [simpl; lia | constructor].
Qed.

Lemma only_writes_trans (n m : nat) (paths : list string) (w1 w2 w3 : World) :
  only_writes n paths w1 w2 -> only_writes m paths w2 w3 ->
  only_writes (n + m) paths w1 w3.
Proof.
  intros (Hf1 & Hn1 & Hfiles1 & ev1 & Ht1 & Hl1 & Hall1)
         (Hf2 & Hn2 & Hfiles2 & ev2 & Ht2 & Hl2 & Hall2).
  split; [congruence|]. split; [congruence|]. split.
  - intros path Hpath. rewrite Hfiles2, Hfiles1; done.
  - exists (ev1 ++ ev2). rewrite Ht2, Ht1, <- app_assoc. split; [done|].
    split; [rewrite length_app; lia | by apply Forall_app].
Qed.

Lemma WriteFileAtomic_only_writes (paths : list string) (path : string)
    (data : list byte) (w : World) :
  path ∈ paths ->
  only_writes 1 paths w (snd (WriteFileAtomic path data (octal 6 0 0) w)).
Proof.
  intros Hpath.
  destruct (WriteFileAtomic_effect path data (octal 6 0 0) w)
    as (err & w' & -> & Hfault & Hnext & Htrace & _ & Hfiles).
  simpl. split; [done|]. split; [done|]. split.
  - intros p Hp. rewrite Hfiles. destruct err; [done|].
    apply lookup_insert_ne. intros ->. by apply Hp.
  - eexists. split; [exact Htrace|]. split; [simpl; lia|].
    constructor; [|constructor]. by split.
Qed.

(** The four ways [persistClientLocked] ends. *)
Lemma persistClientLocked_cases (c : Client.t) (w : World) :
  (Client.ClientPersistPath c = EmptyString /\
   persistClientLocked c w = (Done None, w)) \/
  (Client.ClientPersistPath c <> EmptyString /\ ~ no_nil_value (Client.friends c) /\
   persistClientLocked c w = (Panic "nil pointer dereference", w)) \/
  (Client.ClientPersistPath c <> EmptyString /\ no_nil_value (Client.friends c) /\
   exists err, MarshalIndent (persisted c) "" "  " = Err err /\
               persistClientLocked c w = (Done (Some err), w)) \/
  (Client.ClientPersistPath c <> EmptyString /\ no_nil_value (Client.friends c) /\
   exists data, MarshalIndent (persisted c) "" "  " = Ok data /\
                persistClientLocked c w
                = WriteFileAtomic (Client.ClientPersistPath c) data (octal 6 0 0) w).
Proof.
  destruct (decide (Client.ClientPersistPath c = EmptyString)) as [Hempty|Hpath].
  { left. split; [done|]. unfold persistClientLocked. by rewrite decide_True. }
  right. pose proof (range_persist_friends_spec (Client.friends c)) as Hloop.
  destruct (range_persist_friends (Client.friends c)) as [st_Friends|msg] eqn:Hrange.
  - destruct Hloop as [Hfriends _]. right.
    rewrite persistClientLocked_unfold by done.
    destruct (MarshalIndent (persisted c) "" "  ") as [data|err].
    + right. split; [done|]. split; [done|]. by exists data.
    + left. split; [done|]. split; [done|]. by exists err.
  - destruct Hloop as [-> Hnil]. left. split; [done|]. split; [done|].
    unfold persistClientLocked. rewrite decide_False by done.
    unfold bind, lift. by rewrite Hrange.
Qed.

Lemma persistKeywheelLocked_cases (c : Client.t) (w : World) :
  (Client.KeywheelPersistPath c = EmptyString /\
   persistKeywheelLocked c w = (Done None, w)) \/
  (Client.KeywheelPersistPath c <> EmptyString /\
   exists err, Wheel_MarshalBinary (Client.wheel c) = Err err /\
               persistKeywheelLocked c w = (Done (Some err), w)) \/
  (Client.KeywheelPersistPath c <> EmptyString /\
   exists data, Wheel_MarshalBinary (Client.wheel c) = Ok data /\
                persistKeywheelLocked c w
                = WriteFileAtomic (Client.KeywheelPersistPath c) data (octal 6 0 0) w).
Proof.
  unfold persistKeywheelLocked.
  destruct (decide (Client.KeywheelPersistPath c = EmptyString)) as [Hempty|Hpath].
  { by left. }
  right. destruct (Wheel_MarshalBinary (Client.wheel c)) as [data|err].
  - right. split; [done|]. by exists data.
  - left. split; [done|]. by exists err.
Qed.

Lemma persistLocked_panic (c : Client.t) (w w1 : World) (msg : string) :
  persistClientLocked c w = (Panic msg, w1) ->
  persistLocked c w = (Panic msg, w1).
Proof. intros Hclient. unfold persistLocked, bind. by rewrite Hclient. Qed.

Lemma persistLocked_done (c : Client.t) (w w1 : World) (err : error) :
  persistClientLocked c w = (Done err, w1) ->
  exists e w2,
    persistKeywheelLocked c w1 = (Done e, w2) /\
    persistLocked c w = (Done (first_error err e), w2).
Proof.
  intros Hclient.
  destruct (persistKeywheelLocked_returns c w1) as (e & w2 & Hwheel).
  exists e, w2. split; [done|].
  unfold persistLocked, bind, ret. rewrite Hclient, Hwheel. by destruct err.
Qed.

Lemma persistClientLocked_only_writes (c : Client.t) (w : World) :
  only_writes 1 [Client.ClientPersistPath c; Client.KeywheelPersistPath c]
    w (snd (persistClientLocked c w)).
Proof.
  destruct (persistClientLocked_cases c w)
    as [[_ ->]|[(_ & _ & ->)|[(_ & _ & err & _ & ->)|(_ & _ & data & _ & ->)]]];
    try apply only_writes_refl.
  apply WriteFileAtomic_only_writes. set_solver.
Qed.

Lemma persistKeywheelLocked_only_writes (c : Client.t) (w : World) :
  only_writes 1 [Client.ClientPersistPath c; Client.KeywheelPersistPath c]
    w (snd (persistKeywheelLocked c w)).
Proof.
  destruct (persistKeywheelLocked_cases c w)
    as [[_ ->]|[(_ & err & _ & ->)|(_ & data & _ & ->)]];
    try apply only_writes_refl.
  apply WriteFileAtomic_only_writes. set_solver.
Qed.

(** X4. Whatever the client and the world, and also when it panics,
    [persistLocked] makes at most two calls to the file system, each of them
    an atomic write with mode 0600 to the client's ClientPersistPath or
    KeywheelPersistPath; it reads nothing, and every other file is as it
    was. *)
Theorem persistLocked_only_writes (c : Client.t) (w : World) :
  only_writes 2 [Client.ClientPersistPath c; Client.KeywheelPersistPath c]
    w (snd (persistLocked c w)).
Proof.
  pose proof (persistClientLocked_only_writes c w) as Hclient.
  destruct (persistClientLocked c w) as [[err|msg] w1] eqn:Hrun.
  - destruct (persistLocked_done c w w1 err Hrun) as (e & w2 & Hwheel & ->).
    pose proof (persistKeywheelLocked_only_writes c w1) as Hkeywheel.
    rewrite Hwheel in Hkeywheel.
    apply (only_writes_trans 1 1 _ w w1 w2 Hclient Hkeywheel).
  - rewrite (persistLocked_panic c w w1 msg Hrun). simpl in *.
    destruct Hclient as (? & ? & ? & events & ? & ? & ?).
    split; [done|]. split; [done|]. split; [done|].
    exists events. split; [done|]. split; [lia | done].
Qed.

(** X5. A persist step that does not return nil (it returns an error, or
    it panics) has changed no file. *)
Theorem persist_failure_leaves_files (c : Client.t) (w : World) :
  match persistClientLocked c w with
  | (Done None, _) => True
  | (_, w') => files w' = files w
  end /\
  match persistKeywheelLocked c w with
  | (Done None, _) => True
  | (_, w') => files w' = files w
  end.
Proof.
  split.
  - destruct (persistClientLocked_cases c w)
      as [[_ ->]|[(_ & _ & ->)|[(_ & _ & err & _ & ->)|(_ & _ & data & _ & ->)]]];
      try done.
    destruct (WriteFileAtomic_effect (Client.ClientPersistPath c) data (octal 6 0 0) w)
      as (err & w' & -> & _ & _ & _ & _ & Hfiles).
    by destruct err.
  - destruct (persistKeywheelLocked_cases c w)
      as [[_ ->]|[(_ & err & _ & ->)|(_ & data & _ & ->)]]; try done.
    destruct (WriteFileAtomic_effect (Client.KeywheelPersistPath c) data (octal 6 0 0) w)
      as (err & w' & -> & _ & _ & _ & _ & Hfiles).
    by destruct err.
Qed.

(** X6. [persistLocked] panics on a client that has a ClientPersistPath and
    a nil pointer among its friends: it panics on that pointer before
    anything is written, and the keywheel step does not run.  On every other
    client (no ClientPersistPath, or no nil friend) it returns, whatever
    its request lists hold. *)
Theorem persistLocked_panics_on_nil_friend (c : Client.t) (w : World) :
  (Client.ClientPersistPath c <> EmptyString /\ ~ no_nil_value (Client.friends c) ->
   persistLocked c w = (Panic "nil pointer dereference", w)) /\
  (Client.ClientPersistPath c = EmptyString \/ no_nil_value (Client.friends c) ->
   exists err w', persistLocked c w = (Done err, w')).
Proof.
  split.
  - intros [Hpath Hnil]. apply persistLocked_panic.
    destruct (persistClientLocked_cases c w)
      as [[? _]|[(_ & _ & ->)|[(_ & ? & _)|(_ & ? & _)]]]; done.
  - intros Hok.
    assert (exists err w1, persistClientLocked c w = (Done err, w1))
      as (err & w1 & Hclient).
    { destruct Hok as [Hempty|Hfriends].
      - unfold persistClientLocked. rewrite decide_True by done. by eexists _, _.
      - by apply persistClientLocked_returns. }
    destruct (persistLocked_done c w w1 err Hclient) as (e & w2 & _ & ->).
    by eexists _, _.
Qed.

Lemma persistClientLocked_nil (c : Client.t) (w w1 : World) :
  Client.ClientPersistPath c <> EmptyString ->
  persistClientLocked c w = (Done None, w1) ->
  exists blob,
    MarshalIndent (persisted c) "" "  " = Ok blob /\
    write_fault w !! Client.ClientPersistPath c = None /\
    write_fault w1 = write_fault w /\
    trace w1 = trace w ++ [EvWriteFileAtomic (Client.ClientPersistPath c) blob (octal 6 0 0)] /\
    files w1 = <[Client.ClientPersistPath c :=
                   {| file_data := blob; file_mode := octal 6 0 0 |}]> (files w).
Proof.
  intros Hpath Hrun.
  destruct (persistClientLocked_cases c w)
    as [[? _]|[(_ & _ & Heq)|[(_ & _ & err & _ & Heq)|(_ & _ & blob & Hblob & Heq)]]];
    [done | congruence | congruence |].
  rewrite Heq in Hrun.
  destruct (WriteFileAtomic_effect (Client.ClientPersistPath c) blob (octal 6 0 0) w)
    as (err & w' & Hwrite & Hfault & _ & Htrace & Herr & Hfiles).
  rewrite Hwrite in Hrun. injection Hrun as -> ->. exists blob. split_and!; done.
Qed.

Lemma persistKeywheelLocked_nil (c : Client.t) (w w1 : World) :
  Client.KeywheelPersistPath c <> EmptyString ->
  persistKeywheelLocked c w = (Done None, w1) ->
  exists blob,
    Wheel_MarshalBinary (Client.wheel c) = Ok blob /\
    write_fault w !! Client.KeywheelPersistPath c = None /\
    write_fault w1 = write_fault w /\
    trace w1 = trace w ++ [EvWriteFileAtomic (Client.KeywheelPersistPath c) blob (octal 6 0 0)] /\
    files w1 = <[Client.KeywheelPersistPath c :=
                   {| file_data := blob; file_mode := octal 6 0 0 |}]> (files w).
Proof.
  intros Hpath Hrun.
  destruct (persistKeywheelLocked_cases c w)
    as [[? _]|[(_ & err & _ & Heq)|(_ & blob & Hblob & Heq)]];
    [done | congruence |].
  rewrite Heq in Hrun.
  destruct (WriteFileAtomic_effect (Client.KeywheelPersistPath c) blob (octal 6 0 0) w)
    as (err & w' & Hwrite & Hfault & _ & Htrace & Herr & Hfiles).
  rewrite Hwrite in Hrun. injection Hrun as -> ->. exists blob. split_and!; done.
Qed.

(** A nil result of [persistLocked] is a nil result of both steps. *)
Lemma persistLocked_nil (c : Client.t) (w w' : World) :
  persistLocked c w = (Done None, w') ->
  exists w1,
    persistClientLocked c w = (Done None, w1) /\
    persistKeywheelLocked c w1 = (Done None, w').
Proof.
  intros Hrun. destruct (persistClientLocked c w) as [[err|msg] w1] eqn:Hclient.
  - destruct (persistLocked_done c w w1 err Hclient) as (e & w2 & Hwheel & Hboth).
    rewrite Hboth in Hrun. exists w1.
    destruct err, e; simpl in Hrun; simplify_eq. done.
  - by rewrite (persistLocked_panic c w w1 msg Hclient) in Hrun.
Qed.

(** X7. When [persistLocked] returns nil on a client with both paths
    configured, both marshals succeeded and exactly two writes were made,
    the client blob first and the keywheel second; the files are those from
    before with the marshalled state written at ClientPersistPath and then
    the marshalled keywheel at KeywheelPersistPath, both with mode 0600. *)
Theorem persistLocked_success (c : Client.t) (w w' : World) :
  Client.ClientPersistPath c <> EmptyString ->
  Client.KeywheelPersistPath c <> EmptyString ->
  persistLocked c w = (Done None, w') ->
  exists blob keywheel,
    MarshalIndent (persisted c) "" "  " = Ok blob /\
    Wheel_MarshalBinary (Client.wheel c) = Ok keywheel /\
    trace w' = trace w
               ++ [EvWriteFileAtomic (Client.ClientPersistPath c) blob (octal 6 0 0);
                   EvWriteFileAtomic (Client.KeywheelPersistPath c) keywheel (octal 6 0 0)] /\
    files w' = <[Client.KeywheelPersistPath c :=
                   {| file_data := keywheel; file_mode := octal 6 0 0 |}]>
                 (<[Client.ClientPersistPath c :=
                      {| file_data := blob; file_mode := octal 6 0 0 |}]> (files w)).
Proof.
  intros Hcp Hkp Hrun.
  destruct (persistLocked_nil c w w' Hrun) as (w1 & Hclient & Hwheel).
  destruct (persistClientLocked_nil c w w1 Hcp Hclient)
    as (blob & Hblob & _ & _ & Htrace1 & Hfiles1).
  destruct (persistKeywheelLocked_nil c w1 w' Hkp Hwheel)
    as (keywheel & Hkeywheel & _ & _ & Htrace2 & Hfiles2).
  exists blob, keywheel. split; [done|]. split; [done|].
  rewrite Htrace2, Htrace1, Hfiles2, Hfiles1, <- app_assoc. done.
Qed.

(** X8. The code does not check that the two paths differ.  With one path
    for both files, a [persistLocked] that returns nil leaves the keywheel
    in the file (the client blob has been overwritten), so that a following
    [LoadClient] decodes the keywheel bytes as the client blob. *)
Theorem persistLocked_same_path (c : Client.t) (w w' : World) :
  Client.ClientPersistPath c <> EmptyString ->
  Client.KeywheelPersistPath c = Client.ClientPersistPath c ->
  persistLocked c w = (Done None, w') ->
  exists keywheel,
    Wheel_MarshalBinary (Client.wheel c) = Ok keywheel /\
    files w' !! Client.ClientPersistPath c
    = Some {| file_data := keywheel; file_mode := octal 6 0 0 |} /\
    load_steps (Client.ClientPersistPath c) (Client.KeywheelPersistPath c) w'
    = result_bind (Unmarshal (A := persistedState.t) keywheel) (fun st =>
      result_bind (Wheel_UnmarshalBinary Wheel_zero keywheel) (fun wheel =>
      Ok (st, wheel))).
Proof.
  intros Hcp Hsame Hrun.
  assert (Hkp : Client.KeywheelPersistPath c <> EmptyString) by by rewrite Hsame.
  destruct (persistLocked_nil c w w' Hrun) as (w1 & Hclient & Hwheel).
  destruct (persistKeywheelLocked_nil c w1 w' Hkp Hwheel)
    as (keywheel & Hkeywheel & _ & _ & _ & Hfiles).
  exists keywheel. split; [done|].
  assert (Hfile : files w' !! Client.ClientPersistPath c
                  = Some {| file_data := keywheel; file_mode := octal 6 0 0 |}).
  { by rewrite Hfiles, Hsame, lookup_insert_eq. }
  split; [done|]. unfold load_steps. rewrite Hsame, Hfile. done.
Qed.

(** X10. The two writes are independent.  When both marshals succeed, each
    of the two files is replaced exactly when its own write succeeds, so a
    failed write of one file does not keep the other from being replaced,
    leaving an old file beside a new one; the error returned is the first of
    the two. *)
Theorem persistLocked_partial (c : Client.t) (w : World) (blob keywheel : list byte) :
  Client.ClientPersistPath c <> EmptyString ->
  Client.KeywheelPersistPath c <> EmptyString ->
  no_nil_value (Client.friends c) ->
  MarshalIndent (persisted c) "" "  " = Ok blob ->
  Wheel_MarshalBinary (Client.wheel c) = Ok keywheel ->
  exists w',
    persistLocked c w
    = (Done (first_error (write_fault w !! Client.ClientPersistPath c)
                         (write_fault w !! Client.KeywheelPersistPath c)), w') /\
    files w'
    = let after_client :=
        match write_fault w !! Client.ClientPersistPath c with
        | None => <[Client.ClientPersistPath c :=
                      {| file_data := blob; file_mode := octal 6 0 0 |}]> (files w)
        | Some _ => files w
        end in
      match write_fault w !! Client.KeywheelPersistPath c with
      | None => <[Client.KeywheelPersistPath c :=
                    {| file_data := keywheel; file_mode := octal 6 0 0 |}]> after_client
      | Some _ => after_client
      end.
Proof.
  intros Hcp Hkp Hfriends Hblob Hkeywheel.
  destruct (WriteFileAtomic_effect (Client.ClientPersistPath c) blob (octal 6 0 0) w)
    as (err & w1 & Hwrite1 & Hfault1 & _ & _ & -> & Hfiles1).
  destruct (WriteFileAtomic_effect (Client.KeywheelPersistPath c) keywheel (octal 6 0 0) w1)
    as (e & w2 & Hwrite2 & _ & _ & _ & -> & Hfiles2).
  assert (Hclient : persistClientLocked c w
                    = (Done (write_fault w !! Client.ClientPersistPath c), w1)).
  { by rewrite persistClientLocked_unfold, Hblob by done. }
  destruct (persistLocked_done c w w1 _ Hclient) as (e & w2' & Hwheel & Hboth).
  unfold persistKeywheelLocked in Hwheel.
  rewrite decide_False, Hkeywheel, Hwrite2 in Hwheel by done.
  injection Hwheel as <- <-.
  exists w2. rewrite Hfault1 in *. split; [exact Hboth|].
  cbn zeta. by rewrite Hfiles2, Hfiles1.
Qed.
End WriteFacts.

(** ** What loading does *)

Section ReadFacts.
Context `{Externals}.
Import OS Persist Props JSON Effects.

(** X11. [LoadClient] only reads: it changes no file, and its calls to the
    file system are one read of the client file, followed by one read of
    the keywheel file exactly when the client file exists and decodes.
    This holds also when it returns an error or panics. *)
Theorem LoadClient_reads_only (clientPersistPath keywheelPersistPath : string)
    (w : World) :
  let w' := snd (LoadClient clientPersistPath keywheelPersistPath w) in
  files w' = files w /\
  write_fault w' = write_fault w /\
  trace w' = trace w ++ EvReadFile clientPersistPath ::
               match files w !! clientPersistPath with
               | Some clientFile =>
                   match Unmarshal (A := persistedState.t) (file_data clientFile) with
                   | Ok _ => [EvReadFile keywheelPersistPath]
                   | Err _ => []
                   end
               | None => []
               end.
Proof.
  assert (Hcons : forall (l : list Event) a b, (l ++ [a]) ++ [b] = l ++ [a; b]).
  { intros l a b. by rewrite <- app_assoc. }
  unfold LoadClient, bind, ReadFile, ret, alloc, lift. simpl.
  destruct (files w !! clientPersistPath) as [clientFile|]; [simpl|done].
  destruct (Unmarshal (file_data clientFile)) as [st|err]; [simpl|done].
  destruct (files w !! keywheelPersistPath) as [keywheelFile|]; simpl;
    [|by rewrite Hcons].
  destruct (Wheel_UnmarshalBinary Wheel_zero (file_data keywheelFile))
    as [wheel|err]; simpl; [|by rewrite Hcons].
  destruct (loadStateLocked _ _ st); simpl; by rewrite Hcons.
Qed.

(** X12. A client that [LoadClient] returns comes with a nil error, lives at
    the address allocated by the call, and is in the state of a client in
    use: its cached hashes are the hashes of its configs and every request
    and friend points back to it.  [persistLocked] on it never panics. *)
Theorem LoadClient_client_is_reachable (clientPersistPath keywheelPersistPath : string)
    (w : World) (c : addr) (this : Client.t) (err : error) :
  fst (LoadClient clientPersistPath keywheelPersistPath w) = Done (Some (c, this), err) ->
  err = None /\
  c = next_client w /\
  next_client (snd (LoadClient clientPersistPath keywheelPersistPath w)) = Pos.succ c /\
  reachable c this /\
  forall w2, exists e w3, persistLocked this w2 = (Done e, w3).
Proof.
  rewrite LoadClient_outcome. intros Hload.
  assert (Hnext : forall st wheel,
            load_steps clientPersistPath keywheelPersistPath w = Ok (st, wheel) ->
            next_client (snd (LoadClient clientPersistPath keywheelPersistPath w))
            = Pos.succ (next_client w)).
  { unfold load_steps, LoadClient, bind, ReadFile, ret, alloc, lift. simpl.
    intros st0 wheel0.
    destruct (files w !! clientPersistPath) as [clientFile|]; [simpl|done].
    destruct (Unmarshal (file_data clientFile)) as [st1|e]; [simpl|done].
    destruct (files w !! keywheelPersistPath) as [keywheelFile|]; [simpl|done].
    destruct (Wheel_UnmarshalBinary Wheel_zero (file_data keywheelFile))
      as [wheel1|e]; [simpl|done].
    by destruct (loadStateLocked _ _ st1). }
  destruct (load_steps clientPersistPath keywheelPersistPath w) as [[st wheel]|e] eqn:Hsteps;
    [|done].
  specialize (Hnext st wheel eq_refl).
  pose proof (loadStateLocked_spec (next_client w)
                (with_wheel (new_Client clientPersistPath keywheelPersistPath) wheel) st)
    as Hspec.
  destruct (loadStateLocked _ _ st) as [this'|msg]; [|done].
  simpl in Hload. injection Hload as <- <- <-.
  destruct Hspec as [(_ & _ & Hin & Hout & Hsent & Hfriends) (h1 & h2 & Hh1 & Hh2 & ->)].
  split; [done|]. split; [done|]. split; [done|].
  assert (Hback : back_references (next_client w)
                    (loaded (next_client w)
                       (with_wheel (new_Client clientPersistPath keywheelPersistPath) wheel)
                       st h1 h2))
    by by apply loaded_back_references.
  split; [by split|].
  intros w2.
  destruct (persistLocked_sequence _ w2 (proj2 (proj2 (proj2
              (back_references_no_nil _ _ Hback)))))
    as (e1 & w3 & e2 & w4 & _ & _ & Hboth).
  by eexists _, _.
Qed.

(** X13. [loadStateLocked] replaces the state of the receiver and does not
    merge into it: the result keeps the receiver's persist paths, keywheel
    and runtime fields, has exactly the friends of the loaded state, and
    depends on nothing else the receiver held; loading the same state once
    more changes nothing. *)
Theorem loadStateLocked_replaces (c : addr) (this this' : Client.t)
    (st : persistedState.t) :
  loadStateLocked c this st = Done this' ->
  Client.ClientPersistPath this' = Client.ClientPersistPath this /\
  Client.KeywheelPersistPath this' = Client.KeywheelPersistPath this /\
  Client.wheel this' = Client.wheel this /\
  Client.runtime this' = Client.runtime this /\
  dom (Client.friends this') = dom (persistedState.Friends st) /\
  (forall other,
     Client.ClientPersistPath other = Client.ClientPersistPath this ->
     Client.KeywheelPersistPath other = Client.KeywheelPersistPath this ->
     Client.wheel other = Client.wheel this ->
     Client.runtime other = Client.runtime this ->
     loadStateLocked c other st = Done this') /\
  loadStateLocked c this' st = Done this'.
Proof.
  intros Hload. pose proof (loadStateLocked_spec c this st) as Hspec.
  rewrite Hload in Hspec. destruct Hspec as [Hst (h1 & h2 & Hh1 & Hh2 & ->)].
  simpl. split; [done|]. split; [done|]. split; [done|]. split; [done|].
  split; [by rewrite dom_fmap_L|].
  assert (Hother : forall other,
            Client.ClientPersistPath other = Client.ClientPersistPath this ->
            Client.KeywheelPersistPath other = Client.KeywheelPersistPath this ->
            Client.wheel other = Client.wheel this ->
            Client.runtime other = Client.runtime this ->
            loadStateLocked c other st = Done (loaded c this st h1 h2)).
  { intros other Hcp Hkp Hwheel Hruntime.
    pose proof (loadStateLocked_spec c other st) as Hspec.
    destruct (loadStateLocked c other st) as [that|msg]; [|done].
    destruct Hspec as [_ (h1' & h2' & Hh1' & Hh2' & ->)].
    f_equal. unfold loaded. rewrite Hcp, Hkp, Hwheel, Hruntime. congruence. }
  split; [exact Hother|]. by apply Hother.
Qed.
(** X14. Loading and persisting again reproduces the data of both files.
    Provided encoding/json re-encodes the state it decodes from the client
    file to the bytes of that file, and the keywheel does the same with the
    keywheel file, a [persistLocked] that returns nil on the client
    [LoadClient] returned writes the bytes that were read, with mode
    0600. *)
Theorem persistLocked_after_LoadClient (clientPersistPath keywheelPersistPath : string)
    (w w2 w3 : World) (clientFile keywheelFile : File) (c : addr) (this : Client.t) :
  clientPersistPath <> EmptyString ->
  keywheelPersistPath <> EmptyString ->
  files w !! clientPersistPath = Some clientFile ->
  files w !! keywheelPersistPath = Some keywheelFile ->
  (forall st : persistedState.t,
     Unmarshal (file_data clientFile) = Ok st ->
     MarshalIndent st "" "  " = Ok (file_data clientFile)) ->
  (forall wheel,
     Wheel_UnmarshalBinary Wheel_zero (file_data keywheelFile) = Ok wheel ->
     Wheel_MarshalBinary wheel = Ok (file_data keywheelFile)) ->
  fst (LoadClient clientPersistPath keywheelPersistPath w) = Done (Some (c, this), None) ->
  persistLocked this w2 = (Done None, w3) ->
  files w3
  = <[keywheelPersistPath :=
        {| file_data := file_data keywheelFile; file_mode := octal 6 0 0 |}]>
      (<[clientPersistPath :=
           {| file_data := file_data clientFile; file_mode := octal 6 0 0 |}]> (files w2)).
Proof.
  intros Hcp Hkp Hclient Hkeywheel Hjson Hwheel Hload Hpersist.
  rewrite LoadClient_outcome in Hload. unfold load_steps in Hload.
  rewrite Hclient, Hkeywheel in Hload.
  destruct (Unmarshal (file_data clientFile)) as [st|e] eqn:Hst; [|done].
  simpl in Hload.
  destruct (Wheel_UnmarshalBinary Wheel_zero (file_data keywheelFile))
    as [wheel|e] eqn:Hw; [|done].
  simpl in Hload.
  pose proof (loadStateLocked_spec (next_client w)
                (with_wheel (new_Client clientPersistPath keywheelPersistPath) wheel) st)
    as Hspec.
  destruct (loadStateLocked _ _ st) as [this'|msg]; [|done].
  simpl in Hload. injection Hload as <- <-.
  destruct Hspec as [_ (h1 & h2 & _ & _ & ->)].
  set (this := loaded (next_client w)
                 (with_wheel (new_Client clientPersistPath keywheelPersistPath) wheel)
                 st h1 h2) in *.
  destruct (persistLocked_nil this w2 w3 Hpersist) as (w' & Hfirst & Hsecond).
  destruct (persistClientLocked_nil this w2 w' Hcp Hfirst)
    as (blob & Hblob & _ & _ & _ & Hfiles1).
  destruct (persistKeywheelLocked_nil this w' w3 Hkp Hsecond)
    as (keywheel & Hkeywheel' & _ & _ & _ & Hfiles2).
  subst this.
  rewrite Hfiles2, Hfiles1. simpl.
  unfold MarshalIndent in Hblob. rewrite persisted_loaded_toJSON in Hblob.
  fold (MarshalIndent st "" "  ") in Hblob.
  rewrite (Hjson st eq_refl) in Hblob. simpl in Hkeywheel'.
  rewrite (Hwheel wheel eq_refl) in Hkeywheel'.
  apply Ok_inj in Hblob. apply Ok_inj in Hkeywheel'. by subst.
Qed.
End ReadFacts.

(** ** The entry points that take the mutex *)

Section LockingFacts.
Context `{Externals}.
Import OS Persist Props JSON Effects.

Lemma lock_run_unlock_guards {A} (body : M A) :
  Locking.guards
    (Locking.bind Locking.Lock (fun _ =>
     Locking.bind (Locking.run body) (fun a =>
     Locking.bind Locking.Unlock (fun _ =>
     Locking.ret a))))
    body.
Proof.
  intros w. split; [done|].
  unfold Locking.bind, Locking.Lock, Locking.run, Locking.Unlock, Locking.ret. simpl.
  by destruct (body w) as [[a|msg] w'].
Qed.

(** X15. [Persist], [persistClient] and [persistKeywheel] take the client's
    mutex around their locked versions.  Called with the mutex free, each
    ends as its locked version does and has released the mutex when it
    returns; when the locked version panics the mutex stays held, since it
    is released by a plain call and not by a deferred one.  Called with the
    mutex held, each blocks before any file is touched.  In particular
    [persistKeywheel] on a free mutex always returns, and [Persist] on a
    client with a ClientPersistPath and a nil friend pointer panics with
    the mutex held. *)
Theorem Persist_guards (c : Client.t) :
  Locking.guards (Locking.Persist c) (Persist.Persist c) /\
  Locking.guards (Locking.persistClient c) (Persist.persistClient c) /\
  Locking.guards (Locking.persistKeywheel c) (Persist.persistKeywheel c) /\
  (forall w, exists err w',
     Locking.persistKeywheel c {| Locking.world := w; Locking.mu_held := false |}
     = (Locking.Returns err, {| Locking.world := w'; Locking.mu_held := false |})) /\
  (forall w,
     Client.ClientPersistPath c <> EmptyString -> ~ no_nil_value (Client.friends c) ->
     Locking.Persist c {| Locking.world := w; Locking.mu_held := false |}
     = (Locking.Panics "nil pointer dereference",
        {| Locking.world := w; Locking.mu_held := true |})).
Proof.
  split; [apply lock_run_unlock_guards|]. split; [apply lock_run_unlock_guards|].
  split; [apply lock_run_unlock_guards|]. split.
  - intros w. destruct (lock_run_unlock_guards (persistKeywheelLocked c) w) as [_ Hfree].
    destruct (persistKeywheelLocked_returns c w) as (err & w' & Hrun).
    rewrite Hrun in Hfree. by exists err, w'.
  - intros w Hpath Hnil.
    destruct (lock_run_unlock_guards (persistLocked c) w) as [_ Hfree].
    destruct (persistClientLocked_cases c w)
      as [[? _]|[(_ & _ & Hrun)|[(_ & ? & _)|(_ & ? & _)]]]; try done.
    by rewrite (persistLocked_panic c w w _ Hrun) in Hfree.
Qed.

End LockingFacts.

(** ** The code run on more clients *)

Section Scenarios.
Import OS Persist Props JSON Effects Example Scenario.
#[local] Existing Instance Model.types.
#[local] Existing Instance Model.externals.

Lemma bob_one_file_persistLocked :
  persistLocked bob_one_file empty_disk = (Done None, disk_of bob_one_file).
Proof. vm_compute. reflexivity. Qed.

Lemma bob_LoadClient :
  fst (LoadClient "bob-client" "bob-keywheel" (disk_of bob))
  = Done (Some (2%positive, bob_loaded), None).
Proof. vm_compute. reflexivity. Qed.

Lemma bob_loaded_persistLocked :
  persistLocked bob_loaded (disk_of bob)
  = (Done None, snd (persistLocked bob_loaded (disk_of bob))).
Proof. vm_compute. reflexivity. Qed.

Lemma bob_disk_client_file :
  files (disk_of bob) !! "bob-client"
  = Some {| file_data := bob_blob; file_mode := 384 |}.
Proof. vm_compute. reflexivity. Qed.

Lemma bob_disk_keywheel_file :
  files (disk_of bob) !! "bob-keywheel"
  = Some {| file_data := bob_keywheel_blob; file_mode := 384 |}.
Proof. vm_compute. reflexivity. Qed.

Lemma bob_blob_reencodes (st : persistedState.t) :
  Unmarshal bob_blob = Ok st -> MarshalIndent st "" "  " = Ok bob_blob.
Proof.
  rewrite bob_unmarshal. intros Hst. apply Ok_inj in Hst. subst st.
  exact bob_decoded_marshal.
Qed.

Lemma bob_keywheel_unmarshal :
  Wheel_UnmarshalBinary Wheel_zero bob_keywheel_blob = Ok (Client.wheel bob).
Proof. vm_compute. reflexivity. Qed.

Lemma bob_keywheel_marshal :
  Wheel_MarshalBinary (Client.wheel bob) = Ok bob_keywheel_blob.
Proof. vm_compute. reflexivity. Qed.

Lemma bob_keywheel_reencodes (wheel : Wheel) :
  Wheel_UnmarshalBinary Wheel_zero bob_keywheel_blob = Ok wheel ->
  Wheel_MarshalBinary wheel = Ok bob_keywheel_blob.
Proof.
  rewrite bob_keywheel_unmarshal. intros Hwheel. apply Ok_inj in Hwheel. subst wheel.
  exact bob_keywheel_marshal.
Qed.

Lemma client_with_nil_friend_has_nil :
  ~ no_nil_value (Client.friends client_with_nil_friend).
Proof.
  intros Hall.
  destruct (Hall "mallory@example.org" None (lookup_singleton_eq _ _)) as [f Hf].
  discriminate Hf.
Qed.

Lemma persistLocked_success_witness :
  persistLocked bob empty_disk = (Done None, disk_of bob) /\
  exists blob keywheel,
    MarshalIndent (persisted bob) "" "  " = Ok blob /\
    Wheel_MarshalBinary (Client.wheel bob) = Ok keywheel /\
    trace (disk_of bob)
    = trace empty_disk
      ++ [EvWriteFileAtomic "bob-client" blob (octal 6 0 0);
          EvWriteFileAtomic "bob-keywheel" keywheel (octal 6 0 0)] /\
    files (disk_of bob)
    = <["bob-keywheel" := {| file_data := keywheel; file_mode := octal 6 0 0 |}]>
        (<["bob-client" := {| file_data := blob; file_mode := octal 6 0 0 |}]>
           (files empty_disk)).
Proof.
  split; [exact bob_persistLocked|].
  apply (persistLocked_success bob empty_disk (disk_of bob)).
  - discriminate.
  - discriminate.
  - exact bob_persistLocked.
Defined.

Lemma persistLocked_same_path_witness :
  persistLocked bob_one_file empty_disk = (Done None, disk_of bob_one_file) /\
  exists keywheel,
    Wheel_MarshalBinary (Client.wheel bob_one_file) = Ok keywheel /\
    files (disk_of bob_one_file) !! "bob-state"
    = Some {| file_data := keywheel; file_mode := octal 6 0 0 |}.
Proof.
  split; [exact bob_one_file_persistLocked|].
  destruct (persistLocked_same_path bob_one_file empty_disk (disk_of bob_one_file))
    as (keywheel & Hkeywheel & Hfile & _).
  - discriminate.
  - reflexivity.
  - exact bob_one_file_persistLocked.
  - exists keywheel. split; [exact Hkeywheel | exact Hfile].
Defined.

Lemma LoadClient_client_is_reachable_witness :
  fst (LoadClient "bob-client" "bob-keywheel" (disk_of bob))
  = Done (Some (2%positive, bob_loaded), None) /\
  reachable 2%positive bob_loaded /\
  forall w2, exists e w3, persistLocked bob_loaded w2 = (Done e, w3).
Proof.
  split; [exact bob_LoadClient|].
  destruct (LoadClient_client_is_reachable "bob-client" "bob-keywheel" (disk_of bob)
              2%positive bob_loaded None bob_LoadClient)
    as (_ & _ & _ & Hreachable & Hpersist).
  split; [exact Hreachable | exact Hpersist].
Defined.

Lemma loadStateLocked_replaces_witness :
  exists this',
    loadStateLocked 2%positive (new_Client "bob-client" "bob-keywheel") bob_decoded
    = Done this' /\
    dom (Client.friends this') = dom (persistedState.Friends bob_decoded) /\
    loadStateLocked 2%positive this' bob_decoded = Done this'.
Proof.
  destruct (loadStateLocked_returns 2%positive
              (new_Client "bob-client" "bob-keywheel") bob_decoded bob_decoded_loadable)
    as [this' Hthis'].
  exists this'. split; [exact Hthis'|].
  destruct (loadStateLocked_replaces 2%positive
              (new_Client "bob-client" "bob-keywheel") this' bob_decoded Hthis')
    as (_ & _ & _ & _ & Hdom & _ & Hagain).
  split; [exact Hdom | exact Hagain].
Defined.

Lemma persistLocked_after_LoadClient_witness :
  fst (LoadClient "bob-client" "bob-keywheel" (disk_of bob))
  = Done (Some (2%positive, bob_loaded), None) /\
  persistLocked bob_loaded (disk_of bob)
  = (Done None, snd (persistLocked bob_loaded (disk_of bob))) /\
  files (snd (persistLocked bob_loaded (disk_of bob)))
  = <["bob-keywheel" := {| file_data := bob_keywheel_blob; file_mode := octal 6 0 0 |}]>
      (<["bob-client" := {| file_data := bob_blob; file_mode := octal 6 0 0 |}]>
         (files (disk_of bob))).
Proof.
  split; [exact bob_LoadClient|]. split; [exact bob_loaded_persistLocked|].
  apply (persistLocked_after_LoadClient "bob-client" "bob-keywheel"
           (disk_of bob) (disk_of bob) (snd (persistLocked bob_loaded (disk_of bob)))
           {| file_data := bob_blob; file_mode := 384 |}
           {| file_data := bob_keywheel_blob; file_mode := 384 |}
           2%positive bob_loaded).
  - discriminate.
  - discriminate.
  - exact bob_disk_client_file.
  - exact bob_disk_keywheel_file.
  - exact bob_blob_reencodes.
  - exact bob_keywheel_reencodes.
  - exact bob_LoadClient.
  - exact bob_loaded_persistLocked.
Defined.

Lemma persistLocked_panics_on_nil_friend_witness :
  persistLocked client_with_nil_friend empty_disk
  = (Panic "nil pointer dereference", empty_disk).
Proof.
  apply (persistLocked_panics_on_nil_friend client_with_nil_friend empty_disk).
  split; [discriminate | exact client_with_nil_friend_has_nil].
Defined.

Lemma persistLocked_partial_witness :
  exists w',
    persistLocked bob client_blob_read_only
    = (Done (Some "open bob-client: permission denied"), w') /\
    files w'
    = <["bob-keywheel" := {| file_data := bob_keywheel_blob; file_mode := octal 6 0 0 |}]>
        (files client_blob_read_only).
Proof.
  destruct (persistLocked_partial bob client_blob_read_only bob_blob bob_keywheel_blob)
    as (w' & Hrun & Hfiles).
  - discriminate.
  - discriminate.
  - apply bob_with_friends.
  - exact bob_marshal.
  - exact bob_keywheel_marshal.
  - exists w'. split; [exact Hrun | exact Hfiles].
Defined.
End Scenarios.

(** ** String literals: what the encoder writes, the scanner reads back *)

Section TextFacts.
Import JSON Text.

Lemma N_of_ascii_inj (a b : ascii) : N_of_ascii a = N_of_ascii b -> a = b.
Proof. intros Heq. by rewrite <- (ascii_N_embedding a), <- (ascii_N_embedding b), Heq. Qed.

Lemma append_cons (x : ascii) (a b : string) : String x a +:+ b = String x (a +:+ b).
Proof. reflexivity. Qed.

Lemma append_assoc (a b c : string) : (a +:+ b) +:+ c = a +:+ b +:+ c.
Proof. induction a as [|x a IH]; [done|]. by rewrite !append_cons, IH. Qed.

(** A byte below 0x80 is read back from its escape. *)
Lemma scan_string_escape_char (c : ascii) (rest : string) :
  (N_of_ascii c <? 128)%N = true ->
  scan_string (escape_char c +:+ rest) = prod_map (String c) id <$> scan_string rest.
Proof.
  destruct c as [[] [] [] [] [] [] [] []]; intros Hc; try discriminate Hc; reflexivity.
Qed.

(** A byte from 0x80 up is read as it is. *)
Lemma scan_string_high (c : ascii) (rest : string) :
  (N_of_ascii c <? 128)%N = false ->
  scan_string (String c rest) = prod_map (String c) id <$> scan_string rest.
Proof.
  destruct c as [[] [] [] [] [] [] [] []]; intros Hc; try discriminate Hc; reflexivity.
Qed.

Lemma in_range_high (lo hi : N) (c : ascii) :
  (128 <= lo)%N -> in_range lo hi c = true -> (N_of_ascii c <? 128)%N = false.
Proof.
  unfold in_range. intros Hlo Hc. apply andb_true_iff in Hc as [Hc _].
  apply N.leb_le in Hc. apply N.ltb_ge. lia.
Qed.

Lemma second_ok_high (c1 c2 : ascii) :
  second_ok c1 c2 = true -> (N_of_ascii c2 <? 128)%N = false.
Proof.
  unfold second_ok. repeat case_match; try done; apply in_range_high; lia.
Qed.

(** The escape of a separator is read back as the separator. *)
Lemma scan_string_separator (c1 c2 c3 : ascii) (rest : string) :
  is_separator c1 c2 c3 = true ->
  scan_string (separator_escape c3 +:+ rest)
  = prod_map (String c1) id <$> (prod_map (String c2) id
      <$> (prod_map (String c3) id <$> scan_string rest)).
Proof.
  unfold is_separator, in_range. intros Hsep.
  apply andb_true_iff in Hsep as [Hsep H3]. apply andb_true_iff in Hsep as [H1 H2].
  apply N.eqb_eq in H1, H2.
  assert (c1 = ascii_of_N 226) as -> by (apply N_of_ascii_inj; by rewrite H1).
  assert (c2 = ascii_of_N 128) as -> by (apply N_of_ascii_inj; by rewrite H2).
  destruct c3 as [[] [] [] [] [] [] [] []];
    first [ discriminate H3
          | unfold separator_escape; rewrite !append_cons;
            change (EmptyString +:+ rest) with rest;
            simpl; by destruct (scan_string rest) as [[]|] ].
Qed.

(** A string literal is read back: the scanner returns the string and the
    text after the closing quote. *)
Lemma scan_string_escape (s rest : string) :
  utf8_valid s = true ->
  scan_string (escape s +:+ String quote rest) = Some (s, rest).
Proof.
  remember (String.length s) as n eqn:Hn. revert s Hn.
  induction n as [n IH] using lt_wf_ind. intros s -> Hvalid.
  assert (Hnext : forall s', (String.length s' < String.length s)%nat ->
            utf8_valid s' = true ->
            scan_string (escape s' +:+ String quote rest) = Some (s', rest)).
  { intros s' Hlen. by apply (IH _ Hlen). }
  clear IH. destruct s as [|c1 s1]; [reflexivity|].
  cbn [escape utf8_valid] in *.
  destruct (N_of_ascii c1 <? 128)%N eqn:Hc1.
  { rewrite append_assoc, scan_string_escape_char, Hnext by (simpl; done || lia). done. }
  destruct s1 as [|c2 s2]; [done|].
  apply andb_true_iff in Hvalid as [H2 Hvalid]. rewrite H2. cbn [negb].
  pose proof (second_ok_high _ _ H2) as Hc2.
  destruct (rune_size c1) as [|[|[|[|k]]]] eqn:Hsize.
  all: try (destruct s2 as [|c3 s3]; [done|];
            apply andb_true_iff in Hvalid as [H3 Hvalid]; rewrite H3; cbn [negb];
            pose proof (in_range_high _ _ _ (N.le_refl 128) H3) as Hc3).
  all: try (destruct s3 as [|c4 s4]; [done|];
            apply andb_true_iff in Hvalid as [H4 Hvalid]; rewrite H4;
            pose proof (in_range_high _ _ _ (N.le_refl 128) H4) as Hc4).
  all: rewrite ?append_cons.
  all: try (rewrite (scan_string_high c1), (scan_string_high c2),
              (scan_string_high c3), (scan_string_high c4), Hnext
              by (simpl; done || lia); done).
  - rewrite (scan_string_high c1), (scan_string_high c2), Hnext
      by (simpl; done || lia). done.
  - destruct (is_separator c1 c2 c3) eqn:Hsep.
    + rewrite append_assoc, (scan_string_separator c1 c2 c3), Hnext
        by (simpl; done || lia). done.
    + rewrite ?append_cons.
      rewrite (scan_string_high c1), (scan_string_high c2), (scan_string_high c3), Hnext
        by (simpl; done || lia). done.
Qed.
End TextFacts.

(** ** The layout of [json.MarshalIndent] *)

Section ScanFacts.
Import JSON Text.

Lemma append_nil_l (s : string) : EmptyString +:+ s = s.
Proof. reflexivity. Qed.

Lemma append_nil_r (s : string) : s +:+ EmptyString = s.
Proof. induction s as [|x s IH]; [done|]. by rewrite append_cons, IH. Qed.

Lemma substring_all (s : string) : substring 0 (String.length s) s = s.
Proof. induction s as [|x s IH]; simpl; [done | by rewrite IH]. Qed.

Lemma prefix_append (word rest : string) : String.prefix word (word +:+ rest) = true.
Proof.
  induction word as [|x word IH]; [by destruct rest|].
  rewrite append_cons. simpl. by destruct (ascii_dec x x).
Qed.

Lemma substring_append (word rest : string) :
  substring (String.length word) (String.length rest) (word +:+ rest) = rest.
Proof.
  induction word as [|x word IH]; [apply substring_all|].
  rewrite append_cons. exact IH.
Qed.

Lemma expect_append (word : string) (j : json) (rest : string) :
  expect word j (word +:+ rest) = Some (j, rest).
Proof.
  unfold expect. rewrite prefix_append, length_append.
  replace (String.length word + String.length rest - String.length word)%nat
    with (String.length rest) by lia.
  by rewrite substring_append.
Qed.

(** Skipping the white space an indented line starts with. *)
Lemma skip_space_line_break (depth : nat) (s : string) :
  skip_space (line_break "" "  " depth +:+ s) = skip_space s.
Proof.
  unfold line_break. rewrite append_cons, append_nil_l.
  change (skip_space (String newline (repeat_string depth "  " +:+ s)))
    with (skip_space (repeat_string depth "  " +:+ s)).
  induction depth as [|depth IH]; [done|].
  cbn [repeat_string]. rewrite append_assoc.
  change (skip_space ("  " +:+ repeat_string depth "  " +:+ s))
    with (skip_space (repeat_string depth "  " +:+ s)).
  exact IH.
Qed.

Lemma value_start_facts (c : ascii) :
  value_start c = true ->
  is_space c = false /\ c <> "]"%char /\ c <> "}"%char.
Proof.
  destruct c as [[] [] [] [] [] [] [] []]; intros Hc; try discriminate Hc;
    repeat split; discriminate.
Qed.

Lemma render_start (depth : nat) (j : json) :
  numbers_valid j = true ->
  exists c s, render "" "  " depth j = String c s /\ value_start c = true.
Proof.
  destruct j as [|[]|lit|s|[|e l]|[|kv kvs]]; simpl; intros Hj;
    try (by eexists _, _).
  unfold number_literal in Hj. destruct lit as [|c lit]; [done|].
  apply andb_true_iff in Hj as [Hc _]. exists c, lit. split; [done|].
  unfold value_start. apply orb_true_iff in Hc as [->| ->];
    by rewrite ?orb_true_r.
Qed.
End ScanFacts.

(** ** The scanner on arrays and objects *)

Section ParseFacts.
Import JSON Text.

Lemma scan_number_literal (lit rest : string) :
  all_chars is_number_char lit = true -> ends_value rest = true ->
  scan_number (lit +:+ rest) = (lit, rest).
Proof.
  intros Hlit Hrest. induction lit as [|c lit IH].
  - rewrite append_nil_l. destruct rest as [|c rest]; [done|].
    simpl in *. by destruct (is_number_char c).
  - simpl in Hlit. apply andb_true_iff in Hlit as [Hc Hlit].
    rewrite append_cons. simpl. by rewrite Hc, IH.
Qed.

Lemma skip_space_start (c : ascii) (s : string) :
  is_space c = false -> skip_space (String c s) = String c s.
Proof. intros Hc. simpl. by rewrite Hc. Qed.

(** The scanner looks at a text through [skip_space]. *)
Lemma scan_value_skip_space (fuel : nat) (a b : string) :
  skip_space a = skip_space b -> scan_value fuel a = scan_value fuel b.
Proof. intros Heq. destruct fuel as [|fuel]; [done|]. simpl. by rewrite Heq. Qed.

Lemma scan_value_line_break (fuel depth : nat) (s : string) :
  scan_value fuel (line_break "" "  " depth +:+ s) = scan_value fuel s.
Proof. apply scan_value_skip_space, skip_space_line_break. Qed.

Lemma scan_value_space (fuel : nat) (s : string) :
  scan_value fuel (String " " s) = scan_value fuel s.
Proof. by apply scan_value_skip_space. Qed.

Lemma ends_value_line_break (depth : nat) (s : string) :
  ends_value (line_break "" "  " depth +:+ s) = true.
Proof. reflexivity. Qed.

Lemma render_array (depth : nat) (l : list json) :
  l <> [] ->
  render "" "  " depth (JArray l)
  = "[" +:+ line_break "" "  " (S depth)
    +:+ join ("," +:+ line_break "" "  " (S depth))
          (map (render "" "  " (S depth)) l)
    +:+ line_break "" "  " depth +:+ "]".
Proof. by destruct l. Qed.

Lemma render_object (depth : nat) (kvs : list (string * json)) :
  kvs <> [] ->
  render "" "  " depth (JObject kvs)
  = "{" +:+ line_break "" "  " (S depth)
    +:+ join ("," +:+ line_break "" "  " (S depth))
          (map (fun kv => quoted (fst kv) +:+ ": "
                          +:+ render "" "  " (S depth) (snd kv)) kvs)
    +:+ line_break "" "  " depth +:+ "}".
Proof. by destruct kvs. Qed.

Lemma skip_space_render (depth : nat) (j : json) (rest : string) :
  numbers_valid j = true ->
  exists c s,
    render "" "  " depth j +:+ rest = String c s /\
    skip_space (String c s) = String c s /\
    c <> "]"%char /\ c <> "}"%char.
Proof.
  intros Hj. destruct (render_start depth j Hj) as (c & s & -> & Hc).
  destruct (value_start_facts c Hc) as (Hspace & ? & ?).
  exists c, (s +:+ rest). rewrite append_cons. split; [done|].
  split; [by apply skip_space_start | done].
Qed.

Lemma scan_elements_render (depth : nat) (l : list json) :
  Forall scans l -> l <> [] ->
  forall fuel rest acc,
    forallb strings_valid l = true -> forallb numbers_valid l = true ->
    (list_sum (map (fun e => S (weight e)) l) <= fuel)%nat ->
    scan_elements fuel
      (line_break "" "  " (S depth)
       +:+ join ("," +:+ line_break "" "  " (S depth))
             (map (render "" "  " (S depth)) l)
       +:+ line_break "" "  " depth +:+ "]" +:+ rest) acc
    = Some (JArray (rev acc ++ l), rest).
Proof.
  induction 1 as [|e l He Hl IH]; [done|]. intros _ fuel rest acc Hs Hn Hfuel.
  simpl in Hs, Hn, Hfuel.
  apply andb_true_iff in Hs as [Hse Hsl]. apply andb_true_iff in Hn as [Hne Hnl].
  destruct fuel as [|fuel]; [lia|].
  destruct l as [|e' l'].
  - cbn [map join]. cbn [scan_elements].
    rewrite scan_value_line_break, (He (S depth) fuel) by (done || simpl in *; lia).
    rewrite skip_space_line_break. done.
  - change (join ("," +:+ line_break "" "  " (S depth))
              (map (render "" "  " (S depth)) (e :: e' :: l')))
      with (render "" "  " (S depth) e +:+ ("," +:+ line_break "" "  " (S depth))
            +:+ join ("," +:+ line_break "" "  " (S depth))
                  (map (render "" "  " (S depth)) (e' :: l'))).
    rewrite !append_assoc. cbn [scan_elements].
    rewrite scan_value_line_break, (He (S depth) fuel) by (done || simpl in *; lia).
    rewrite append_cons, append_nil_l. cbn [skip_space is_space]. simpl.
    rewrite IH by (done || simpl in *; lia). simpl. by rewrite <- app_assoc.
Qed.

End ParseFacts.

(** ** Every rendered document is read back *)

Section ValueFacts.
Import JSON Text.

Lemma member_text (k : string) (text tail : string) :
  (quoted k +:+ ": " +:+ text) +:+ tail
  = String quote (escape k +:+ String quote (String ":" (String " " (text +:+ tail)))).
Proof.
  unfold quoted. rewrite !append_assoc, !append_cons, !append_assoc.
  by rewrite !append_cons, !append_nil_l.
Qed.

Lemma scan_member (fuel depth : nat) (k : string) (v : json) (tail : string)
    (acc : list (string * json)) :
  scans v ->
  utf8_valid k = true -> strings_valid v = true -> numbers_valid v = true ->
  (weight v <= fuel)%nat -> ends_value tail = true ->
  scan_members (S fuel)
    (line_break "" "  " (S depth)
     +:+ (quoted k +:+ ": " +:+ render "" "  " (S depth) v) +:+ tail) acc
  = match skip_space tail with
    | String "," s4 => scan_members fuel s4 ((k, v) :: acc)
    | String "}" s4 => Some (JObject (rev ((k, v) :: acc)), s4)
    | _ => None
    end.
Proof.
  intros Hv Hk Hs Hn Hfuel Htail. cbn [scan_members].
  rewrite skip_space_line_break, member_text.
  rewrite skip_space_start by done. rewrite Ascii.eqb_refl.
  rewrite scan_string_escape by done. rewrite skip_space_start by done.
  rewrite scan_value_space, (Hv (S depth) fuel tail) by done. done.
Qed.

Lemma scan_members_render (depth : nat) (kvs : list (string * json)) :
  Forall (fun kv => scans (snd kv)) kvs -> kvs <> [] ->
  forall fuel rest acc,
    forallb (fun kv => utf8_valid (fst kv) && strings_valid (snd kv)) kvs = true ->
    forallb (fun kv => numbers_valid (snd kv)) kvs = true ->
    (list_sum (map (fun kv => S (weight (snd kv))) kvs) <= fuel)%nat ->
    scan_members fuel
      (line_break "" "  " (S depth)
       +:+ join ("," +:+ line_break "" "  " (S depth))
             (map (fun kv => quoted (fst kv) +:+ ": "
                             +:+ render "" "  " (S depth) (snd kv)) kvs)
       +:+ line_break "" "  " depth +:+ "}" +:+ rest) acc
    = Some (JObject (rev acc ++ kvs), rest).
Proof.
  induction 1 as [|[k v] kvs Hv Hkvs IH]; [done|]. intros _ fuel rest acc Hs Hn Hfuel.
  simpl in Hs, Hn, Hfuel, Hv.
  apply andb_true_iff in Hs as [Hs Hsl]. apply andb_true_iff in Hs as [Hk Hsv].
  apply andb_true_iff in Hn as [Hnv Hnl].
  destruct fuel as [|fuel]; [lia|].
  destruct kvs as [|kv' kvs'].
  - cbn [map join fst snd].
    rewrite scan_member by (done || simpl in *; lia).
    by rewrite (skip_space_line_break depth ("}" +:+ rest)).
  - change (join ("," +:+ line_break "" "  " (S depth))
              (map (fun kv => quoted (fst kv) +:+ ": "
                              +:+ render "" "  " (S depth) (snd kv))
                 ((k, v) :: kv' :: kvs')))
      with ((quoted k +:+ ": " +:+ render "" "  " (S depth) v)
            +:+ ("," +:+ line_break "" "  " (S depth))
            +:+ join ("," +:+ line_break "" "  " (S depth))
                  (map (fun kv => quoted (fst kv) +:+ ": "
                                  +:+ render "" "  " (S depth) (snd kv))
                     (kv' :: kvs'))).
    rewrite (append_assoc (quoted k +:+ ": " +:+ render "" "  " (S depth) v)).
    rewrite scan_member by (done || simpl in *; lia).
    rewrite !append_assoc, append_cons, append_nil_l. cbn [skip_space is_space]. simpl.
    rewrite IH by (done || simpl in *; lia). simpl. by rewrite <- app_assoc.
Qed.

Lemma scan_value_string (fuel : nat) (s : string) :
  scan_value (S fuel) (String quote s) = prod_map JString id <$> scan_string s.
Proof. reflexivity. Qed.

Lemma scan_value_array (fuel : nat) (s : string) :
  scan_value (S fuel) (String "[" s)
  = match skip_space s with
    | String "]" s'' => Some (JArray [], s'')
    | _ => scan_elements fuel s []
    end.
Proof. reflexivity. Qed.

Lemma scan_value_object (fuel : nat) (s : string) :
  scan_value (S fuel) (String "{" s)
  = match skip_space s with
    | String "}" s'' => Some (JObject [], s'')
    | _ => scan_members fuel s []
    end.
Proof. reflexivity. Qed.

(** Every document whose strings and numbers are valid is read back from
    its rendering. *)
Lemma scan_value_render (j : json) : scans j.
Proof.
  induction j as [|b|lit|s|l IH|kvs IH] using json_induction;
    intros depth fuel rest Hs Hn Hfuel Hrest;
    (destruct fuel as [|fuel]; [simpl in Hfuel; lia|]).
  - apply (expect_append "null").
  - destruct b; [apply (expect_append "true") | apply (expect_append "false")].
  - simpl in Hn. unfold number_literal in Hn. destruct lit as [|c lit]; [done|].
    apply andb_true_iff in Hn as [Hc Hlit].
    assert (Hstart : value_start c = true).
    { unfold value_start. apply orb_true_iff in Hc as [->| ->]; by rewrite ?orb_true_r. }
    destruct (value_start_facts c Hstart) as (Hspace & _ & _).
    cbn [render]. rewrite append_cons. cbn [scan_value].
    rewrite skip_space_start by done.
    rewrite <- append_cons, scan_number_literal by done.
    destruct c as [[] [] [] [] [] [] [] []]; try discriminate Hc; reflexivity.
  - cbn [render]. unfold quoted. rewrite append_cons, append_assoc, append_cons, append_nil_l.
    rewrite scan_value_string, scan_string_escape by done. done.
  - destruct l as [|e l]; [reflexivity|].
    rewrite render_array by done. rewrite !append_assoc, append_cons, append_nil_l.
    rewrite scan_value_array, skip_space_line_break.
    change (join ("," +:+ line_break "" "  " (S depth))
              (render "" "  " (S depth) e :: map (render "" "  " (S depth)) l))
      with (join ("," +:+ line_break "" "  " (S depth))
              (map (render "" "  " (S depth)) (e :: l))).
    assert (Hhead : exists c s,
              join ("," +:+ line_break "" "  " (S depth))
                (map (render "" "  " (S depth)) (e :: l))
              +:+ line_break "" "  " depth +:+ "]" +:+ rest = String c s /\
              skip_space (String c s) = String c s /\ c <> "]"%char).
    { simpl in Hn. apply andb_true_iff in Hn as [Hne _].
      destruct l as [|e' l'].
      - destruct (skip_space_render (S depth) e
                    (line_break "" "  " depth +:+ "]" +:+ rest) Hne)
          as (c & s & Heq & ? & ? & _).
        exists c, s. split; [exact Heq | done].
      - destruct (skip_space_render (S depth) e
                    (("," +:+ line_break "" "  " (S depth))
                     +:+ join ("," +:+ line_break "" "  " (S depth))
                           (map (render "" "  " (S depth)) (e' :: l'))
                     +:+ line_break "" "  " depth +:+ "]" +:+ rest) Hne)
          as (c & s & Heq & ? & ? & _).
        exists c, s. split; [|done]. rewrite <- Heq.
        cbn [map join]. by rewrite !append_assoc. }
    destruct Hhead as (c & s & Heq & Hskip & Hc).
    rewrite Heq, Hskip.
    assert (Hgo : forall X : option (json * string),
              match String c s with
              | String "]" s'' => Some (JArray [], s'')
              | _ => X
              end = X).
    { intros X. destruct c as [[] [] [] [] [] [] [] []]; try done. }
    rewrite Hgo, <- Heq.
    rewrite (scan_elements_render depth (e :: l) IH) by (done || simpl in *; lia).
    done.
  - destruct kvs as [|kv kvs]; [reflexivity|].
    rewrite render_object by done. rewrite !append_assoc, append_cons, append_nil_l.
    rewrite scan_value_object, skip_space_line_break.
    set (members := join _ _).
    assert (Hhead : exists s,
              members +:+ line_break "" "  " depth +:+ "}" +:+ rest = String quote s).
    { subst members. destruct kv as [k v]. destruct kvs as [|kv' kvs'].
      - cbn [map join fst snd]. rewrite member_text. by eexists.
      - cbn [map join fst snd].
        rewrite (append_assoc (quoted k +:+ ": " +:+ render "" "  " (S depth) v)).
        rewrite member_text. by eexists. }
    destruct Hhead as (s & Heq). rewrite Heq. rewrite skip_space_start by done.
    change (match String quote s with
            | String "}" s'' => Some (JObject [], s'')
            | _ => scan_members fuel
                     (line_break "" "  " (S depth) +:+ String quote s) []
            end)
      with (scan_members fuel (line_break "" "  " (S depth) +:+ String quote s) []).
    rewrite <- Heq. subst members.
    rewrite (scan_members_render depth (kv :: kvs) IH) by (done || simpl in *; lia).
    done.
Qed.
End ValueFacts.

(** ** [json.Unmarshal] of what [json.MarshalIndent] wrote *)

Section DocumentFacts.
Import JSON Text.

Lemma join_length (sep : string) (l : list string) :
  (1 <= String.length sep)%nat ->
  (list_sum (map (fun x => S (String.length x)) l) <= String.length (join sep l) + 1)%nat.
Proof.
  intros Hsep. induction l as [|x l IH]; [simpl; lia|].
  destruct l as [|y l]; [simpl; lia|].
  change (join sep (x :: y :: l)) with (x +:+ sep +:+ join sep (y :: l)).
  rewrite !length_append. simpl in *. lia.
Qed.

Lemma list_sum_le {A} (f g : A -> nat) (l : list A) :
  Forall (fun x => (f x <= g x)%nat) l ->
  (list_sum (map f l) <= list_sum (map g l))%nat.
Proof. induction 1; simpl; lia. Qed.

Lemma forallb_Forall {A} (f : A -> bool) (l : list A) :
  forallb f l = true -> Forall (fun x => f x = true) l.
Proof.
  induction l as [|x l IH]; simpl; [constructor|].
  intros [Hx Hl]%andb_true_iff. constructor; [done | by apply IH].
Qed.

Lemma line_break_length (depth : nat) :
  (1 <= String.length (line_break "" "  " depth))%nat.
Proof. simpl. lia. Qed.

(** The fuel a document needs is bounded by the length of its rendering. *)
Lemma weight_render (j : json) :
  forall depth,
    numbers_valid j = true ->
    (weight j <= String.length (render "" "  " depth j))%nat.
Proof.
  induction j as [|b|lit|s|l IH|kvs IH] using json_induction; intros depth Hn.
  - simpl. lia.
  - destruct b; simpl; lia.
  - simpl in *. unfold number_literal in Hn. destruct lit; [done | simpl; lia].
  - simpl. lia.
  - destruct l as [|e l]; [simpl; lia|].
    rewrite render_array by done. rewrite !length_append.
    pose proof (line_break_length depth). pose proof (line_break_length (S depth)).
    pose proof (join_length ("," +:+ line_break "" "  " (S depth))
                  (map (render "" "  " (S depth)) (e :: l))) as Hjoin.
    rewrite length_append in Hjoin. specialize (Hjoin ltac:(simpl; lia)).
    rewrite map_map in Hjoin.
    assert (Hsum : (list_sum (map (fun e => S (weight e)) (e :: l))
                    <= list_sum (map (fun x => S (String.length
                                                    (render "" "  " (S depth) x)))
                                   (e :: l)))%nat).
    { apply list_sum_le.
      change (forallb numbers_valid (e :: l) = true) in Hn.
      apply forallb_Forall in Hn.
      apply Forall_forall. intros x Hx.
      apply Forall_forall with (x := x) in IH; [|done].
      apply Forall_forall with (x := x) in Hn; [|done].
      by apply le_n_S, IH. }
    cbn [weight]. change (String.length "[") with 1%nat.
    change (String.length "]") with 1%nat. lia.
  - destruct kvs as [|kv kvs]; [simpl; lia|].
    rewrite render_object by done. rewrite !length_append.
    pose proof (line_break_length depth). pose proof (line_break_length (S depth)).
    pose proof (join_length ("," +:+ line_break "" "  " (S depth))
                  (map (fun kv => quoted (fst kv) +:+ ": "
                                  +:+ render "" "  " (S depth) (snd kv))
                     (kv :: kvs))) as Hjoin.
    rewrite length_append in Hjoin. specialize (Hjoin ltac:(simpl; lia)).
    rewrite map_map in Hjoin.
    assert (Hsum : (list_sum (map (fun kv => S (weight (snd kv))) (kv :: kvs))
                    <= list_sum
                         (map (fun x => S (String.length
                                             (quoted (fst x) +:+ ": "
                                              +:+ render "" "  " (S depth) (snd x))))
                            (kv :: kvs)))%nat).
    { apply list_sum_le.
      change (forallb (fun kv => numbers_valid (snd kv)) (kv :: kvs) = true) in Hn.
      apply forallb_Forall in Hn.
      apply Forall_forall. intros x Hx.
      apply Forall_forall with (x := x) in IH; [|done].
      apply Forall_forall with (x := x) in Hn; [|done].
      rewrite !length_append. apply le_n_S.
      etrans; [by apply (IH (S depth))|lia]. }
    cbn [weight]. change (String.length "{") with 1%nat.
    change (String.length "}") with 1%nat. lia.
Qed.

(** The parser reads a rendered document back. *)
Lemma parse_render (j : json) :
  strings_valid j = true -> numbers_valid j = true ->
  parse (render "" "  " 0 j) = Ok j.
Proof.
  intros Hs Hn. unfold parse.
  pose proof (scan_value_render j 0%nat
                (2 * String.length (render "" "  " 0 j) + 2)%nat
                EmptyString Hs Hn) as Hscan.
  rewrite append_nil_r in Hscan. rewrite Hscan; [done| |done].
  pose proof (weight_render j 0%nat Hn). lia.
Qed.

(** [json.Unmarshal] of what [json.MarshalIndent] wrote, for values whose
    encoding has valid strings and numbers. *)
Lemma Unmarshal_MarshalIndent {A} `{Codec A} (v : A) (j : json) (data : list byte) :
  toJSON v = Ok j ->
  strings_valid j = true -> numbers_valid j = true ->
  MarshalIndent v "" "  " = Ok data ->
  Unmarshal (A := A) data = fromJSON j.
Proof.
  unfold MarshalIndent, Unmarshal. intros -> Hs Hn [= <-].
  by rewrite string_of_list_byte_of_string, parse_render.
Qed.
End DocumentFacts.

(** ** Base64: the alphabet *)

Section Base64Facts.
Import Base64.
Local Open Scope N_scope.

Lemma lor_shiftl_add (x k y : N) : y < 2 ^ k -> N.lor (N.shiftl x k) y = x * 2 ^ k + y.
Proof.
  intros Hy.
  assert (Hdisjoint : N.land (N.shiftl x k) y = 0).
  { apply N.bits_inj. intros i. rewrite N.land_spec, N.bits_0.
    destruct (N.lt_ge_cases i k) as [Hlt|Hge].
    - by rewrite N.shiftl_spec_low.
    - destruct (decide (y = 0)) as [->|Hne]; [by rewrite N.bits_0, andb_false_r|].
      rewrite (N.bits_above_log2 y i), andb_false_r; [done|].
      apply N.lt_le_trans with k; [|done]. apply N.log2_lt_pow2; [by apply N.neq_0_lt_0 | exact Hy]. }
  rewrite <- N.lxor_lor, <- N.add_nocarry_lxor by done.
  by rewrite N.shiftl_mul_pow2.
Qed.

Lemma land_63 (n : N) : N.land n 63 = n mod 64.
Proof. apply (N.land_ones n 6). Qed.

Lemma land_255 (n : N) : N.land n 255 = n mod 256.
Proof. apply (N.land_ones n 8). Qed.

Lemma sextet_checked : forallb sextet_check (seq 0 64) = true.
Proof. vm_compute. reflexivity. Qed.

Lemma sextet_char_facts (n : N) :
  char_sextet (sextet_char n) = Some (n mod 64) /\
  Ascii.eqb (sextet_char n) pad = false /\
  (N_of_ascii (sextet_char n) <? 128) = true.
Proof.
  unfold char_sextet, sextet_char. rewrite land_63.
  assert (Hk : (N.to_nat (n mod 64) < 64)%nat).
  { pose proof (N.mod_upper_bound n 64). lia. }
  pose proof (proj1 (forallb_forall _ _) sextet_checked (N.to_nat (n mod 64))) as Hcheck.
  unfold sextet_check in Hcheck. rewrite N2Nat.id in Hcheck.
  assert (Hin : In (N.to_nat (n mod 64)) (seq 0 64)).
  { apply in_seq. split; [apply Nat.le_0_l | exact Hk]. }
  specialize (Hcheck Hin).
  destruct (index_of _ alphabet) as [m|]; [|done].
  apply andb_true_iff in Hcheck as [Hcheck Hascii].
  apply andb_true_iff in Hcheck as [Hm Hpad].
  apply N.eqb_eq in Hm. subst m. split; [done|]. split; [|done].
  by apply negb_true_iff.
Qed.

Lemma byte_of_to_N (a : byte) (n : N) : n mod 256 = Byte.to_N a -> byte_of n = a.
Proof. intros Hn. unfold byte_of. by rewrite land_255, Hn, Byte.of_to_N. Qed.

Lemma to_N_lt (a : byte) : Byte.to_N a < 256.
Proof. pose proof (Byte.to_N_bounded a). lia. Qed.
End Base64Facts.

(** ** Base64: decoding what was encoded *)

Section Base64RoundTrip.
Import Base64.
Local Open Scope N_scope.

Ltac sextets :=
  repeat match goal with
  | |- context [char_sextet (sextet_char ?n)] =>
      rewrite (proj1 (sextet_char_facts n))
  | |- context [Ascii.eqb (sextet_char ?n) pad] =>
      rewrite (proj1 (proj2 (sextet_char_facts n)))
  end.

Ltac arith :=
  rewrite ?N.shiftr_div_pow2, ?N.shiftl_mul_pow2;
  change (2 ^ 2) with 4; change (2 ^ 4) with 16; change (2 ^ 6) with 64;
  change (2 ^ 8) with 256; change (2 ^ 10) with 1024; change (2 ^ 12) with 4096;
  change (2 ^ 16) with 65536; change (2 ^ 18) with 262144.

Lemma one_byte (a : byte) :
  let n := N.shiftl (Byte.to_N a) 4 in
  byte_of (N.shiftr (N.lor (N.shiftl (N.shiftr n 6 mod 64) 6) (n mod 64)) 4) = a.
Proof.
  cbn zeta. pose proof (to_N_lt a) as Ha. apply byte_of_to_N.
  rewrite lor_shiftl_add by (apply N.mod_upper_bound; done).
  arith. generalize (Byte.to_N a) Ha. clear. intros A Ha.
  zify. Z.to_euclidean_division_equations. lia.
Qed.

Lemma two_bytes (a b : byte) :
  let n := N.shiftl (N.lor (N.shiftl (Byte.to_N a) 8) (Byte.to_N b)) 2 in
  let mid := N.lor (N.shiftl (N.lor (N.shiftl (N.shiftr n 12 mod 64) 6)
                                (N.shiftr n 6 mod 64)) 6) (n mod 64) in
  byte_of (N.shiftr mid 10) = a /\ byte_of (N.shiftr mid 2) = b.
Proof.
  cbn zeta. pose proof (to_N_lt a) as Ha. pose proof (to_N_lt b) as Hb.
  rewrite (lor_shiftl_add (Byte.to_N a) 8) by done.
  rewrite !lor_shiftl_add by (apply N.mod_upper_bound; done).
  split; apply byte_of_to_N; arith;
    generalize (Byte.to_N a) (Byte.to_N b) Ha Hb; clear; intros A B Ha Hb;
    zify; Z.to_euclidean_division_equations; lia.
Qed.

Lemma three_bytes (a b c : byte) :
  let n := N.lor (N.shiftl (Byte.to_N a) 16)
             (N.lor (N.shiftl (Byte.to_N b) 8) (Byte.to_N c)) in
  let m := N.lor (N.shiftl (N.lor (N.shiftl (N.lor (N.shiftl (N.shiftr n 18 mod 64) 6)
                                              (N.shiftr n 12 mod 64)) 6)
                             (N.shiftr n 6 mod 64)) 6) (n mod 64) in
  byte_of (N.shiftr m 16) = a /\ byte_of (N.shiftr m 8) = b /\ byte_of m = c.
Proof.
  cbn zeta. pose proof (to_N_lt a) as Ha. pose proof (to_N_lt b) as Hb.
  pose proof (to_N_lt c) as Hc.
  rewrite (lor_shiftl_add (Byte.to_N b) 8) by done.
  rewrite (lor_shiftl_add (Byte.to_N a) 16)
    by (change (2 ^ 16) with 65536; change (2 ^ 8) with 256; lia).
  rewrite !lor_shiftl_add by (apply N.mod_upper_bound; done).
  repeat split; apply byte_of_to_N; arith;
    generalize (Byte.to_N a) (Byte.to_N b) (Byte.to_N c) Ha Hb Hc; clear;
    intros A B C Ha Hb Hc;
    zify; Z.to_euclidean_division_equations; lia.
Qed.

(** [DecodeString] of what [EncodeToString] wrote. *)
Lemma decode_encode (l : list byte) : decode (encode l) = Ok l.
Proof.
  remember (length l) as n eqn:Hn. revert l Hn.
  induction n as [n IH] using lt_wf_ind. intros l ->.
  destruct l as [|a [|b [|c l]]].
  - reflexivity.
  - cbn [encode decode]. sextets. cbn [Ascii.eqb Bool.eqb pad andb String.eqb].
    by rewrite one_byte.
  - cbn [encode decode]. sextets. cbn [Ascii.eqb Bool.eqb pad andb String.eqb].
    by destruct (two_bytes a b) as [-> ->].
  - cbn [encode decode]. sextets.
    rewrite (IH (length l)) by (simpl; done || lia).
    cbn [result_map result_bind].
    by destruct (three_bytes a b c) as (-> & -> & ->).
Qed.

(** An encoding has only characters below 0x80. *)
Lemma utf8_valid_below (c : ascii) (s : string) :
  (N_of_ascii c <? 128) = true ->
  Text.utf8_valid (String c s) = Text.utf8_valid s.
Proof. intros Hc. cbn [Text.utf8_valid]. by rewrite Hc. Qed.

Lemma utf8_valid_encode (l : list byte) : Text.utf8_valid (encode l) = true.
Proof.
  remember (length l) as n eqn:Hn. revert l Hn.
  induction n as [n IH] using lt_wf_ind. intros l ->.
  destruct l as [|a [|b [|c l]]]; cbn [encode];
    rewrite ?utf8_valid_below by (apply sextet_char_facts || done); [done..|].
  apply (IH (length l)); simpl; done || lia.
Qed.
End Base64RoundTrip.

(** ** Strings, byte strings, pointers, slices and maps are read back *)

Section CodecFacts.
Import JSON Text Roundtrip.

Lemma decodes_string : decodes string_toJSON string_fromJSON id.
Proof. intros s j [= <-] Hs. done. Qed.

Lemma decodes_bytes : decodes bytes_toJSON bytes_fromJSON id.
Proof.
  intros [l|] j [= <-] Hs; [|done]. split; [done|].
  simpl. by rewrite decode_encode.
Qed.

Lemma strings_valid_bytes (b : slice byte) : strings_valid (bytes_json b) = true.
Proof. destruct b as [l|]; [apply utf8_valid_encode | done]. Qed.

Lemma numbers_valid_bytes (b : slice byte) : numbers_valid (bytes_json b) = true.
Proof. by destruct b. Qed.

Lemma decodes_ptr {A} (enc : A -> result json) (dec : json -> result A) (back : A -> A) :
  decodes enc dec back -> never_null enc ->
  decodes (ptr_toJSON enc) (ptr_fromJSON dec) (fmap (M := option) back).
Proof.
  intros Hdec Hnull [a|] j Hj Hs; simpl in *; [|by injection Hj as <-].
  destruct (Hdec a j Hj Hs) as [Hn Hback]. split; [done|].
  destruct j; [by destruct (Hnull a) | cbn [ptr_fromJSON]; rewrite Hback; reflexivity ..].
Qed.

Lemma result_mapM_decodes {A} (enc : A -> result json) (dec : json -> result A)
    (back : A -> A) (l : list A) (js : list json) :
  decodes enc dec back ->
  result_mapM enc l = Ok js -> forallb strings_valid js = true ->
  forallb numbers_valid js = true /\ result_mapM dec js = Ok (back <$> l).
Proof.
  intros Hdec. revert js. induction l as [|a l IH]; intros js Hjs Hs.
  - by injection Hjs as <-.
  - cbn [result_mapM] in Hjs. destruct (enc a) as [j|] eqn:Hj; [|done].
    cbn [result_bind] in Hjs.
    destruct (result_mapM enc l) as [js'|] eqn:Hjs'; [|done].
    injection Hjs as <-. simpl in Hs. apply andb_true_iff in Hs as [Hsj Hsjs].
    destruct (Hdec a j Hj Hsj) as [Hn Hback].
    destruct (IH js' eq_refl Hsjs) as [Hns Hbacks].
    split; [simpl; by rewrite Hn, Hns|].
    cbn [result_mapM]. by rewrite Hback, Hbacks.
Qed.

Lemma decodes_slice {A} (enc : A -> result json) (dec : json -> result A) (back : A -> A) :
  decodes enc dec back ->
  decodes (slice_toJSON enc) (slice_fromJSON dec)
    (fmap (M := option) (fmap (M := list) back)).
Proof.
  intros Hdec [l|] j Hj Hs; simpl in *; [|by injection Hj as <-].
  unfold result_map in Hj. destruct (result_mapM enc l) as [js|] eqn:Hjs; [|done].
  injection Hj as <-.
  destruct (result_mapM_decodes enc dec back l js Hdec Hjs Hs) as [Hn Hback].
  split; [done|]. simpl. by rewrite Hback.
Qed.

(** Inserting the entries of a list without repeated keys, one after the
    other. *)
Lemma fold_left_insert {A} (back : A -> A) (l : list (string * A)) (acc : gmap string A) :
  NoDup l.*1 ->
  fold_left (fun m kv => <[fst kv := back (snd kv)]> m) l acc
  = list_to_map (prod_map id back <$> l) ∪ acc.
Proof.
  revert acc. induction l as [|[k v] l IH]; intros acc Hnodup.
  - cbn [fold_left]. by rewrite fmap_nil, list_to_map_nil, (left_id_L ∅ (∪)).
  - rewrite fmap_cons in Hnodup. apply NoDup_cons in Hnodup as [Hk Hnodup].
    cbn [fold_left fst snd] in *. rewrite IH by done.
    rewrite fmap_cons. change (prod_map id back (k, v)) with (k, back v).
    rewrite list_to_map_cons.
    rewrite <- insert_union_l, insert_union_r; [done|].
    apply not_elem_of_list_to_map_1.
    assert ((prod_map id back <$> l).*1 = l.*1) as ->; [|done].
    rewrite <- list_fmap_compose. apply list_fmap_ext. by intros i [k' v'] _.
Qed.

Lemma sorted_entries_to_map {A} (back : A -> A) (m : gmap string A) :
  fold_left (fun acc kv => <[fst kv := back (snd kv)]> acc) (sorted_entries m) ∅
  = back <$> m.
Proof.
  assert (Hperm : sorted_entries m ≡ₚ map_to_list m)
    by apply merge_sort_Permutation.
  assert (Hnodup : NoDup (sorted_entries m).*1).
  { rewrite Hperm. apply NoDup_fst_map_to_list. }
  rewrite fold_left_insert by done. rewrite (right_id_L ∅ (∪)).
  rewrite list_to_map_fmap. f_equal.
  rewrite (list_to_map_proper _ (map_to_list m)) by done.
  apply list_to_map_to_list.
Qed.

Lemma map_entries_decode {A} (enc : A -> result json) (dec : json -> result A)
    (back : A -> A) (l : list (string * A)) (kvs : list (string * json)) :
  decodes enc dec back ->
  result_mapM (fun kv => result_map (pair (fst kv)) (enc (snd kv))) l = Ok kvs ->
  forallb (fun kv => utf8_valid (fst kv) && strings_valid (snd kv)) kvs = true ->
  forallb (fun kv => numbers_valid (snd kv)) kvs = true /\
  forall acc : gmap string A,
    fold_left
      (fun acc kv =>
         result_bind acc (fun m =>
         result_map (fun v => <[fst kv := v]> m) (dec (snd kv))))
      kvs (Ok acc)
    = Ok (fold_left (fun m kv => <[fst kv := back (snd kv)]> m) l acc).
Proof.
  intros Hdec. revert kvs. induction l as [|[k v] l IH]; intros kvs Hkvs Hs.
  - by injection Hkvs as <-.
  - cbn [result_mapM fst snd] in Hkvs. unfold result_map in Hkvs.
    destruct (enc v) as [j|] eqn:Hj; [|done]. cbn [result_bind] in Hkvs.
    destruct (result_mapM _ l) as [kvs'|] eqn:Hkvs'; [|done].
    injection Hkvs as <-. simpl in Hs. apply andb_true_iff in Hs as [Hsj Hskvs].
    apply andb_true_iff in Hsj as [_ Hsj].
    destruct (Hdec v j Hj Hsj) as [Hn Hback].
    destruct (IH kvs' eq_refl Hskvs) as [Hns Hfold].
    split; [simpl; by rewrite Hn, Hns|].
    intros acc. cbn [fold_left fst snd result_bind]. rewrite Hback.
    cbn [result_map result_bind]. apply Hfold.
Qed.

Lemma decodes_map {A} (enc : A -> result json) (dec : json -> result A) (back : A -> A) :
  decodes enc dec back ->
  decodes (map_toJSON enc) (map_fromJSON dec) (fmap (M := gmap string) back).
Proof.
  intros Hdec m j Hj Hs. unfold map_toJSON, result_map in Hj.
  destruct (result_mapM _ (sorted_entries m)) as [kvs|] eqn:Hkvs; [|done].
  injection Hj as <-.
  destruct (map_entries_decode enc dec back _ kvs Hdec Hkvs Hs) as [Hn Hfold].
  split; [done|]. cbn [map_fromJSON]. rewrite Hfold.
  by rewrite sorted_entries_to_map.
Qed.
End CodecFacts.

(** ** The structs of persist.go are read back *)

Section StructFacts.
Import JSON Text Roundtrip Props.

Ltac split_valid :=
  repeat match goal with
  | H : (_ && _) = true |- _ => apply andb_true_iff in H as [? ?]
  end.

(** Looking the fields of a struct up in the object written for it. *)
Ltac fields :=
  repeat match goal with
  | |- context [field ?kvs ?name] =>
      let v := eval cbv [field fold_left fst snd] in (field kvs name) in
      change (field kvs name) with v
  end;
  repeat match goal with
  | |- context [equal_fold ?a ?b] =>
      let v := eval vm_compute in (equal_fold a b) in
      change (equal_fold a b) with v
  end;
  cbv iota.

Lemma decodes_persistedFriend :
  decodes persistedFriend_toJSON persistedFriend_fromJSON id.
Proof.
  intros [username longTermKey extraData] j [= <-] Hs.
  split; [cbn; by rewrite !numbers_valid_bytes|].
  cbn [persistedFriend_fromJSON]. fields. cbn [string_fromJSON result_bind].
  destruct (decodes_bytes longTermKey _ eq_refl (strings_valid_bytes _)) as [_ ->].
  destruct (decodes_bytes extraData _ eq_refl (strings_valid_bytes _)) as [_ ->].
  done.
Qed.

Lemma never_null_persistedFriend : never_null persistedFriend_toJSON.
Proof. by intros f. Qed.

Lemma decodes_Request {F} `{Codec F} :
  decodes (toJSON (A := F)) fromJSON id ->
  decodes (Request_toJSON (F := F)) Request_fromJSON request_decoded.
Proof.
  intros Hdec [f c] j Hj Hs. unfold Request_toJSON in Hj. simpl in Hj.
  destruct (Hdec f j Hj Hs) as [Hn Hback]. split; [done|].
  unfold Request_fromJSON. by rewrite Hback.
Qed.

Lemma never_null_Request {F} `{Codec F} :
  never_null (toJSON (A := F)) -> never_null (Request_toJSON (F := F)).
Proof. intros Hnull r. apply Hnull. Qed.

Section StateFacts.
Context `{Externals} `{!Laws}.

Lemma decodes_config :
  decodes (ptr_toJSON (toJSON (A := SignedConfig))) (ptr_fromJSON fromJSON)
    (fmap (M := option) id).
Proof. apply decodes_ptr; [apply SignedConfig_decodes | apply SignedConfig_never_null]. Qed.

Lemma decodes_requests {F} `{Codec F} :
  decodes (toJSON (A := F)) fromJSON id -> never_null (toJSON (A := F)) ->
  decodes (slice_toJSON (ptr_toJSON (Request_toJSON (F := F))))
    (slice_fromJSON (ptr_fromJSON Request_fromJSON)) (redirect None).
Proof.
  intros Hdec Hnull.
  apply decodes_slice, decodes_ptr; [by apply decodes_Request | by apply never_null_Request].
Qed.

Lemma decodes_friends :
  decodes (map_toJSON (ptr_toJSON persistedFriend_toJSON))
    (map_fromJSON (ptr_fromJSON persistedFriend_fromJSON))
    (fmap (M := gmap string) (fmap (M := option) id)).
Proof.
  apply decodes_map, decodes_ptr;
    [apply decodes_persistedFriend | apply never_null_persistedFriend].
Qed.

Lemma option_fmap_id_eq {A} (o : option A) : id <$> o = o.
Proof. by destruct o. Qed.

(** The decoder of the client blob reads back the state that was encoded,
    without the back-references of the requests. *)
Lemma decodes_persistedState :
  decodes (toJSON (A := persistedState.t)) fromJSON state_decoded.
Proof.
  intros st j Hj Hs. cbn [toJSON persistedState_Codec] in Hj.
  unfold persistedState_toJSON, string_toJSON, bytes_toJSON in Hj.
  cbn [result_bind] in Hj.
  destruct (ptr_toJSON toJSON (persistedState.AddFriendConfig st))
    as [addFriendConfig|] eqn:Haf; [cbn [result_bind] in Hj | done].
  destruct (ptr_toJSON toJSON (persistedState.DialingConfig st))
    as [dialingConfig|] eqn:Hdc; [cbn [result_bind] in Hj | done].
  destruct (slice_toJSON (ptr_toJSON Request_toJSON) (persistedState.IncomingFriendRequests st))
    as [incoming|] eqn:Hin; [cbn [result_bind] in Hj | done].
  destruct (slice_toJSON (ptr_toJSON Request_toJSON) (persistedState.OutgoingFriendRequests st))
    as [outgoing|] eqn:Hout; [cbn [result_bind] in Hj | done].
  destruct (slice_toJSON (ptr_toJSON Request_toJSON) (persistedState.SentFriendRequests st))
    as [sent|] eqn:Hsent; [cbn [result_bind] in Hj | done].
  destruct (map_toJSON (ptr_toJSON persistedFriend_toJSON) (persistedState.Friends st))
    as [friends|] eqn:Hfriends; [cbn [result_bind] in Hj | done].
  injection Hj as <-.
  cbn [strings_valid forallb fst snd] in Hs. split_valid.
  destruct (decodes_config _ _ Haf) as [Hn1 Hd1]; [done|].
  destruct (decodes_config _ _ Hdc) as [Hn2 Hd2]; [done|].
  destruct (decodes_requests IncomingFields_decodes IncomingFields_never_null _ _ Hin)
    as [Hn3 Hd3]; [done|].
  destruct (decodes_requests OutgoingFields_decodes OutgoingFields_never_null _ _ Hout)
    as [Hn4 Hd4]; [done|].
  destruct (decodes_requests SentFields_decodes SentFields_never_null _ _ Hsent)
    as [Hn5 Hd5]; [done|].
  destruct (decodes_friends _ _ Hfriends) as [Hn6 Hd6]; [done|].
  split.
  { cbn [numbers_valid forallb snd].
    by rewrite !numbers_valid_bytes, Hn1, Hn2, Hn3, Hn4, Hn5, Hn6. }
  cbn [fromJSON persistedState_Codec persistedState_fromJSON]. fields.
  cbn [string_fromJSON result_bind].
  rewrite !(proj2 (decodes_bytes _ _ eq_refl (strings_valid_bytes _))).
  cbn [result_bind]. rewrite Hd1, Hd2, Hd3, Hd4, Hd5, Hd6. cbn [result_bind].
  unfold state_decoded. rewrite !option_fmap_id_eq. f_equal. f_equal.
  apply map_eq. intros k. rewrite lookup_fmap.
  destruct (persistedState.Friends st !! k) as [[f|]|]; done.
Qed.
End StateFacts.
End StructFacts.

(** ** The configs and the request fields are read back *)

Section ModelFacts.
Import JSON Text Roundtrip Props Model.

Lemma digits_valid (d : Decimal.uint) :
  all_chars is_digit (NilEmpty.string_of_uint d) = true.
Proof. induction d; simpl; done. Qed.

Lemma all_chars_impl (p q : ascii -> bool) (s : string) :
  (forall c, p c = true -> q c = true) ->
  all_chars p s = true -> all_chars q s = true.
Proof.
  intros Hpq. induction s as [|c s IH]; [done|]. simpl.
  intros [Hc Hs]%andb_true_iff. by rewrite (Hpq c Hc), IH.
Qed.

Lemma is_digit_number_char (c : ascii) : is_digit c = true -> is_number_char c = true.
Proof. unfold is_number_char. by intros ->. Qed.

Lemma number_literal_uint (d : Decimal.uint) :
  number_literal (NilZero.string_of_uint d) = true.
Proof.
  pose proof (digits_valid d) as Hd.
  destruct d; try done; simpl in *; rewrite ?andb_true_l in *;
    by apply (all_chars_impl is_digit), Hd; apply is_digit_number_char.
Qed.

Lemma number_literal_format_d (z : Z) : number_literal (GoInt.format_d z) = true.
Proof.
  unfold GoInt.format_d. destruct (Z.to_int z) as [d|d]; simpl.
  - apply number_literal_uint.
  - pose proof (number_literal_uint d) as Hd. unfold number_literal in *.
    destruct (NilZero.string_of_uint d) as [|c s] eqn:Hs; [done|].
    apply andb_true_iff in Hd as [_ Hd].
    change (all_chars is_number_char (String "-" (String c s)) = true).
    change (is_number_char "-" && all_chars is_number_char (String c s) = true).
    by rewrite Hd.
Qed.

Lemma decodes_int : decodes int_toJSON int_fromJSON id.
Proof.
  intros z j [= <-] _. split; [apply number_literal_format_d|].
  unfold int_fromJSON, GoInt.format_d.
  destruct (to_int_not_nil z) as [Hpos Hneg].
  by rewrite NilZero.isi, DecimalZ.of_to.
Qed.

Ltac fields :=
  repeat match goal with
  | |- context [field ?kvs ?name] =>
      let v := eval cbv [field fold_left fst snd] in (field kvs name) in
      change (field kvs name) with v
  end;
  repeat match goal with
  | |- context [equal_fold ?a ?b] =>
      let v := eval vm_compute in (equal_fold a b) in
      change (equal_fold a b) with v
  end;
  cbv iota.

Ltac split_valid :=
  repeat match goal with
  | H : (_ && _) = true |- _ => apply andb_true_iff in H as [? ?]
  end.

Ltac bytes_back :=
  rewrite ?(proj2 (decodes_bytes _ _ eq_refl (strings_valid_bytes _)));
  cbn [result_bind string_fromJSON id].

Lemma decodes_Server : decodes Server_toJSON Server_fromJSON id.
Proof.
  intros [address key] j [= <-] Hs.
  split; [cbn; by rewrite numbers_valid_bytes|].
  cbn [Server_fromJSON]. fields. by bytes_back.
Qed.

Lemma list_fmap_id_eq {A} (l : list A) : id <$> l = l.
Proof. apply list_fmap_id. Qed.

Lemma slice_fmap_id_eq {A} (s : slice A) :
  fmap (M := option) (fmap (M := list) id) s = s.
Proof. destruct s as [l|]; [|done]. simpl. by rewrite list_fmap_id. Qed.

Lemma map_fmap_id_eq {A} (m : gmap string A) : id <$> m = m.
Proof. apply map_fmap_id. Qed.

Lemma decodes_SignedConfig : decodes SignedConfig_toJSON SignedConfig_fromJSON id.
Proof.
  intros c j Hj Hs. unfold SignedConfig_toJSON in Hj.
  destruct (slice_toJSON Server_toJSON (SignedConfig.PKGServers c))
    as [pkgServers|] eqn:Hpkg; [cbn [result_bind] in Hj | done].
  destruct (slice_toJSON Server_toJSON (SignedConfig.MixServers c))
    as [mixServers|] eqn:Hmix; [cbn [result_bind] in Hj | done].
  destruct (Server_toJSON (SignedConfig.CDNServer c))
    as [cdnServer|] eqn:Hcdn; [cbn [result_bind] in Hj | done].
  destruct (slice_toJSON Server_toJSON (SignedConfig.Guardians c))
    as [guardians|] eqn:Hguardians; [cbn [result_bind] in Hj | done].
  destruct (map_toJSON bytes_toJSON (SignedConfig.Signatures c))
    as [signatures|] eqn:Hsignatures; [cbn [result_bind] in Hj | done].
  injection Hj as <-.
  cbn [strings_valid forallb fst snd] in Hs. split_valid.
  destruct (decodes_slice _ _ _ decodes_Server _ _ Hpkg) as [Hn1 Hd1]; [done|].
  destruct (decodes_slice _ _ _ decodes_Server _ _ Hmix) as [Hn2 Hd2]; [done|].
  destruct (decodes_Server _ _ Hcdn) as [Hn3 Hd3]; [done|].
  destruct (decodes_slice _ _ _ decodes_Server _ _ Hguardians) as [Hn4 Hd4]; [done|].
  destruct (decodes_map _ _ _ decodes_bytes _ _ Hsignatures) as [Hn5 Hd5]; [done|].
  split.
  { cbn [numbers_valid forallb snd]. by rewrite Hn1, Hn2, Hn3, Hn4, Hn5. }
  cbn [SignedConfig_fromJSON]. fields. cbn [string_fromJSON result_bind].
  rewrite Hd1, Hd2, Hd3, Hd4, Hd5. cbn [result_bind id].
  rewrite !slice_fmap_id_eq, map_fmap_id_eq. by destruct c.
Qed.

Lemma decodes_Incoming : decodes Incoming_toJSON Incoming_fromJSON id.
Proof.
  intros r j Hj Hs. unfold Incoming_toJSON, int_toJSON in Hj.
  destruct (slice_toJSON Server_toJSON (Incoming.Verifiers r))
    as [verifiers|] eqn:Hverifiers; [cbn [result_bind] in Hj | done].
  injection Hj as <-.
  cbn [strings_valid forallb fst snd] in Hs. split_valid.
  destruct (decodes_slice _ _ _ decodes_Server _ _ Hverifiers) as [Hn1 Hd1]; [done|].
  destruct (decodes_int (Incoming.Round r) _ eq_refl eq_refl) as [Hn2 Hd2].
  split.
  { cbn [numbers_valid forallb snd]. by rewrite !numbers_valid_bytes, Hn1, !number_literal_format_d. }
  cbn [Incoming_fromJSON]. fields. bytes_back. rewrite Hd1, Hd2. cbn [result_bind id].
  rewrite !slice_fmap_id_eq. by destruct r.
Qed.

Lemma decodes_Outgoing : decodes Outgoing_toJSON Outgoing_fromJSON id.
Proof.
  intros r j Hj Hs. unfold Outgoing_toJSON, int_toJSON in Hj.
  cbn [result_bind] in Hj. injection Hj as <-.
  destruct (decodes_int (Outgoing.DialRound r) _ eq_refl eq_refl) as [Hn2 Hd2].
  split.
  { cbn [numbers_valid forallb snd]. by rewrite !numbers_valid_bytes, !number_literal_format_d. }
  cbn [Outgoing_fromJSON]. fields. bytes_back. rewrite Hd2. cbn [result_bind id].
  by destruct r.
Qed.

Lemma decodes_Sent : decodes Sent_toJSON Sent_fromJSON id.
Proof.
  intros r j Hj Hs. unfold Sent_toJSON, int_toJSON in Hj. cbn [result_bind] in Hj.
  destruct (slice_toJSON Server_toJSON (Sent.Verifiers r))
    as [verifiers|] eqn:Hverifiers; [cbn [result_bind] in Hj | done].
  injection Hj as <-.
  cbn [strings_valid forallb fst snd] in Hs. split_valid.
  destruct (decodes_slice _ _ _ decodes_Server _ _ Hverifiers) as [Hn1 Hd1]; [done|].
  destruct (decodes_int (Sent.Round r) _ eq_refl eq_refl) as [Hn2 Hd2].
  destruct (decodes_int (Sent.DialRound r) _ eq_refl eq_refl) as [Hn3 Hd3].
  split.
  { cbn [numbers_valid forallb snd]. by rewrite !numbers_valid_bytes, Hn1, !number_literal_format_d. }
  cbn [Sent_fromJSON]. fields. bytes_back. rewrite Hd2. cbn [result_bind id].
  rewrite Hd1. cbn [result_bind]. bytes_back. rewrite Hd3. cbn [result_bind id].
  rewrite !slice_fmap_id_eq. by destruct r.
Qed.

Lemma never_null_SignedConfig : never_null SignedConfig_toJSON.
Proof.
  intros c. unfold SignedConfig_toJSON.
  repeat (match goal with |- result_bind ?r _ <> _ => destruct r end;
          cbn [result_bind]; [|done]).
  done.
Qed.

Lemma never_null_Incoming : never_null Incoming_toJSON.
Proof.
  intros r. unfold Incoming_toJSON, int_toJSON.
  repeat (match goal with |- result_bind ?r _ <> _ => destruct r end;
          cbn [result_bind]; [|done]).
  done.
Qed.

Lemma never_null_Outgoing : never_null Outgoing_toJSON.
Proof. by intros r. Qed.

Lemma never_null_Sent : never_null Sent_toJSON.
Proof.
  intros r. unfold Sent_toJSON, int_toJSON. cbn [result_bind].
  repeat (match goal with |- result_bind ?r _ <> _ => destruct r end;
          cbn [result_bind]; [|done]).
  done.
Qed.
End ModelFacts.

(** ** The keywheel blob is read back *)

Section WheelFacts.
Import JSON Text Roundtrip Props Model.
Import Wheel.

Lemma read_big_endian_app (width : nat) (acc : N) (l1 l2 : list byte) :
  length l1 = width ->
  read_big_endian width acc (l1 ++ l2) = Some (from_bytes acc l1, l2).
Proof.
  revert acc l1. induction width as [|width IH]; intros acc [|b l1] Hlen; try done.
  simpl. apply IH. by injection Hlen.
Qed.

Lemma big_endian_length (width : nat) (n : N) : length (big_endian width n) = width.
Proof.
  revert n. induction width as [|width IH]; intros n; [done|].
  cbn [big_endian]. rewrite length_app, IH. simpl. lia.
Qed.

Lemma to_N_byte_of (n : N) : Byte.to_N (Base64.byte_of n) = (n mod 256)%N.
Proof.
  unfold Base64.byte_of. rewrite land_255.
  pose proof (Byte.to_of_N_option_map (n mod 256)) as Hb.
  pose proof (N.mod_upper_bound n 256 ltac:(done)) as Hlt.
  destruct (Byte.of_N (n mod 256)) as [b|] eqn:Hof.
  - simpl. by apply Byte.to_of_N.
  - simpl in Hb. destruct (N.leb_spec (n mod 256) 255); [done | lia].
Qed.

Lemma from_bytes_big_endian (width : nat) (acc n : N) :
  from_bytes acc (big_endian width n)
  = (acc * 256 ^ N.of_nat width + n mod 256 ^ N.of_nat width)%N.
Proof.
  revert n. induction width as [|width IH]; intros n.
  - simpl. rewrite N.mod_1_r. lia.
  - cbn [big_endian]. unfold from_bytes in *. rewrite fold_left_app, IH. cbn [fold_left].
    rewrite to_N_byte_of, N.shiftr_div_pow2. change (2 ^ 8)%N with 256%N.
    rewrite Nat2N.inj_succ, N.pow_succ_r'.
    rewrite (N.Div0.mod_mul_r n 256). lia.
Qed.

Lemma read_big_endian_big_endian (width : nat) (n : N) (rest : list byte) :
  (n < 256 ^ N.of_nat width)%N ->
  read_big_endian width 0 (big_endian width n ++ rest) = Some (n, rest).
Proof.
  intros Hn. rewrite read_big_endian_app by apply big_endian_length.
  rewrite from_bytes_big_endian, N.mod_small by done. by rewrite N.mul_0_l.
Qed.

Lemma read_bytes_app (l rest : list byte) :
  read_bytes (length l) (l ++ rest) = Some (l, rest).
Proof.
  unfold read_bytes. rewrite decide_True by (rewrite length_app; lia).
  by rewrite take_app_length, drop_app_length.
Qed.

(** One record is read back. *)
Lemma read_fields (k : string) (s : list byte) (r : Z) (rest : list byte)
    (count : nat) (w : t) :
  Z.of_nat (length (list_byte_of_string k)) < 2 ^ 16 ->
  0 <= r < 2 ^ 32 -> length s = 32%nat ->
  read_records (S count)
    ((big_endian 2 (N.of_nat (length (list_byte_of_string k)))
      ++ list_byte_of_string k ++ big_endian 4 (Z.to_N r) ++ s) ++ rest) w
  = read_records count rest (<[k := {| secret := s; round := r |}]> w).
Proof.
  intros Hlen Hr Hsecret. cbn [read_records]. rewrite <- !app_assoc.
  rewrite read_big_endian_big_endian
    by (change (256 ^ N.of_nat 2)%N with 65536%N; lia).
  cbn [mbind option_bind]. rewrite Nat2N.id, read_bytes_app.
  cbn [mbind option_bind].
  rewrite read_big_endian_big_endian
    by (change (256 ^ N.of_nat 4)%N with 4294967296%N; lia).
  cbn [mbind option_bind]. rewrite <- Hsecret, read_bytes_app.
  cbn [mbind option_bind].
  by rewrite string_of_list_byte_of_string, Z2N.id by lia.
Qed.

Lemma read_record (kv : string * entry) (bytes rest : list byte) (count : nat) (w : t) :
  record kv = Ok bytes ->
  read_records (S count) (bytes ++ rest) w
  = read_records count rest (<[fst kv := snd kv]> w).
Proof.
  destruct kv as [k [s r]]. unfold record. cbn [fst snd secret round].
  destruct (Z.of_nat (length (list_byte_of_string k)) <? 2 ^ 16) eqn:Hlen; [|done].
  destruct ((0 <=? r) && (r <? 2 ^ 32)) eqn:Hround; [|done].
  destruct (length s =? 32)%nat eqn:Hsecret; [|done].
  cbn [negb]. intros Hbytes. apply Ok_inj in Hbytes. subst bytes.
  apply Z.ltb_lt in Hlen. apply andb_true_iff in Hround as [Hr0 Hr1].
  apply Z.leb_le in Hr0. apply Z.ltb_lt in Hr1. apply Nat.eqb_eq in Hsecret.
  by apply read_fields.
Qed.

Lemma read_records_concat (entries : list (string * entry))
    (records : list (list byte)) (w : t) :
  result_mapM record entries = Ok records ->
  read_records (length entries) (concat records) w
  = Ok (fold_left (fun acc kv => <[fst kv := id (snd kv)]> acc) entries w).
Proof.
  revert records w. induction entries as [|kv entries IH]; intros records w Hrecords.
  - by injection Hrecords as <-.
  - cbn [result_mapM] in Hrecords. destruct (record kv) as [bytes|] eqn:Hkv; [|done].
    cbn [result_bind] in Hrecords.
    destruct (result_mapM record entries) as [records'|]; [|done].
    injection Hrecords as <-. cbn [length concat fold_left].
    rewrite (read_record kv bytes) by done. by apply IH.
Qed.

(** The keywheel is read back from its binary form, whatever the receiver
    held. *)
Lemma UnmarshalBinary_MarshalBinary (receiver w : t) (data : list byte) :
  MarshalBinary w = Ok data -> UnmarshalBinary receiver data = Ok w.
Proof.
  unfold MarshalBinary.
  destruct (Z.of_nat (length (sorted_entries w)) <? 2 ^ 32) eqn:Hcount; [|done].
  cbn [negb]. unfold result_map.
  destruct (result_mapM record (sorted_entries w)) as [records|] eqn:Hrecords; [|done].
  intros Hdata. apply Ok_inj in Hdata. subst data. apply Z.ltb_lt in Hcount.
  cbn [UnmarshalBinary]. change (Byte.eqb "001" "001") with true. cbv iota.
  rewrite read_big_endian_big_endian
    by (change (256 ^ N.of_nat 4)%N with 4294967296%N; lia).
  rewrite Nat2N.id, (read_records_concat _ _ _ Hrecords). f_equal.
  etrans; [apply (sorted_entries_to_map (A := entry) id w) | apply map_fmap_id].
Qed.

#[local] Existing Instance types.
#[local] Existing Instance externals.

(** The types modelled from the specification read back what they wrote. *)
Lemma laws : Laws.
Proof.
  split.
  - apply decodes_SignedConfig.
  - apply never_null_SignedConfig.
  - apply decodes_Incoming.
  - apply never_null_Incoming.
  - apply decodes_Outgoing.
  - apply never_null_Outgoing.
  - apply decodes_Sent.
  - apply never_null_Sent.
  - apply UnmarshalBinary_MarshalBinary.
Qed.
End WheelFacts.

(** ** Persisting, then loading: with the codecs *)

Section RoundTripLaws.
Context `{Externals} `{!Roundtrip.Laws}.
Import OS Persist Props JSON Text Roundtrip.

Lemma state_decoded_persisted (this : Client.t) :
  state_decoded (persisted this) = persisted (with_back_references None this).
Proof.
  unfold state_decoded, persisted, with_back_references. simpl.
  by rewrite persisted_friend_back_reference.
Qed.

(** The back-references are not encoded. *)
Lemma persisted_toJSON_back_references (back : ptr addr) (this : Client.t) :
  toJSON (persisted (with_back_references back this)) = toJSON (persisted this).
Proof.
  simpl. unfold persistedState_toJSON. simpl.
  by rewrite !requests_toJSON_redirect, persisted_friend_back_reference.
Qed.

(** [json.Unmarshal] of the client blob gives the state that was marshalled,
    without the back-references. *)
Lemma Unmarshal_persisted (this : Client.t) (data : list byte) :
  text_valid this ->
  MarshalIndent (persisted this) "" "  " = Ok data ->
  Unmarshal data = Ok (persisted (with_back_references None this)).
Proof.
  unfold text_valid. intros Hvalid Hdata.
  destruct (toJSON (persisted this)) as [j|err] eqn:Hj.
  2: { unfold MarshalIndent in Hdata. by rewrite Hj in Hdata. }
  destruct (decodes_persistedState _ _ Hj Hvalid) as [Hnum Hdec].
  rewrite (Unmarshal_MarshalIndent _ _ _ Hj Hvalid Hnum Hdata), Hdec.
  by rewrite state_decoded_persisted.
Qed.

(** Marshalling the decoded state gives the bytes of the blob again. *)
Lemma MarshalIndent_decoded (this : Client.t) :
  MarshalIndent (persisted (with_back_references None this)) "" "  "
  = MarshalIndent (persisted this) "" "  ".
Proof. unfold MarshalIndent. by rewrite persisted_toJSON_back_references. Qed.

End RoundTripLaws.

(** ** Persisting, then loading: the round trip *)

Section RoundTrip.
Import OS Persist Props JSON Text Roundtrip Example.
#[local] Existing Instance Model.types.
#[local] Existing Instance Model.externals.
#[local] Existing Instance laws.



(** Why the strings have to be valid UTF-8: for a byte that is not part of
    a valid encoding the encoder writes the escape of U+FFFD, the decoder
    reads U+FFFD (EF BF BD), and the encoder writes that as it is. *)
Example invalid_text_is_replaced :
  let s := String (ascii_of_nat 255) EmptyString in
  let s' := utf8 65533 in
  utf8_valid s = false /\
  escape s = replacement_escape /\
  parse (render "" "  " 0 (JString s)) = Ok (JString s') /\
  escape s' = s'.
Proof. vm_compute. repeat split; reflexivity. Qed.

Lemma bob_text_valid : text_valid bob.
Proof. vm_compute. reflexivity. Qed.


End RoundTrip.
